(** * The browser build of Tailwind CSS: class registry and serialized rebuilds

    A shallow embedding of [packages/@tailwindcss-browser/src/index.ts]:
    the module-level state ([compiler], [processedClasses], [sheet],
    [buildQueue]), the stylesheet resolver, the build task
    ([processClasses]), the promise chain that serializes build tasks
    ([queueClassProcessing]) and the entry point [tw]. *)

From Stdlib Require Import String Ascii List Bool Arith Lia.
From stdpp Require Import base option list gmap strings.
Import ListNotations.

Local Open Scope string_scope.
Local Open Scope list_scope.

(** ** JavaScript strings

    A [string] stands for a JavaScript string whose UTF-16 code units are
    all below 256; an [ascii] is one code unit. *)
Module JsString.

(** The code units below 256 that [String.prototype.trim] strips and that
    the regular expression class [\s] matches: TAB, LF, VT, FF, CR,
    SPACE and NO-BREAK SPACE. *)
Definition is_whitespace (c : ascii) : bool :=
  let n := nat_of_ascii c in
  (Nat.leb 9 n && Nat.leb n 13) || Nat.eqb n 32 || Nat.eqb n 160.

Definition is_empty (s : string) : bool :=
  match s with EmptyString => true | String _ _ => false end.

Fixpoint trimStart (s : string) : string :=
  match s with
  | EmptyString => EmptyString
  | String c r => if is_whitespace c then trimStart r else s
  end.

Fixpoint trimEnd (s : string) : string :=
  match s with
  | EmptyString => EmptyString
  | String c r =>
      let r' := trimEnd r in
      if is_whitespace c && is_empty r' then EmptyString else String c r'
  end.

(** [s.trim()] *)
Definition trim (s : string) : string := trimEnd (trimStart s).

(** [s.split(/\s+/)]: the pieces of [s] between the maximal runs of
    whitespace.  The flag says that the previous code unit was part of a
    separator.  The empty string splits into one empty piece, and a
    separator at either end of [s] leaves an empty piece there. *)
Fixpoint split_ws_from (in_sep : bool) (s : string) : list string :=
  match s with
  | EmptyString => [EmptyString]
  | String c r =>
      if is_whitespace c then
        if in_sep then split_ws_from true r
        else EmptyString :: split_ws_from true r
      else
        match split_ws_from false r with
        | p :: ps => String c p :: ps
        | [] => [String c EmptyString]
        end
  end.

Definition split_ws (s : string) : list string := split_ws_from false s.

(** [Boolean(s)] for a string: only the empty string is falsy. *)
Definition truthy (s : string) : bool := negb (is_empty s).

(** [l.join(sep)] *)
Fixpoint join (sep : string) (l : list string) : string :=
  match l with
  | [] => EmptyString
  | [x] => x
  | x :: r => x ++ sep ++ join sep r
  end.

(** The double quote, as a one-character string. *)
Definition dquote : string := String (ascii_of_nat 34) EmptyString.

End JsString.

(** [parseClassString]: [input.trim().split(/\s+/).filter(Boolean)] *)
Definition parseClassString (input : string) : list string :=
  List.filter JsString.truthy (JsString.split_ws (JsString.trim input)).

(** The tokens of a string in the specification's words: the string is
    split on runs of whitespace, so its tokens are the maximal runs of
    code units that are not whitespace, in the order they occur. *)
Fixpoint tokens (s : string) : list string :=
  match s with
  | EmptyString => []
  | String c r =>
      if JsString.is_whitespace c then tokens r
      else match r with
           | EmptyString => [String c EmptyString]
           | String c' _ =>
               if JsString.is_whitespace c' then String c EmptyString :: tokens r
               else match tokens r with
                    | w :: ws => String c w :: ws
                    | [] => [String c EmptyString]
                    end
           end
  end.

(** *** Shapes of strings *)

(** Every code unit of [s] satisfies [p]. *)
Fixpoint all_units (p : ascii -> bool) (s : string) : bool :=
  match s with
  | EmptyString => true
  | String c r => p c && all_units p r
  end.

(** A string of whitespace only; the empty string is one. *)
Definition blank (s : string) : bool := all_units JsString.is_whitespace s.

(** A class name: a string that is not empty and holds no whitespace. *)
Definition solid (s : string) : bool :=
  JsString.truthy s && all_units (fun c => negb (JsString.is_whitespace c)) s.

(** The code units of [s] that are not whitespace, in order. *)
Fixpoint strip (s : string) : string :=
  match s with
  | EmptyString => EmptyString
  | String c r => if JsString.is_whitespace c then strip r else String c (strip r)
  end.

(** [l.join('')] *)
Definition glue (l : list string) : string := fold_right String.append EmptyString l.

(** ** The entry point's inputs *)

(** One argument of [tw]: [string | boolean | null | undefined | { [key:
    string]: boolean }].  An object is given by its entries in the order
    [Object.entries] enumerates them. *)
Inductive input : Type :=
  | InString (s : string)
  | InBoolean (b : bool)
  | InNull
  | InUndefined
  | InObject (entries : list (string * bool)).

(** Whether an input is truthy, that is whether [!input] is false. *)
Definition input_truthy (i : input) : bool :=
  match i with
  | InString s => JsString.truthy s
  | InBoolean b => b
  | InNull | InUndefined => false
  | InObject _ => true
  end.

(** The two arrays [tw] fills: [resultClasses] and [allClassesToProcess]. *)
Record tw_acc : Type := TwAcc {
  resultClasses : list string;
  allClassesToProcess : list string;
}.

(** The body of the inner loop over [Object.entries(input)]. *)
Definition tw_entry (acc : tw_acc) (entry : string * bool) : tw_acc :=
  let '(className, condition) := entry in
  let parsedClasses := parseClassString className in
  let all := allClassesToProcess acc ++ parsedClasses in
  if condition
  then TwAcc (resultClasses acc ++ parsedClasses) all
  else TwAcc (resultClasses acc) all.

(** The body of the loop over [inputs]. *)
Definition tw_input (acc : tw_acc) (i : input) : tw_acc :=
  if negb (input_truthy i) then acc
  else match i with
       | InString s =>
           let parsedClasses := parseClassString s in
           TwAcc (resultClasses acc ++ parsedClasses)
                 (allClassesToProcess acc ++ parsedClasses)
       | InObject entries => fold_left tw_entry entries acc
       | _ => acc
       end.

Definition tw_collect (inputs : list input) : tw_acc :=
  fold_left tw_input inputs (TwAcc [] []).

(** The tokens one input contributes to the returned string and to the
    candidates, in the specification's words: a string contributes its
    tokens to both; a mapping contributes the tokens of every key to the
    candidates and those of the keys with a truthy value to the returned
    string; anything else contributes nothing. *)
Definition active_tokens (i : input) : list string :=
  match i with
  | InString s => parseClassString s
  | InObject entries =>
      flat_map (fun e => parseClassString e.1) (List.filter snd entries)
  | _ => []
  end.

Definition candidate_tokens (i : input) : list string :=
  match i with
  | InString s => parseClassString s
  | InObject entries => flat_map (fun e => parseClassString e.1) entries
  | _ => []
  end.

(** ** Errors and outcomes *)

(** A thrown value: [new Error(message)], or the [TypeError] the runtime
    raises when a property of [undefined] is read or written.  The text
    of such a [TypeError] is the runtime's own; here it carries the name
    of the property. *)
Inductive exn : Type :=
  | Error (message : string)
  | TypeError (property : string).

(** How a call ends: it returns, or it throws (an [async] function that
    throws settles its promise as rejected). *)
Inductive outcome (A : Type) : Type :=
  | Return (a : A)
  | Throw (e : exn).
Arguments Return {A} a.
Arguments Throw {A} e.

(** [err.message] *)
Definition error_message (e : exn) : string :=
  match e with
  | Error m => m
  | TypeError p => p
  end.

(** ** The processed-class registry

    [processedClasses] is a JavaScript [Set<string>]: it holds each string
    once and enumerates them in insertion order.  It is kept as the list
    of its members in that order. *)
Module JsSet.

Definition has (x : string) (s : list string) : bool := bool_decide (x ∈ s).

(** [s.add(x)]: appends [x] unless [s] has it already. *)
Definition add (s : list string) (x : string) : list string :=
  if has x s then s else s ++ [x].

(** [Array.from(s)] *)
Definition to_array (s : list string) : list string := s.

(** The members, as a finite set. *)
Definition members (s : list string) : gset string := list_to_set s.

End JsSet.

(** [classNames.filter((cls) => !processedClasses.has(cls))] *)
Definition new_names (classNames registry : list string) : list string :=
  List.filter (fun cls => negb (JsSet.has cls registry)) classNames.

(** ** Observable events *)

(** Modelled from the spec: the [Instrumentation] class of
    [./instrumentation] is not part of the sources; the spec calls it the
    observability channel.  Each call of [I.start], [I.end], [I.hit] and
    [I.error] is recorded as one event and returns normally.  The calls of
    the engine ([tailwindcss.compile], [compiler.build]) and the begin and
    end of every build task are recorded in the same trace. *)
Inductive event : Type :=
  | IStart (label : string)
  | IEnd (label : string)
  | IEndProcess (count total : nat)
  | IHitLoaded (id base : string) (size : nat)
  | IHitFailed (id base : string) (error : string)
  | IError (err : exn)
  | CallCompile (css : string)
  | CallBuild (classes : list string)
  | TaskBegin (n : nat)
  | TaskEnd (n : nat).

(** The arguments of the [compiler.build] calls of a trace, in order. *)
Definition builds (tr : list event) : list (list string) :=
  omap (fun e => match e with CallBuild cs => Some cs | _ => None end) tr.

(** The CSS sources of the [tailwindcss.compile] calls of a trace. *)
Definition compiles (tr : list event) : list string :=
  omap (fun e => match e with CallCompile css => Some css | _ => None end) tr.

(** The errors reported through [I.error]. *)
Definition reported (tr : list event) : list exn :=
  omap (fun e => match e with IError err => Some err | _ => None end) tr.

(** ** The stylesheet resolver *)

(** What [loadStylesheet] returns. *)
Record stylesheet : Type := Stylesheet {
  path : string;
  base : string;
  content : string;
}.

Section Resolver.

(** The built-in stylesheets of [./assets], which is not part of the
    sources. *)
Variables css_index css_preflight css_theme css_utilities : string.

Definition unsupported_import (id : string) : string :=
  "The browser build does not support @import for "
    ++ JsString.dquote ++ id ++ JsString.dquote.

(** The inner function [load] of [loadStylesheet]. *)
Definition load (id base : string) : outcome stylesheet :=
  if String.eqb id "tailwindcss" then
    Return (Stylesheet "virtual:tailwindcss/index.css" base css_index)
  else if String.eqb id "tailwindcss/preflight"
          || String.eqb id "tailwindcss/preflight.css"
          || String.eqb id "./preflight.css" then
    Return (Stylesheet "virtual:tailwindcss/preflight.css" base css_preflight)
  else if String.eqb id "tailwindcss/theme"
          || String.eqb id "tailwindcss/theme.css"
          || String.eqb id "./theme.css" then
    Return (Stylesheet "virtual:tailwindcss/theme.css" base css_theme)
  else if String.eqb id "tailwindcss/utilities"
          || String.eqb id "tailwindcss/utilities.css"
          || String.eqb id "./utilities.css" then
    Return (Stylesheet "virtual:tailwindcss/utilities.css" base css_utilities)
  else Throw (Error (unsupported_import id)).

(** [loadStylesheet]: the events it records and how it settles. *)
Definition loadStylesheet (id base : string) : list event * outcome stylesheet :=
  match load id base with
  | Return stylesheet =>
      ([IHitLoaded id base (String.length (content stylesheet))], Return stylesheet)
  | Throw err =>
      ([IHitFailed id base (error_message err)], Throw err)
  end.

(** [loadModule] *)
Definition loadModule : outcome Empty_set :=
  Throw (Error "The browser build does not support plugins or config files.").

(** The alias table as the specification lists it: the default entry
    point and the three sub-resources, each under its canonical name and
    its path-shaped aliases, with the virtual path and the content each
    one resolves to. *)
Definition alias_table : list (string * (string * string)) :=
  [ ("tailwindcss", ("virtual:tailwindcss/index.css", css_index));
    ("tailwindcss/preflight", ("virtual:tailwindcss/preflight.css", css_preflight));
    ("tailwindcss/preflight.css", ("virtual:tailwindcss/preflight.css", css_preflight));
    ("./preflight.css", ("virtual:tailwindcss/preflight.css", css_preflight));
    ("tailwindcss/theme", ("virtual:tailwindcss/theme.css", css_theme));
    ("tailwindcss/theme.css", ("virtual:tailwindcss/theme.css", css_theme));
    ("./theme.css", ("virtual:tailwindcss/theme.css", css_theme));
    ("tailwindcss/utilities", ("virtual:tailwindcss/utilities.css", css_utilities));
    ("tailwindcss/utilities.css", ("virtual:tailwindcss/utilities.css", css_utilities));
    ("./utilities.css", ("virtual:tailwindcss/utilities.css", css_utilities)) ].

Definition alias_names : list string := alias_table.*1.

Fixpoint alias_lookup (id : string) (t : list (string * (string * string)))
  : option (string * string) :=
  match t with
  | [] => None
  | (k, v) :: r => if String.eqb id k then Some v else alias_lookup id r
  end.

End Resolver.

(** The stylesheets of [./assets], as its [css] object holds them. *)
Record Assets : Type := {
  asset_index : string;
  asset_preflight : string;
  asset_theme : string;
  asset_utilities : string;
}.

(** ** Engines to run the definitions on

    An engine that compiles every source and whose [build] returns the
    class names it was given; a compile that always throws; and a [build]
    that throws when it is given the class [bad]. *)
Definition echo_compile (css : string) : outcome unit := Return tt.

Definition echo_build (c : unit) (classes : list string) : unit * outcome string :=
  (tt, Return (JsString.join " " classes)).

Definition broken_compile (css : string) : outcome unit :=
  Throw (Error "cannot compile").

Definition picky_build (c : unit) (classes : list string) : unit * outcome string :=
  if bool_decide ("bad" ∈ classes)
  then (tt, Throw (Error "cannot build"))
  else (tt, Return (JsString.join " " classes)).



(** ** The module state and the build task *)

(** The CSS source [initializeCompiler] uses when it is given none. *)
Definition default_css : string :=
  "@import " ++ JsString.dquote ++ "tailwindcss" ++ JsString.dquote ++ ";".

(** Stylesheets and [loadStylesheet] calls to run the definitions on: a
    compile of the default CSS that asks for the index and for the three
    stylesheets the index imports, and a compile that asks for a
    stylesheet the resolver does not have. *)
Definition demo_assets : Assets :=
  {| asset_index := "@import './theme.css';";
     asset_preflight := "*{margin:0}";
     asset_theme := ":root{}";
     asset_utilities := "@tailwind utilities;" |}.

Definition demo_loads (css : string) : list (string * string) :=
  if String.eqb css default_css
  then [("tailwindcss", "/"); ("./theme.css", "/"); ("./preflight.css", "/");
        ("./utilities.css", "/")]
  else [].

Definition broken_loads (css : string) : list (string * string) :=
  [("tailwindcss", "/"); ("./plugin.css", "/")].

Section Browser.

(** The engine of the [tailwindcss] package, which is outside this
    module.  The call [tailwindcss.compile(css, { base: '/',
    loadStylesheet, loadModule })] is given by what this module can see
    of it: [compile_loads css] are the calls of [loadStylesheet] it
    makes, each with its identifier and its base, in order, and
    [tailwind_compile css] is how its promise settles.  A call of
    [loadModule] leaves nothing behind: it throws and records nothing.
    [engine_build c classes] is the call [c.build(classes)], which may
    change the engine's own state and returns the CSS text or throws.
    [assets] are the stylesheets of [./assets]. *)
Variable Engine : Type.
Variable tailwind_compile : string -> outcome Engine.
Variable engine_build : Engine -> list string -> Engine * outcome string.
Variable assets : Assets.
Variable compile_loads : string -> list (string * string).

(** The module-level variables [compiler], [processedClasses] and
    [sheet] ([None] is [undefined]; a style element is given by its
    [textContent]), and the trace of events so far. *)
Record store : Type := Store {
  compiler : option Engine;
  processedClasses : list string;
  sheet : option string;
  trace : list event;
}.

Definition record (es : list event) (s : store) : store :=
  Store (compiler s) (processedClasses s) (sheet s) (trace s ++ es).

Definition set_compiler (c : Engine) (s : store) : store :=
  Store (Some c) (processedClasses s) (sheet s) (trace s).

Definition set_processedClasses (r : list string) (s : store) : store :=
  Store (compiler s) r (sheet s) (trace s).

Definition set_sheet (text : string) (s : store) : store :=
  Store (compiler s) (processedClasses s) (Some text) (trace s).

(** The state when the module has been loaded. *)
Definition initial_store : store := Store None [] None [].

(** [initializeCompiler], up to its [await]: the two [I.start] calls and
    the call of [tailwindcss.compile]. *)
Definition initializeCompiler_call (customCss : option string) (s : store) : store :=
  let css := default default_css customCss in
  record [IStart "Initialize compiler"; IStart "Compile CSS"; CallCompile css] s.

(** The [I.hit] events of the [loadStylesheet] calls that compiling
    [css] makes: every call records one, whether it returns or throws. *)
Definition compile_hits (css : string) : list event :=
  flat_map (fun call =>
              (loadStylesheet (asset_index assets) (asset_preflight assets)
                 (asset_theme assets) (asset_utilities assets) call.1 call.2).1)
    (compile_loads css).

(** [initializeCompiler], from its [await] on.  The compile has called
    [loadStylesheet] as often as it needed, and each call has recorded
    its event; the trace has these events in the order of the calls,
    after everything that was recorded before the compile settled (an
    [initializeCompiler] called from outside during the [await] has its
    start events before them).  When
    the promise is fulfilled the engine is assigned to [compiler] and
    the style element is created unless there is one; the [finally]
    block runs either way. *)
Definition initializeCompiler_settle (customCss : option string) (s : store)
  : store * outcome unit :=
  let css := default default_css customCss in
  let finally := record [IEnd "Compile CSS"; IEnd "Initialize compiler"] in
  let s0 := record (compile_hits css) s in
  match tailwind_compile css with
  | Return c =>
      let s1 := set_compiler c s0 in
      let s2 := match sheet s1 with
                | None => set_sheet "" s1
                | Some _ => s1
                end in
      (finally s2, Return tt)
  | Throw e => (finally s0, Throw e)
  end.

(** [initializeCompiler] when nothing else runs during its [await]. *)
Definition initializeCompiler (customCss : option string) (s : store)
  : store * outcome unit :=
  initializeCompiler_settle customCss (initializeCompiler_call customCss s).

(** [processClasses] after its first statement: from the filter to the
    end.  This part has no [await]. *)
Definition process_new (classNames : list string) (s : store) : store * outcome unit :=
  let newClasses := new_names classNames (processedClasses s) in
  if Nat.eqb (length newClasses) 0 then (s, Return tt)
  else
    let s1 := record [IStart "Process new classes"] s in
    let s2 := set_processedClasses (fold_left JsSet.add newClasses (processedClasses s1)) s1 in
    let allProcessedClasses := JsSet.to_array (processedClasses s2) in
    match compiler s2 with
    | None => (s2, Throw (TypeError "build"))
    | Some c =>
        let '(c', r) := engine_build c allProcessedClasses in
        let s3 := record [CallBuild allProcessedClasses] (set_compiler c' s2) in
        match r with
        | Throw e => (s3, Throw e)
        | Return compiledCss =>
            match sheet s3 with
            | None => (s3, Throw (TypeError "textContent"))
            | Some _ =>
                (record [IEndProcess (length newClasses) (length allProcessedClasses)]
                   (set_sheet compiledCss s3),
                 Return tt)
            end
        end
    end.

(** [processClasses] when nothing else runs during its [await]. *)
Definition processClasses (classNames : list string) (s : store) : store * outcome unit :=
  match compiler s with
  | None =>
      match initializeCompiler None s with
      | (s1, Return _) => process_new classNames s1
      | (s1, Throw e) => (s1, Throw e)
      end
  | Some _ => process_new classNames s
  end.

(** Modelled from the spec: [Instrumentation.error] of [./instrumentation]
    is not part of the sources.  The spec has a failure of a task
    reported via an observability channel and recorded via an
    observability sink, after which the queue goes on with the next
    task: [I.error(err)] records the error and returns. *)
Definition I_error (err : exn) (s : store) : store * outcome unit :=
  (record [IError err] s, Return tt).

(** The handler of [.catch((err) => I.error(err))]: the store it leaves
    and how the promise it settles ends.  When the task returned, the
    handler is passed by and the promise is fulfilled; when the task
    threw, the handler is called with the error and the promise ends as
    the handler does: fulfilled when [I.error] returns, rejected with
    what it throws otherwise. *)
Definition catch (r : store * outcome unit) : store * outcome unit :=
  match r with
  | (s, Return v) => (s, Return v)
  | (s, Throw err) => I_error err s
  end.

(** ** The build queue and the event loop

    [buildQueue] is a promise chain: [queueClassProcessing] appends one
    link, [buildQueue.then(() => processClasses(classNames)).catch(...)],
    whose callback is called once the promise of the link before it is
    fulfilled.  The chain is kept as the list of its links in the order
    they were appended, each with the class names of its task and how
    far the task has got.  A task is suspended at each [await] and
    between its end and the [catch] handler of its link; anything else
    that is ready can run in between. *)
Inductive status : Type :=
  | Pending                       (* the callback has not been called *)
  | Initializing                  (* inside [await initializeCompiler()], at the
                                     [await] of [initializeCompiler] itself *)
  | Initialized                   (* [initializeCompiler] has returned;
                                     [processClasses] has not gone on yet *)
  | Finished (r : outcome unit)   (* [processClasses] has returned or thrown;
                                     the [catch] handler has not run yet *)
  | Settled                       (* the promise of the link is fulfilled *)
  | Rejected (e : exn).           (* the promise of the link is rejected: the
                                     [catch] handler has thrown *)

(** The module state, the chain, and the calls of the exported
    [initializeCompiler] made from outside that have not settled. *)
Record machine : Type := Machine {
  mem : store;
  buildQueue : list (list string * status);
  inits : list (option string);
}.

Definition initial : machine := Machine initial_store [] [].

(** [queueClassProcessing] *)
Definition queueClassProcessing (classNames : list string) (m : machine) : machine :=
  Machine (mem m) (buildQueue m ++ [(classNames, Pending)]) (inits m).

(** [tw]: the string it returns and the state it leaves. *)
Definition tw (inputs : list input) (m : machine) : string * machine :=
  let acc := tw_collect inputs in
  (JsString.join " " (resultClasses acc),
   queueClassProcessing (allClassesToProcess acc) m).

(** The promise a link waits for is fulfilled: the link is the first, or
    the link before it is settled. *)
Definition predecessor_settled (n : nat) (q : list (list string * status)) : bool :=
  match n with
  | 0 => true
  | S k => match q !! k with
           | Some (_, Settled) => true
           | _ => false
           end
  end.

(** The promise a link waits for is rejected: the link before it is. *)
Definition predecessor_rejected (n : nat) (q : list (list string * status)) : option exn :=
  match n with
  | 0 => None
  | S k => match q !! k with
           | Some (_, Rejected e) => Some e
           | _ => None
           end
  end.

(** The end of a link: the store the [catch] handler leaves, after which
    the promise of the link is settled. *)
Definition finish_task (n : nat) (r : store * outcome unit) : store :=
  record [TaskEnd n] (catch r).1.

(** The promise link [n] waits for is settled.  When it is fulfilled,
    the callback of the link is called: with a compiler installed
    [processClasses] runs to its end; otherwise it calls
    [initializeCompiler], which runs to its [await].  When it is
    rejected, [then] does not call the callback and passes the error on
    to the [catch] handler of the link. *)
Definition begin_task (n : nat) (m : machine) : option machine :=
  match buildQueue m !! n with
  | Some (classNames, Pending) =>
      if predecessor_settled n (buildQueue m) then
        let s := record [TaskBegin n] (mem m) in
        match compiler s with
        | None =>
            Some (Machine (initializeCompiler_call None s)
                    (<[n := (classNames, Initializing)]> (buildQueue m)) (inits m))
        | Some _ =>
            let r := process_new classNames s in
            Some (Machine r.1
                    (<[n := (classNames, Finished r.2)]> (buildQueue m)) (inits m))
        end
      else
        match predecessor_rejected n (buildQueue m) with
        | Some e =>
            Some (Machine (mem m)
                    (<[n := (classNames, Finished (Throw e))]> (buildQueue m)) (inits m))
        | None => None
        end
  | _ => None
  end.

(** The [initializeCompiler] call of link [n] goes on from its [await]
    and returns or throws; when it throws, so does [processClasses]. *)
Definition initialize_task (n : nat) (m : machine) : option machine :=
  match buildQueue m !! n with
  | Some (classNames, Initializing) =>
      let r := initializeCompiler_settle None (mem m) in
      let st := match r.2 with
                | Return _ => Initialized
                | Throw e => Finished (Throw e)
                end in
      Some (Machine r.1 (<[n := (classNames, st)]> (buildQueue m)) (inits m))
  | _ => None
  end.

(** [processClasses] of link [n] goes on after [await
    initializeCompiler()] and runs to its end. *)
Definition continue_task (n : nat) (m : machine) : option machine :=
  match buildQueue m !! n with
  | Some (classNames, Initialized) =>
      let r := process_new classNames (mem m) in
      Some (Machine r.1 (<[n := (classNames, Finished r.2)]> (buildQueue m)) (inits m))
  | _ => None
  end.

(** The [catch] handler of link [n] has its turn and the promise of the
    link is settled: fulfilled when the task returned or the handler
    did, rejected when the handler threw. *)
Definition settle_task (n : nat) (m : machine) : option machine :=
  match buildQueue m !! n with
  | Some (classNames, Finished r) =>
      let st := match (catch (mem m, r)).2 with
                | Return _ => Settled
                | Throw e => Rejected e
                end in
      Some (Machine (finish_task n (mem m, r))
              (<[n := (classNames, st)]> (buildQueue m)) (inits m))
  | _ => None
  end.

(** A call of the exported [initializeCompiler] from outside, up to its
    [await], and the rest of the [i]-th such call; how it settles is
    that caller's business. *)
Definition call_initializeCompiler (customCss : option string) (m : machine) : machine :=
  Machine (initializeCompiler_call customCss (mem m)) (buildQueue m)
    (inits m ++ [customCss]).

Definition settle_initializeCompiler (i : nat) (m : machine) : option machine :=
  match inits m !! i with
  | Some customCss =>
      Some (Machine (fst (initializeCompiler_settle customCss (mem m)))
              (buildQueue m) (delete i (inits m)))
  | None => None
  end.

(** What can happen next. *)
Inductive action : Type :=
  | CallTw (inputs : list input)
  | CallInit (customCss : option string)
  | SettleInit (i : nat)
  | BeginTask (n : nat)
  | InitializeTask (n : nat)
  | ContinueTask (n : nat)
  | SettleTask (n : nat).

Definition perform (a : action) (m : machine) : option machine :=
  match a with
  | CallTw inputs => Some (snd (tw inputs m))
  | CallInit customCss => Some (call_initializeCompiler customCss m)
  | SettleInit i => settle_initializeCompiler i m
  | BeginTask n => begin_task n m
  | InitializeTask n => initialize_task n m
  | ContinueTask n => continue_task n m
  | SettleTask n => settle_task n m
  end.

Definition step (m m' : machine) : Prop := exists a, perform a m = Some m'.

Definition reachable (m : machine) : Prop := rtc step initial m.

(** Running the build queue alone: the first link that is not settled
    makes its next move. *)
Fixpoint first_unsettled (q : list (list string * status)) : option (nat * status) :=
  match q with
  | [] => None
  | (_, Settled) :: r => prod_map S id <$> first_unsettled r
  | (_, st) :: _ => Some (0, st)
  end.

Definition run_next (m : machine) : option machine :=
  match first_unsettled (buildQueue m) with
  | Some (n, Pending) => begin_task n m
  | Some (n, Initializing) => initialize_task n m
  | Some (n, Initialized) => continue_task n m
  | Some (n, _) => settle_task n m
  | None => None
  end.

Fixpoint run_tasks (fuel : nat) (m : machine) : machine :=
  match fuel with
  | 0 => m
  | S fuel' => match run_next m with
               | Some m' => run_tasks fuel' m'
               | None => m
               end
  end.

Definition all_settled (m : machine) : Prop :=
  Forall (fun t => t.2 = Settled) (buildQueue m).

(** No promise of the chain is rejected. *)
Definition no_rejected (q : list (list string * status)) : Prop :=
  Forall (fun t => forall e, t.2 <> Rejected e) q.

(** The events of one whole [initializeCompiler] call: the two spans
    are opened, the compile is called and calls [loadStylesheet], and
    the two spans are closed. *)
Definition init_events (css : string) : list event :=
  [IStart "Initialize compiler"; IStart "Compile CSS"; CallCompile css]
    ++ compile_hits css
    ++ [IEnd "Compile CSS"; IEnd "Initialize compiler"].

Arguments compile_hits : simpl never.
Arguments init_events : simpl never.

(** The store a task leaves when it ran from its begin to its end with
    nothing in between. *)
Definition task_alone (n : nat) (classNames : list string) (s : store) : store :=
  finish_task n (processClasses classNames (record [TaskBegin n] s)).

(** *** What serial execution looks like *)

Definition is_pending (t : list string * status) : bool :=
  match t.2 with Pending => true | _ => false end.

(** The shape of a queue whose tasks run one at a time and in order:
    settled links, then at most one link in progress, then links that
    have not begun. *)
Fixpoint serial_queue (q : list (list string * status)) : bool :=
  match q with
  | [] => true
  | (_, Settled) :: r => serial_queue r
  | _ :: r => forallb is_pending r
  end.

(** How far the queue has got: the index of the first link that is not
    settled (the length when there is none) and whether that link is in
    progress. *)
Definition progress (q : list (list string * status)) : nat * bool :=
  match first_unsettled q with
  | Some (n, Pending) => (n, false)
  | Some (n, _) => (n, true)
  | None => (length q, false)
  end.

(** Reading a trace for the order of the tasks.  The reader holds the
    number of the next task and whether a task is open; it accepts the
    begin of task [next] when none is open, the end of task [next] when
    it is open, a [build] call only inside an open task, and every other
    event anywhere. *)
Definition scan_step (st : option (nat * bool)) (e : event) : option (nat * bool) :=
  match st with
  | None => None
  | Some (next, open) =>
      match e with
      | TaskBegin n =>
          if negb open && Nat.eqb n next then Some (next, true) else None
      | TaskEnd n =>
          if open && Nat.eqb n next then Some (S next, false) else None
      | CallBuild _ => if open then st else None
      | _ => st
      end
  end.

Definition scan (tr : list event) : option (nat * bool) :=
  fold_left scan_step tr (Some (0, false)).

(** The events that are neither the begin nor the end of a task, and
    those among them that are not a [build] call either. *)
Definition inner_event (e : event) : bool :=
  match e with TaskBegin _ | TaskEnd _ => false | _ => true end.

Definition quiet_event (e : event) : bool :=
  match e with TaskBegin _ | TaskEnd _ | CallBuild _ => false | _ => true end.

(** The invariant of the event loop that says the tasks are serialized:
    the queue has the serial shape and the trace reads as the tasks
    [0], [1], ... one after the other, up to where the queue has got. *)
Definition serialized (m : machine) : Prop :=
  serial_queue (buildQueue m) = true
  /\ scan (trace (mem m)) = Some (progress (buildQueue m)).

(** Tasks run one after the other, in the order of the list, each on the
    store the one before it left; [n] is the number of the first. *)
Fixpoint run_in_order (n : nat) (tasks : list (list string)) (s : store) : store :=
  match tasks with
  | [] => s
  | classNames :: r => run_in_order (S n) r (task_alone n classNames s)
  end.

(** Several [queueClassProcessing] calls in a row. *)
Definition queue_all (tasks : list (list string)) (m : machine) : machine :=
  fold_left (fun m classNames => queueClassProcessing classNames m) tasks m.



(** An error that comes from the engine: compiling the default CSS
    throws it, or some [build] call does. *)
Definition thrown_by_engine (e : exn) : Prop :=
  tailwind_compile default_css = Throw e
  \/ exists c classes c', engine_build c classes = (c', Throw e).

(** A store in which the compiler is never without its style element,
    the registry is empty as long as no compiler is installed, and every
    error that was reported came from the engine. *)
Definition healthy (s : store) : Prop :=
  (is_Some (compiler s) -> is_Some (sheet s))
  /\ (processedClasses s <> [] -> is_Some (compiler s))
  /\ Forall thrown_by_engine (reported (trace s)).

(** A state of the event loop with a healthy store in which a task that
    is past its initialization finds a compiler, and a task that has
    thrown has thrown what the engine threw. *)
Definition healthy_machine (m : machine) : Prop :=
  healthy (mem m)
  /\ (forall n cs, buildQueue m !! n = Some (cs, Initialized) -> is_Some (compiler (mem m)))
  /\ (forall n cs e,
        buildQueue m !! n = Some (cs, Finished (Throw e)) -> thrown_by_engine e).

(** Two stores that differ in their traces at most. *)
Definition same_state (s s' : store) : Prop :=
  compiler s = compiler s'
  /\ processedClasses s = processedClasses s'
  /\ sheet s = sheet s'.

(** A schedule: the moves of a list made one after the other, when each
    of them is possible. *)
Fixpoint run_actions (l : list action) (m : machine) : option machine :=
  match l with
  | [] => Some m
  | a :: r => match perform a m with
              | Some m' => run_actions r m'
              | None => None
              end
  end.

(** The moves of the task of link [n]. *)
Definition task_move (n : nat) (a : action) : Prop :=
  a = BeginTask n \/ a = InitializeTask n \/ a = ContinueTask n \/ a = SettleTask n.

(** ** Properties of the registry *)

Lemma has_true (x : string) (s : list string) : JsSet.has x s = true <-> x ∈ s.
Proof. unfold JsSet.has. apply bool_decide_eq_true. Qed.

Lemma has_false (x : string) (s : list string) : JsSet.has x s = false <-> x ∉ s.
Proof. unfold JsSet.has. apply bool_decide_eq_false. Qed.

Lemma add_present (s : list string) (x : string) : x ∈ s -> JsSet.add s x = s.
Proof. intros H. unfold JsSet.add. apply has_true in H. now rewrite H. Qed.

Lemma elem_of_add (s : list string) (x y : string) :
  y ∈ JsSet.add s x <-> y ∈ s \/ y = x.
Proof.
  unfold JsSet.add. destruct (JsSet.has x s) eqn:E.
  - apply has_true in E. split; [tauto | intros [H | ->]; assumption].
  - rewrite elem_of_app, list_elem_of_singleton. tauto.
Qed.

Lemma elem_of_fold_add (l s : list string) (y : string) :
  y ∈ fold_left JsSet.add l s <-> y ∈ s \/ y ∈ l.
Proof.
  revert s. induction l as [| x l IH]; intros s; simpl.
  - rewrite elem_of_nil. tauto.
  - rewrite IH, elem_of_add, elem_of_cons. tauto.
Qed.

Lemma add_prefix (s : list string) (x : string) : s `prefix_of` JsSet.add s x.
Proof.
  unfold JsSet.add. destruct (JsSet.has x s); [reflexivity |].
  now apply prefix_app_r.
Qed.

Lemma fold_add_prefix (l s : list string) : s `prefix_of` fold_left JsSet.add l s.
Proof.
  revert s. induction l as [| x l IH]; intros s; simpl; [reflexivity |].
  etransitivity; [apply add_prefix | apply IH].
Qed.

Lemma add_NoDup (s : list string) (x : string) : NoDup s -> NoDup (JsSet.add s x).
Proof.
  intros H. unfold JsSet.add. destruct (JsSet.has x s) eqn:E; [assumption |].
  apply has_false in E. apply NoDup_app. split; [assumption |].
  split; [| apply NoDup_singleton].
  intros y Hy Hx. apply list_elem_of_singleton in Hx. now subst.
Qed.

Lemma fold_add_NoDup (l s : list string) : NoDup s -> NoDup (fold_left JsSet.add l s).
Proof.
  revert s. induction l as [| x l IH]; intros s H; simpl; [assumption |].
  apply IH. now apply add_NoDup.
Qed.

Lemma members_fold_add (l s : list string) :
  JsSet.members (fold_left JsSet.add l s) = JsSet.members s ∪ list_to_set l.
Proof.
  unfold JsSet.members. apply set_eq. intros y.
  rewrite elem_of_union, !elem_of_list_to_set. apply elem_of_fold_add.
Qed.

Lemma elem_of_new_names (classNames registry : list string) (y : string) :
  y ∈ new_names classNames registry <-> y ∈ classNames /\ y ∉ registry.
Proof.
  unfold new_names. rewrite list_elem_of_In, filter_In, <- list_elem_of_In.
  rewrite negb_true_iff, has_false. tauto.
Qed.

Lemma new_names_nil (classNames registry : list string) :
  new_names classNames registry = [] <-> Forall (fun cls => cls ∈ registry) classNames.
Proof.
  rewrite Forall_forall. split.
  - intros H y Hy. destruct (decide (y ∈ registry)) as [|Hn]; [assumption |].
    assert (y ∈ new_names classNames registry) as Hin
      by now apply elem_of_new_names.
    rewrite H in Hin. now apply elem_of_nil in Hin.
  - intros H. destruct (new_names classNames registry) as [| y l] eqn:E; [reflexivity |].
    assert (y ∈ new_names classNames registry) as Hin by (rewrite E; left).
    apply elem_of_new_names in Hin as [Hy Hn]. now apply H in Hy.
Qed.

Lemma members_merge (classNames registry : list string) :
  JsSet.members (fold_left JsSet.add (new_names classNames registry) registry)
  = JsSet.members registry ∪ list_to_set classNames.
Proof.
  rewrite members_fold_add. unfold JsSet.members. apply set_eq. intros y.
  rewrite !elem_of_union, !elem_of_list_to_set, elem_of_new_names.
  destruct (decide (y ∈ registry)); tauto.
Qed.

(** ** Properties of a build task *)

Lemma builds_app (tr es : list event) : builds (tr ++ es) = builds tr ++ builds es.
Proof. apply omap_app. Qed.

Lemma compiles_app (tr es : list event) : compiles (tr ++ es) = compiles tr ++ compiles es.
Proof. apply omap_app. Qed.

Lemma reported_app (tr es : list event) : reported (tr ++ es) = reported tr ++ reported es.
Proof. apply omap_app. Qed.

(** The events of the [loadStylesheet] calls of a compile are [I.hit]
    events and nothing else. *)
Lemma compile_hits_quiet (css : string) : forallb quiet_event (compile_hits css) = true.
Proof.
  unfold compile_hits. induction (compile_loads css) as [| call r IH]; [reflexivity |].
  cbn [flat_map]. rewrite forallb_app, IH, andb_true_r. unfold loadStylesheet.
  now destruct (load _ _ _ _ _ _).
Qed.

Lemma quiet_projections (es : list event) :
  forallb quiet_event es = true ->
  builds es = [] /\ forallb inner_event es = true.
Proof.
  induction es as [| e r IH]; [now split |]. cbn [forallb].
  intros [He Hr]%andb_prop. destruct (IH Hr) as [Hb Hi].
  destruct e; try discriminate; cbn; now rewrite ?Hi.
Qed.

Lemma compile_hits_projections (css : string) :
  builds (compile_hits css) = []
  /\ compiles (compile_hits css) = []
  /\ reported (compile_hits css) = [].
Proof.
  unfold compile_hits. induction (compile_loads css) as [| call r (Hb & Hc & Hr)];
    [now repeat split |].
  cbn [flat_map]. rewrite builds_app, compiles_app, reported_app, Hb, Hc, Hr.
  unfold loadStylesheet. now destruct (load _ _ _ _ _ _).
Qed.

Lemma builds_hits (tr : list event) (css : string) :
  builds (tr ++ compile_hits css) = builds tr.
Proof.
  rewrite builds_app, (proj1 (compile_hits_projections css)). apply app_nil_r.
Qed.

Lemma compiles_hits (tr : list event) (css : string) :
  compiles (tr ++ compile_hits css) = compiles tr.
Proof.
  rewrite compiles_app, (proj1 (proj2 (compile_hits_projections css))). apply app_nil_r.
Qed.

Lemma reported_hits (tr : list event) (css : string) :
  reported (tr ++ compile_hits css) = reported tr.
Proof.
  rewrite reported_app, (proj2 (proj2 (compile_hits_projections css))). apply app_nil_r.
Qed.

Lemma init_events_projections (css : string) :
  builds (init_events css) = []
  /\ compiles (init_events css) = [css]
  /\ reported (init_events css) = [].
Proof.
  unfold init_events. destruct (compile_hits_projections css) as (Hb & Hc & Hr).
  rewrite !builds_app, !compiles_app, !reported_app, Hb, Hc, Hr. now repeat split.
Qed.

Lemma builds_init (tr : list event) (css : string) :
  builds (tr ++ init_events css) = builds tr.
Proof.
  rewrite builds_app, (proj1 (init_events_projections css)). apply app_nil_r.
Qed.

Lemma compiles_init (tr : list event) (css : string) :
  compiles (tr ++ init_events css) = compiles tr ++ [css].
Proof. now rewrite compiles_app, (proj1 (proj2 (init_events_projections css))). Qed.

Lemma reported_init (tr : list event) (css : string) :
  reported (tr ++ init_events css) = reported tr.
Proof.
  rewrite reported_app, (proj2 (proj2 (init_events_projections css))). apply app_nil_r.
Qed.

(** A task none of whose names is new stops after the filter. *)
Lemma process_new_skip (classNames : list string) (s : store) :
  Forall (fun cls => cls ∈ processedClasses s) classNames ->
  process_new classNames s = (s, Return tt).
Proof.
  intros H. apply new_names_nil in H. unfold process_new. now rewrite H.
Qed.

(** What [process_new] leaves in the registry, however it ends. *)
Lemma process_new_registry (classNames : list string) (s : store) :
  processedClasses (process_new classNames s).1
  = fold_left JsSet.add (new_names classNames (processedClasses s)) (processedClasses s).
Proof.
  unfold process_new.
  destruct (new_names classNames (processedClasses s)) as [| x l] eqn:E; [reflexivity |].
  cbn [length Nat.eqb]. cbn -[fold_left].
  destruct (compiler s) as [c |]; [| reflexivity].
  destruct (engine_build c _) as [c' [css | e]]; cbn -[fold_left]; [| reflexivity].
  destruct (sheet s); reflexivity.
Qed.

Lemma process_new_registered (classNames : list string) (s : store) :
  Forall (fun cls => cls ∈ processedClasses (process_new classNames s).1) classNames.
Proof.
  rewrite process_new_registry. apply Forall_forall. intros y Hy.
  apply elem_of_fold_add. rewrite elem_of_new_names.
  destruct (decide (y ∈ processedClasses s)); tauto.
Qed.

(** [process_new] calls [build] at most once, with the registry it
    leaves, and does so exactly when a name is new and a compiler is
    installed. *)
Lemma process_new_builds (classNames : list string) (s : store) :
  builds (trace (process_new classNames s).1)
  = builds (trace s)
    ++ (if bool_decide (new_names classNames (processedClasses s) = [])
        then []
        else match compiler s with
             | None => []
             | Some _ => [processedClasses (process_new classNames s).1]
             end).
Proof.
  unfold process_new.
  destruct (new_names classNames (processedClasses s)) as [| x l] eqn:E.
  { cbn. now rewrite app_nil_r. }
  rewrite bool_decide_eq_false_2 by discriminate.
  cbn [length Nat.eqb]. cbn -[fold_left].
  destruct (compiler s) as [c |].
  2:{ cbn. rewrite builds_app. cbn. now rewrite !app_nil_r. }
  destruct (engine_build c _) as [c' [css | e]]; cbn -[fold_left].
  - destruct (sheet s); cbn -[fold_left];
      rewrite ?app_assoc, ?builds_app; cbn -[fold_left]; now rewrite ?app_nil_r.
  - rewrite ?app_assoc, ?builds_app; cbn -[fold_left]; now rewrite ?app_nil_r.
Qed.

Lemma process_new_compiler (classNames : list string) (s : store) :
  is_Some (compiler s) <-> is_Some (compiler (process_new classNames s).1).
Proof.
  unfold process_new.
  destruct (new_names classNames (processedClasses s)) as [| x l] eqn:E; [reflexivity |].
  cbn [length Nat.eqb]. cbn -[fold_left].
  destruct (compiler s) as [c |] eqn:Ec; [| cbn; now rewrite Ec].
  destruct (engine_build c _) as [c' [css | e]]; cbn -[fold_left].
  - destruct (sheet s); cbn; split; eauto.
  - split; eauto.
Qed.

(** The stores the second half of [initializeCompiler] can leave. *)
Lemma initializeCompiler_settle_cases (customCss : option string) (s : store) :
  let css := default default_css customCss in
  let tr := trace s ++ compile_hits css
                    ++ [IEnd "Compile CSS"; IEnd "Initialize compiler"] in
  match tailwind_compile css with
  | Return c =>
      initializeCompiler_settle customCss s
      = (Store (Some c) (processedClasses s) (Some (default "" (sheet s))) tr, Return tt)
  | Throw e =>
      initializeCompiler_settle customCss s
      = (Store (compiler s) (processedClasses s) (sheet s) tr, Throw e)
  end.
Proof.
  cbn zeta. unfold initializeCompiler_settle.
  destruct (tailwind_compile _) as [c | e]; destruct s as [c0 r [t |] tr];
    unfold record, set_compiler, set_sheet; cbn -[compile_hits];
    now rewrite <- app_assoc.
Qed.

Lemma settle_events_projections (tr : list event) (css : string) :
  builds (tr ++ compile_hits css ++ [IEnd "Compile CSS"; IEnd "Initialize compiler"])
  = builds tr
  /\ compiles (tr ++ compile_hits css ++ [IEnd "Compile CSS"; IEnd "Initialize compiler"])
     = compiles tr
  /\ reported (tr ++ compile_hits css ++ [IEnd "Compile CSS"; IEnd "Initialize compiler"])
     = reported tr.
Proof.
  rewrite !app_assoc, !builds_app, !compiles_app, !reported_app.
  rewrite <- builds_app, <- compiles_app, <- reported_app.
  rewrite builds_hits, compiles_hits, reported_hits. cbn. now rewrite !app_nil_r.
Qed.

(** The stores [initializeCompiler] can leave. *)
Lemma initializeCompiler_cases (customCss : option string) (s : store) :
  let css := default default_css customCss in
  let tr := trace s ++ init_events css in
  match tailwind_compile css with
  | Return c =>
      initializeCompiler customCss s
      = (Store (Some c) (processedClasses s)
           (Some (default "" (sheet s))) tr, Return tt)
  | Throw e =>
      initializeCompiler customCss s
      = (Store (compiler s) (processedClasses s) (sheet s) tr, Throw e)
  end.
Proof.
  cbn zeta. unfold initializeCompiler, initializeCompiler_settle, initializeCompiler_call,
    init_events.
  destruct (tailwind_compile _) as [c | e]; cbn -[compile_hits].
  - destruct (sheet s) eqn:Es; cbn -[compile_hits];
      unfold record, set_sheet, set_compiler; cbn -[compile_hits];
      now rewrite ?Es, <- !app_assoc.
  - unfold record; cbn -[compile_hits]. now rewrite <- !app_assoc.
Qed.

Lemma processClasses_cases (classNames : list string) (s : store) :
  match compiler s with
  | Some _ => processClasses classNames s = process_new classNames s
  | None =>
      let tr := trace s ++ init_events default_css in
      match tailwind_compile default_css with
      | Return c =>
          processClasses classNames s
          = process_new classNames
              (Store (Some c) (processedClasses s) (Some (default "" (sheet s))) tr)
      | Throw e =>
          processClasses classNames s
          = (Store None (processedClasses s) (sheet s) tr, Throw e)
      end
  end.
Proof.
  unfold processClasses. destruct (compiler s) eqn:Ec; [reflexivity |].
  pose proof (initializeCompiler_cases None s) as H. cbn in H. cbn.
  destruct (tailwind_compile default_css) as [c | e]; rewrite H; [reflexivity |].
  now rewrite Ec.
Qed.

(** A task leaves every one of its names in the registry, unless the
    automatic initialization failed. *)
Lemma processClasses_registered (classNames : list string) (s : store) :
  is_Some (compiler (processClasses classNames s).1) ->
  Forall (fun cls => cls ∈ processedClasses (processClasses classNames s).1) classNames.
Proof.
  pose proof (processClasses_cases classNames s) as H.
  destruct (compiler s) eqn:Ec.
  - rewrite H. intros _. apply process_new_registered.
  - cbn in H. destruct (tailwind_compile default_css) as [c | e]; rewrite H.
    + intros _. apply process_new_registered.
    + cbn. intros [? ?]; discriminate.
Qed.

(** C1, on one task: when every name of the task is in the registry, the
    task calls [build] not at all and leaves the registry and the text of
    the style element as they are (a style element that did not exist can
    only have been created, empty, by the automatic initialization); with
    a compiler installed the task changes nothing at all. *)
Lemma skip_frame (classNames : list string) (s : store) :
  Forall (fun cls => cls ∈ processedClasses s) classNames ->
  let s' := (processClasses classNames s).1 in
  builds (trace s') = builds (trace s)
  /\ processedClasses s' = processedClasses s
  /\ (forall text, sheet s = Some text -> sheet s' = Some text)
  /\ (sheet s = None -> sheet s' = None \/ sheet s' = Some "")
  /\ (is_Some (compiler s) -> processClasses classNames s = (s, Return tt)).
Proof.
  intros Hall. cbn zeta.
  pose proof (processClasses_cases classNames s) as H.
  destruct (compiler s) eqn:Ec.
  - rewrite H, process_new_skip by assumption. cbn. intuition eauto.
  - cbn in H. destruct (tailwind_compile default_css) as [c | e]; rewrite H.
    + rewrite process_new_skip by assumption. cbn.
      rewrite builds_init.
      repeat split; try (intros [? ?]; discriminate).
      * intros text ->. reflexivity.
      * intros ->. now right.
    + cbn. rewrite builds_init.
      repeat split; try (intros [? ?]; discriminate); auto.
Qed.

(** ** Properties of the build queue *)

(** The [catch] handler ends well, since [I.error] returns: it leaves
    the store of the task, with the error recorded when there was one,
    and the promise of the link is fulfilled. *)
Lemma catch_returns (r : store * outcome unit) : (catch r).2 = Return tt.
Proof. now destruct r as [s [[] | e]]. Qed.

Lemma catch_store (r : store * outcome unit) :
  (catch r).1 = match r.2 with
                | Return _ => r.1
                | Throw err => record [IError err] r.1
                end.
Proof. now destruct r as [s [[] | e]]. Qed.

Lemma settle_task_eq (n : nat) (m : machine) :
  settle_task n m
  = match buildQueue m !! n with
    | Some (classNames, Finished r) =>
        Some (Machine (finish_task n (mem m, r))
                (<[n := (classNames, Settled)]> (buildQueue m)) (inits m))
    | _ => None
    end.
Proof.
  unfold settle_task. destruct (buildQueue m !! n) as [[cs []] |]; try reflexivity.
  now rewrite catch_returns.
Qed.

Lemma no_rejected_lookup (q : list (list string * status)) (n : nat)
      (cs : list string) (e : exn) :
  no_rejected q -> q !! n <> Some (cs, Rejected e).
Proof.
  intros H Hl. pose proof (Forall_lookup_1 _ _ _ _ H Hl) as Hn. now apply (Hn e).
Qed.

Lemma predecessor_not_rejected (q : list (list string * status)) (n : nat) :
  no_rejected q -> predecessor_rejected n q = None.
Proof.
  intros H. destruct n as [| k]; [reflexivity |]. cbn.
  destruct (q !! k) as [[cs []] |] eqn:E; try reflexivity.
  now apply no_rejected_lookup in E.
Qed.

Lemma no_rejected_insert (q : list (list string * status)) (n : nat)
      (cs : list string) (st : status) :
  no_rejected q -> (forall e, st <> Rejected e) -> no_rejected (<[n := (cs, st)]> q).
Proof. intros H Hst. apply Forall_insert; [exact H | exact Hst]. Qed.

Lemma no_rejected_settled (q : list (list string * status)) :
  Forall (fun t => t.2 = Settled) q -> no_rejected q.
Proof.
  intros H. eapply Forall_impl; [exact H |]. intros t Ht e. cbn in Ht. rewrite Ht.
  discriminate.
Qed.

Lemma first_unsettled_Some (q : list (list string * status)) (n : nat) (st : status) :
  first_unsettled q = Some (n, st) ->
  (exists cs, q !! n = Some (cs, st))
  /\ st <> Settled
  /\ Forall (fun t => t.2 = Settled) (take n q).
Proof.
  revert n. induction q as [| [cs0 st0] r IH]; intros n; cbn; [discriminate |].
  destruct st0;
    try (intros [= <- <-]; repeat split; [eauto | discriminate | constructor]).
  destruct (first_unsettled r) as [[k st'] |]; cbn; [| discriminate].
  intros [= <- <-]. destruct (IH k eq_refl) as (Hl & Hs & Ht).
  repeat split; [exact Hl | exact Hs |]. cbn. now constructor.
Qed.

Lemma first_unsettled_intro (q : list (list string * status)) (n : nat)
      (cs : list string) (st : status) :
  q !! n = Some (cs, st) -> st <> Settled ->
  Forall (fun t => t.2 = Settled) (take n q) ->
  first_unsettled q = Some (n, st).
Proof.
  revert n. induction q as [| [cs0 st0] r IH]; intros n Hl Hs Ht; [discriminate |].
  destruct n as [| k]; cbn in *.
  - injection Hl as -> ->. now destruct st.
  - apply Forall_cons in Ht as [Hst0 Ht]. cbn in Hst0. subst st0.
    now rewrite (IH k Hl Hs Ht).
Qed.

Lemma first_unsettled_None (q : list (list string * status)) :
  first_unsettled q = None <-> Forall (fun t => t.2 = Settled) q.
Proof.
  induction q as [| [cs0 st0] r IH]; cbn.
  - split; [constructor | reflexivity].
  - destruct st0;
      try (split; [discriminate | intros H; apply Forall_cons in H as [[=] _]]).
    rewrite Forall_cons. cbn. rewrite <- IH.
    destruct (first_unsettled r) as [[k st'] |]; cbn; intuition discriminate.
Qed.

Lemma predecessor_settled_take (q : list (list string * status)) (n : nat) :
  n <= length q ->
  Forall (fun t => t.2 = Settled) (take n q) ->
  predecessor_settled n q = true.
Proof.
  destruct n as [| k]; [reflexivity |]. intros Hn Ht. cbn.
  assert (is_Some (q !! k)) as [[cs st] Hk] by (apply lookup_lt_is_Some_2; lia).
  assert (take (S k) q !! k = Some (cs, st)) as Hk'
    by (rewrite lookup_take_lt by lia; exact Hk).
  rewrite Hk. apply (Forall_lookup_1 _ _ _ _ Ht) in Hk'. cbn in Hk'. now subst.
Qed.


Lemma queue_all_spec (tasks : list (list string)) (m : machine) :
  queue_all tasks m
  = Machine (mem m) (buildQueue m ++ map (fun cs => (cs, Pending)) tasks) (inits m).
Proof.
  unfold queue_all. revert m. induction tasks as [| cs r IH]; intros m; cbn.
  - rewrite app_nil_r. now destruct m.
  - rewrite IH. cbn. now rewrite <- app_assoc.
Qed.

Lemma run_tasks_settled (fuel : nat) (m : machine) :
  all_settled m -> run_tasks fuel m = m.
Proof.
  intros H. apply first_unsettled_None in H.
  destruct fuel; [reflexivity |]. cbn. unfold run_next. now rewrite H.
Qed.

Lemma run_tasks_S (fuel : nat) (m m' : machine) :
  run_next m = Some m' -> run_tasks (S fuel) m = run_tasks fuel m'.
Proof. intros H. cbn. now rewrite H. Qed.

(** The link after a run of settled links is the first that is not
    settled, and the link before it is settled. *)
Lemma head_link (q rest : list (list string * status)) (cs : list string) (st : status) :
  Forall (fun t => t.2 = Settled) q ->
  (q ++ (cs, st) :: rest) !! length q = Some (cs, st)
  /\ predecessor_settled (length q) (q ++ (cs, st) :: rest) = true
  /\ (st <> Settled -> first_unsettled (q ++ (cs, st) :: rest) = Some (length q, st))
  /\ (forall st', <[length q := (cs, st')]> (q ++ (cs, st) :: rest)
                  = q ++ (cs, st') :: rest).
Proof.
  intros Hq.
  assert ((q ++ (cs, st) :: rest) !! length q = Some (cs, st)) as Hl
    by apply list_lookup_middle, eq_refl.
  assert (take (length q) (q ++ (cs, st) :: rest) = q) as Ht by apply take_app_length.
  split; [exact Hl |]. split; [| split].
  - apply predecessor_settled_take; [rewrite length_app; lia | now rewrite Ht].
  - intros Hst. apply (first_unsettled_intro _ _ _ _ Hl Hst). now rewrite Ht.
  - intros st'. rewrite insert_app_r_alt, Nat.sub_diag by lia. reflexivity.
Qed.

Lemma run_next_pending (q rest : list (list string * status)) (cs : list string)
      (s : store) (i : list (option string)) :
  Forall (fun t => t.2 = Settled) q ->
  run_next (Machine s (q ++ (cs, Pending) :: rest) i)
  = Some (match compiler s with
          | Some _ =>
              let r := process_new cs (record [TaskBegin (length q)] s) in
              Machine r.1 (q ++ (cs, Finished r.2) :: rest) i
          | None =>
              Machine (initializeCompiler_call None (record [TaskBegin (length q)] s))
                (q ++ (cs, Initializing) :: rest) i
          end).
Proof.
  intros Hq. destruct (head_link q rest cs Pending Hq) as (Hl & Hp & Hf & Hi).
  unfold run_next. cbn [buildQueue]. rewrite Hf by discriminate.
  unfold begin_task. cbn [buildQueue mem inits]. rewrite Hl, Hp, !Hi.
  change (compiler (record [TaskBegin (length q)] s)) with (compiler s).
  now destruct (compiler s).
Qed.

Lemma run_next_initializing (q rest : list (list string * status)) (cs : list string)
      (s : store) (i : list (option string)) :
  Forall (fun t => t.2 = Settled) q ->
  run_next (Machine s (q ++ (cs, Initializing) :: rest) i)
  = Some (let r := initializeCompiler_settle None s in
          Machine r.1
            (q ++ (cs, match r.2 with
                       | Return _ => Initialized
                       | Throw e => Finished (Throw e)
                       end) :: rest) i).
Proof.
  intros Hq. destruct (head_link q rest cs Initializing Hq) as (Hl & Hp & Hf & Hi).
  unfold run_next. cbn [buildQueue]. rewrite Hf by discriminate.
  unfold initialize_task. cbn [buildQueue mem inits]. now rewrite Hl, !Hi.
Qed.

Lemma run_next_initialized (q rest : list (list string * status)) (cs : list string)
      (s : store) (i : list (option string)) :
  Forall (fun t => t.2 = Settled) q ->
  run_next (Machine s (q ++ (cs, Initialized) :: rest) i)
  = Some (let r := process_new cs s in
          Machine r.1 (q ++ (cs, Finished r.2) :: rest) i).
Proof.
  intros Hq. destruct (head_link q rest cs Initialized Hq) as (Hl & Hp & Hf & Hi).
  unfold run_next. cbn [buildQueue]. rewrite Hf by discriminate.
  unfold continue_task. cbn [buildQueue mem inits]. now rewrite Hl, !Hi.
Qed.

Lemma run_next_finished (q rest : list (list string * status)) (cs : list string)
      (r : outcome unit) (s : store) (i : list (option string)) :
  Forall (fun t => t.2 = Settled) q ->
  run_next (Machine s (q ++ (cs, Finished r) :: rest) i)
  = Some (Machine (finish_task (length q) (s, r)) (q ++ (cs, Settled) :: rest) i).
Proof.
  intros Hq. destruct (head_link q rest cs (Finished r) Hq) as (Hl & Hp & Hf & Hi).
  unfold run_next. cbn [buildQueue]. rewrite Hf by discriminate.
  rewrite settle_task_eq. cbn [buildQueue mem inits]. now rewrite Hl, !Hi.
Qed.

(** The first task that has not begun runs from its begin to its end in
    at most four moves of the queue, and leaves what [processClasses]
    leaves when nothing runs during its [await]. *)
Lemma run_head (q rest : list (list string * status)) (cs : list string)
      (s : store) (i : list (option string)) :
  Forall (fun t => t.2 = Settled) q ->
  exists k, k <= 4 /\ forall fuel,
    run_tasks (k + fuel) (Machine s (q ++ (cs, Pending) :: rest) i)
    = run_tasks fuel (Machine (task_alone (length q) cs s) (q ++ (cs, Settled) :: rest) i).
Proof.
  intros Hq. unfold task_alone, processClasses.
  change (compiler (record [TaskBegin (length q)] s)) with (compiler s).
  destruct (compiler s) as [c |] eqn:Ec.
  - exists 2. split; [lia |]. intros fuel. cbn [Nat.add].
    rewrite (run_tasks_S _ _ _ (run_next_pending q rest cs s i Hq)), Ec. cbn zeta.
    rewrite (run_tasks_S _ _ _ (run_next_finished q rest cs _ _ i Hq)).
    now destruct (process_new cs _).
  - unfold initializeCompiler.
    destruct (initializeCompiler_settle None
                (initializeCompiler_call None (record [TaskBegin (length q)] s)))
      as [s1 [[] | e]] eqn:Es.
    + exists 4. split; [lia |]. intros fuel. cbn [Nat.add].
      rewrite (run_tasks_S _ _ _ (run_next_pending q rest cs s i Hq)), Ec.
      rewrite (run_tasks_S _ _ _ (run_next_initializing q rest cs _ i Hq)), Es.
      cbn [fst snd].
      rewrite (run_tasks_S _ _ _ (run_next_initialized q rest cs _ i Hq)). cbn zeta.
      rewrite (run_tasks_S _ _ _ (run_next_finished q rest cs _ _ i Hq)).
      now destruct (process_new cs s1).
    + exists 3. split; [lia |]. intros fuel. cbn [Nat.add].
      rewrite (run_tasks_S _ _ _ (run_next_pending q rest cs s i Hq)), Ec.
      rewrite (run_tasks_S _ _ _ (run_next_initializing q rest cs _ i Hq)), Es.
      cbn [fst snd].
      now rewrite (run_tasks_S _ _ _ (run_next_finished q rest cs _ _ i Hq)).
Qed.

(** The queue run alone: the tasks run in the order they were queued,
    each from its begin to its end before the next begins. *)
Lemma run_tasks_in_order (tasks : list (list string)) :
  forall (q : list (list string * status)) (s : store) (i : list (option string))
         (fuel : nat),
    Forall (fun t => t.2 = Settled) q ->
    4 * length tasks <= fuel ->
    run_tasks fuel (Machine s (q ++ map (fun cs => (cs, Pending)) tasks) i)
    = Machine (run_in_order (length q) tasks s)
        (q ++ map (fun cs => (cs, Settled)) tasks) i.
Proof.
  induction tasks as [| cs r IH]; intros q s i fuel Hq Hfuel.
  - cbn. rewrite app_nil_r. apply run_tasks_settled. exact Hq.
  - cbn [length] in Hfuel. cbn [map run_in_order].
    destruct (run_head q (map (fun cs => (cs, Pending)) r) cs s i Hq) as (k & Hk & Hrun).
    replace fuel with (k + (fuel - k)) by lia. rewrite Hrun.
    assert (Forall (fun t => t.2 = Settled) (q ++ [(cs, Settled)])) as Hq'
      by (apply Forall_app; split; [exact Hq | now repeat constructor]).
    assert (length (q ++ [(cs, Settled)]) = S (length q)) as Hlen
      by (rewrite length_app; cbn; lia).
    rewrite (cons_middle _ q), app_assoc.
    rewrite IH by (assumption || lia).
    now rewrite Hlen, <- app_assoc.
Qed.

(** A task that is alone at the end of a settled queue. *)
Lemma run_single (classNames : list string) (m : machine) :
  all_settled m ->
  run_tasks 4 (queueClassProcessing classNames m)
  = Machine (task_alone (length (buildQueue m)) classNames (mem m))
      (buildQueue m ++ [(classNames, Settled)]) (inits m).
Proof.
  intros Hall. unfold queueClassProcessing.
  apply (run_tasks_in_order [classNames]); [exact Hall | cbn; lia].
Qed.

(** The end of a link adds to the trace only: an [I.error] event when
    the task threw, and the end mark. *)
Lemma finish_task_frame (n : nat) (r : store * outcome unit) :
  compiler (finish_task n r) = compiler r.1
  /\ processedClasses (finish_task n r) = processedClasses r.1
  /\ sheet (finish_task n r) = sheet r.1
  /\ builds (trace (finish_task n r)) = builds (trace r.1)
  /\ compiles (trace (finish_task n r)) = compiles (trace r.1).
Proof.
  destruct r as [s [[] | e]]; cbn; rewrite ?builds_app, ?compiles_app; cbn;
    now rewrite ?app_nil_r.
Qed.

(** When a task leaves no compiler installed, none was installed before
    it and compiling the default CSS throws. *)
Lemma processClasses_no_compiler (classNames : list string) (s : store) :
  compiler (processClasses classNames s).1 = None ->
  compiler s = None /\ exists e, tailwind_compile default_css = Throw e.
Proof.
  pose proof (processClasses_cases classNames s) as H.
  pose proof (process_new_compiler classNames) as Hc.
  destruct (compiler s) eqn:Ec.
  - rewrite H. intros Hn. destruct (proj1 (Hc s)) as [c' Hc']; [rewrite Ec; eauto |].
    congruence.
  - cbn in H. destruct (tailwind_compile default_css) as [c | e]; [| eauto].
    rewrite H. intros Hn.
    destruct (proj1 (Hc (Store (Some c) (processedClasses s)
                           (Some (default "" (sheet s)))
                           (trace s ++ init_events default_css)))) as [c' Hc'];
      [cbn; eauto | congruence].
Qed.

(** The same task run twice in a row: the second run calls [build] not
    at all and leaves registry and style element as the first run left
    them. *)
Lemma second_run_frame (classNames : list string) (s s1 : store) :
  compiler s1 = compiler (processClasses classNames s).1 ->
  processedClasses s1 = processedClasses (processClasses classNames s).1 ->
  sheet s1 = sheet (processClasses classNames s).1 ->
  let s2 := (processClasses classNames s1).1 in
  builds (trace s2) = builds (trace s1)
  /\ processedClasses s2 = processedClasses s1
  /\ sheet s2 = sheet s1.
Proof.
  intros Hc Hr Hs. cbn zeta.
  destruct (compiler (processClasses classNames s).1) as [c |] eqn:Ec.
  - assert (Forall (fun cls => cls ∈ processedClasses s1) classNames) as Hall.
    { rewrite Hr. apply processClasses_registered. rewrite Ec. eauto. }
    destruct (skip_frame classNames s1 Hall) as (_ & _ & _ & _ & Hskip).
    rewrite Hskip by (rewrite Hc; eauto). now cbn.
  - apply processClasses_no_compiler in Ec as [_ [e He]].
    pose proof (processClasses_cases classNames s1) as H.
    rewrite Hc in H. cbn in H. rewrite He in H. rewrite H. cbn.
    now rewrite builds_init.
Qed.

(** ** Every move of the event loop, by what it does to the store *)

(** The case of [begin_task] in which the link before is rejected: the
    move changes the queue only. *)
Ltac rejected_predecessor tac :=
  destruct (predecessor_rejected _ _) as [? |];
  [intros [= <-]; cbn [mem buildQueue inits]; tac | discriminate].

Lemma perform_mem (a : action) (m m' : machine) :
  perform a m = Some m' ->
  mem m' = mem m
  \/ (exists css, mem m' = initializeCompiler_call css (mem m))
  \/ (exists css, mem m' = (initializeCompiler_settle css (mem m)).1)
  \/ (exists n, mem m' = initializeCompiler_call None (record [TaskBegin n] (mem m)))
  \/ (exists n cs,
        mem m' = (process_new cs (record [TaskBegin n] (mem m))).1
        /\ is_Some (compiler (mem m)))
  \/ (exists n cs,
        mem m' = (process_new cs (mem m)).1
        /\ buildQueue m !! n = Some (cs, Initialized))
  \/ (exists n cs r,
        mem m' = finish_task n (mem m, r)
        /\ buildQueue m !! n = Some (cs, Finished r)).
Proof.
  destruct a as [inputs | css | i | n | n | n | n]; cbn.
  - intros [= <-]. now left.
  - intros [= <-]. right; left. now exists css.
  - unfold settle_initializeCompiler. destruct (inits m !! i) as [css |]; [| discriminate].
    intros [= <-]. right; right; left. now exists css.
  - unfold begin_task. destruct (buildQueue m !! n) as [[cs []] |]; try discriminate.
    destruct (predecessor_settled n (buildQueue m));
      [| rejected_predecessor ltac:(now left)].
    change (compiler (record [TaskBegin n] (mem m))) with (compiler (mem m)).
    destruct (compiler (mem m)) eqn:Ec; intros [= <-]; cbn [mem].
    + do 4 right; left. exists n, cs. split; [reflexivity | eauto].
    + do 3 right; left. now exists n.
  - unfold initialize_task. destruct (buildQueue m !! n) as [[cs []] |]; try discriminate.
    intros [= <-]; cbn [mem]. right; right; left. now exists None.
  - unfold continue_task.
    destruct (buildQueue m !! n) as [[cs []] |] eqn:El; try discriminate.
    intros [= <-]; cbn [mem]. do 5 right; left. now exists n, cs.
  - rewrite settle_task_eq.
    destruct (buildQueue m !! n) as [[cs []] |] eqn:El; try discriminate.
    intros [= <-]; cbn [mem]. do 6 right. now exists n, cs, r.
Qed.

(** No move of the event loop leaves a rejected promise in the chain:
    the [catch] handler of every link ends well. *)
Lemma perform_no_rejected (a : action) (m m' : machine) :
  no_rejected (buildQueue m) -> perform a m = Some m' -> no_rejected (buildQueue m').
Proof.
  intros Hnr.
  destruct a as [inputs | css | i | n | n | n | n]; cbn [perform].
  - intros [= <-]. cbn [tw snd queueClassProcessing buildQueue].
    apply Forall_app. split; [exact Hnr |]. constructor; [| constructor].
    intros e. discriminate.
  - now intros [= <-].
  - unfold settle_initializeCompiler. destruct (inits m !! i); [| discriminate].
    now intros [= <-].
  - unfold begin_task. destruct (buildQueue m !! n) as [[cs []] |]; try discriminate.
    destruct (predecessor_settled n (buildQueue m));
      [| rejected_predecessor ltac:(apply no_rejected_insert; [exact Hnr | discriminate])].
    destruct (compiler _); intros [= <-]; cbn [buildQueue];
      (apply no_rejected_insert; [exact Hnr | discriminate]).
  - unfold initialize_task. destruct (buildQueue m !! n) as [[cs []] |]; try discriminate.
    intros [= <-]; cbn [buildQueue]. apply no_rejected_insert; [exact Hnr |].
    intros e. now destruct (initializeCompiler_settle None (mem m)).2.
  - unfold continue_task. destruct (buildQueue m !! n) as [[cs []] |]; try discriminate.
    intros [= <-]; cbn [buildQueue]. apply no_rejected_insert; [exact Hnr | discriminate].
  - rewrite settle_task_eq. destruct (buildQueue m !! n) as [[cs []] |]; try discriminate.
    intros [= <-]; cbn [buildQueue]. apply no_rejected_insert; [exact Hnr | discriminate].
Qed.

Lemma reachable_no_rejected (m : machine) : reachable m -> no_rejected (buildQueue m).
Proof.
  intros H.
  apply (rtc_ind_r (R := step) (fun m => no_rejected (buildQueue m)) initial);
    [constructor | | exact H].
  intros m1 m2 _ [a Ha] IH. eapply perform_no_rejected; eassumption.
Qed.

(** The two halves of [initializeCompiler] leave the registry alone and
    call [build] not at all. *)
Lemma initializeCompiler_call_frame (css : option string) (s : store) :
  let s' := initializeCompiler_call css s in
  compiler s' = compiler s /\ processedClasses s' = processedClasses s
  /\ sheet s' = sheet s /\ builds (trace s') = builds (trace s).
Proof. cbn. rewrite builds_app. cbn. now rewrite app_nil_r. Qed.

Lemma initializeCompiler_settle_frame (css : option string) (s : store) :
  let s' := (initializeCompiler_settle css s).1 in
  processedClasses s' = processedClasses s /\ builds (trace s') = builds (trace s).
Proof.
  cbn zeta. pose proof (initializeCompiler_settle_cases css s) as H. cbn zeta in H.
  destruct (tailwind_compile _) as [c | e]; rewrite H; cbn [fst processedClasses trace];
    now rewrite (proj1 (settle_events_projections _ _)).
Qed.

(** What [process_new] passes to [build], when it calls it. *)
Lemma process_new_build_cases (classNames : list string) (s : store) :
  let s' := (process_new classNames s).1 in
  builds (trace s') = builds (trace s)
  \/ builds (trace s') = builds (trace s) ++ [processedClasses s'].
Proof.
  cbn zeta. rewrite process_new_builds.
  destruct (bool_decide _); [left; apply app_nil_r |].
  destruct (compiler s); [now right | left; apply app_nil_r].
Qed.

Lemma process_new_members (classNames : list string) (s : store) :
  JsSet.members (processedClasses (process_new classNames s).1)
  = JsSet.members (processedClasses s) ∪ list_to_set classNames.
Proof. rewrite process_new_registry. apply members_merge. Qed.

Lemma process_new_prefix (classNames : list string) (s : store) :
  processedClasses s `prefix_of` processedClasses (process_new classNames s).1.
Proof. rewrite process_new_registry. apply fold_add_prefix. Qed.

(** What a whole task passes to [build]. *)
Lemma processClasses_build (classNames : list string) (s : store) :
  let s' := (processClasses classNames s).1 in
  (builds (trace s') = builds (trace s)
   \/ builds (trace s') = builds (trace s) ++ [processedClasses s'])
  /\ (is_Some (compiler s') ->
      JsSet.members (processedClasses s')
      = JsSet.members (processedClasses s) ∪ list_to_set classNames)
  /\ (is_Some (compiler s') ->
      new_names classNames (processedClasses s) <> [] ->
      builds (trace s') = builds (trace s) ++ [processedClasses s']).
Proof.
  cbn zeta. pose proof (processClasses_cases classNames s) as H.
  destruct (compiler s) as [c0 |] eqn:Ec.
  - rewrite H. split; [apply process_new_build_cases |].
    split; [intros _; apply process_new_members |].
    intros _ Hnew. rewrite process_new_builds, Ec.
    now rewrite bool_decide_eq_false_2.
  - cbn in H. destruct (tailwind_compile default_css) as [c | e]; rewrite H.
    + set (s1 := Store _ _ _ _).
      assert (builds (trace s1) = builds (trace s)) as Hb.
      { cbn. now rewrite builds_init. }
      rewrite <- Hb. split; [apply process_new_build_cases |].
      split; [intros _; apply (process_new_members classNames s1) |].
      intros _ Hnew. rewrite process_new_builds.
      change (processedClasses s1) with (processedClasses s).
      now rewrite bool_decide_eq_false_2.
    + cbn. rewrite builds_init.
      split; [now left |]. split; intros [? ?]; discriminate.
Qed.

(** ** The entry point *)

Lemma split_ws_tokens (s : string) :
  List.filter JsString.truthy (JsString.split_ws_from true s) = tokens s
  /\ List.filter JsString.truthy (JsString.split_ws_from false s) = tokens s.
Proof.
  induction s as [| c r [IHt IHf]]; [now split |].
  cbn [JsString.split_ws_from tokens].
  destruct (JsString.is_whitespace c) eqn:Ec; [now split |].
  assert (List.filter JsString.truthy
            match JsString.split_ws_from false r with
            | p :: ps => String c p :: ps
            | [] => [String c EmptyString]
            end
          = match r with
            | EmptyString => [String c EmptyString]
            | String c' _ =>
                if JsString.is_whitespace c' then String c EmptyString :: tokens r
                else match tokens r with
                     | w :: ws => String c w :: ws
                     | [] => [String c EmptyString]
                     end
            end) as H.
  { destruct r as [| c' r']; [reflexivity |].
    rewrite <- IHf. cbn [JsString.split_ws_from].
    destruct (JsString.is_whitespace c') eqn:Ec'; [reflexivity |].
    now destruct (JsString.split_ws_from false r'). }
  now split.
Qed.

Lemma tokens_trimStart (s : string) : tokens (JsString.trimStart s) = tokens s.
Proof.
  induction s as [| c r IH]; [reflexivity |]. cbn [JsString.trimStart].
  destruct (JsString.is_whitespace c) eqn:Ec; [| reflexivity].
  cbn [tokens]. now rewrite Ec.
Qed.

Lemma tokens_trimEnd (s : string) : tokens (JsString.trimEnd s) = tokens s.
Proof.
  induction s as [| c r IH]; [reflexivity |].
  cbn [JsString.trimEnd]. cbv zeta.
  destruct (JsString.is_whitespace c) eqn:Ec; cbn [andb].
  - destruct (JsString.trimEnd r) as [| c1 r1] eqn:Er; cbn [JsString.is_empty].
    + cbn [tokens]. now rewrite Ec, <- IH.
    + cbn [tokens] in *. now rewrite Ec, IH.
  - destruct r as [| c' r']; [reflexivity |].
    cbn [JsString.trimEnd] in *. cbv zeta in *.
    destruct (JsString.is_whitespace c') eqn:Ec'; cbn [andb] in *.
    + destruct (JsString.trimEnd r') as [| c1 r1] eqn:Er; cbn [JsString.is_empty] in *.
      * cbn [tokens] in *. rewrite Ec, Ec' in *. now rewrite <- IH.
      * cbn [tokens] in *. rewrite Ec, Ec' in *. now rewrite IH.
    + change (tokens (String c (String c' (JsString.trimEnd r'))))
        with (if JsString.is_whitespace c then tokens (String c' (JsString.trimEnd r'))
              else if JsString.is_whitespace c'
                   then String c EmptyString :: tokens (String c' (JsString.trimEnd r'))
                   else match tokens (String c' (JsString.trimEnd r')) with
                        | w :: ws => String c w :: ws
                        | [] => [String c EmptyString]
                        end).
      change (tokens (String c (String c' r')))
        with (if JsString.is_whitespace c then tokens (String c' r')
              else if JsString.is_whitespace c'
                   then String c EmptyString :: tokens (String c' r')
                   else match tokens (String c' r') with
                        | w :: ws => String c w :: ws
                        | [] => [String c EmptyString]
                        end).
      now rewrite IH.
Qed.

(** [parseClassString] yields the tokens of its input. *)
Lemma parseClassString_tokens (s : string) : parseClassString s = tokens s.
Proof.
  unfold parseClassString, JsString.split_ws, JsString.trim.
  rewrite (proj2 (split_ws_tokens _)), tokens_trimEnd. apply tokens_trimStart.
Qed.

Lemma tw_entries_spec (entries : list (string * bool)) (acc : tw_acc) :
  fold_left tw_entry entries acc
  = TwAcc (resultClasses acc ++ active_tokens (InObject entries))
          (allClassesToProcess acc ++ candidate_tokens (InObject entries)).
Proof.
  revert acc. induction entries as [| [k v] r IH]; intros [res all]; cbn.
  - now rewrite !app_nil_r.
  - rewrite IH. destruct v; cbn; now rewrite <- ?app_assoc.
Qed.

Lemma tw_input_spec (i : input) (acc : tw_acc) :
  tw_input acc i
  = TwAcc (resultClasses acc ++ active_tokens i)
          (allClassesToProcess acc ++ candidate_tokens i).
Proof.
  destruct acc as [res all].
  destruct i as [s | b | | | entries]; unfold tw_input; cbn [input_truthy negb].
  - destruct s; cbn; now rewrite ?app_nil_r.
  - destruct b; cbn; now rewrite ?app_nil_r.
  - cbn. now rewrite !app_nil_r.
  - cbn. now rewrite !app_nil_r.
  - apply tw_entries_spec.
Qed.

Lemma tw_collect_spec (inputs : list input) (acc : tw_acc) :
  fold_left tw_input inputs acc
  = TwAcc (resultClasses acc ++ flat_map active_tokens inputs)
          (allClassesToProcess acc ++ flat_map candidate_tokens inputs).
Proof.
  revert acc. induction inputs as [| i r IH]; intros acc; cbn.
  - destruct acc. now rewrite !app_nil_r.
  - rewrite IH, tw_input_spec. cbn. now rewrite <- !app_assoc.
Qed.

(** ** The registry along a run *)

Lemma processClasses_prefix (classNames : list string) (s : store) :
  processedClasses s `prefix_of` processedClasses (processClasses classNames s).1.
Proof.
  pose proof (processClasses_cases classNames s) as H.
  destruct (compiler s).
  - rewrite H. apply process_new_prefix.
  - cbn in H. destruct (tailwind_compile default_css) as [c | e]; rewrite H.
    + apply (process_new_prefix classNames (Store _ _ _ _)).
    + reflexivity.
Qed.

Lemma perform_prefix (a : action) (m m' : machine) :
  perform a m = Some m' ->
  processedClasses (mem m) `prefix_of` processedClasses (mem m').
Proof.
  intros Hstep.
  destruct (perform_mem a m m' Hstep)
    as [-> | [[css ->] | [[css ->] | [[n ->] | [(n & cs & -> & _) | [(n & cs & -> & _) | (n & cs & r & -> & _)]]]]]].
  - reflexivity.
  - reflexivity.
  - pose proof (initializeCompiler_settle_frame css (mem m)) as [H _]. now rewrite H.
  - reflexivity.
  - apply (process_new_prefix cs (record [TaskBegin n] (mem m))).
  - apply process_new_prefix.
  - now destruct (finish_task_frame n (mem m, r)) as (_ & -> & _).
Qed.

Lemma run_prefix (m m' : machine) :
  rtc step m m' ->
  processedClasses (mem m) `prefix_of` processedClasses (mem m').
Proof.
  induction 1 as [| m m1 m2 [a Ha] _ IH]; [reflexivity |].
  etransitivity; [eapply perform_prefix, Ha | exact IH].
Qed.

Lemma prefix_members (r r' : list string) :
  r `prefix_of` r' -> JsSet.members r ⊆ JsSet.members r'.
Proof.
  intros [k ->]. unfold JsSet.members. rewrite list_to_set_app_L. set_solver.
Qed.

(** ** Serial execution of the build queue *)

Lemma pending_serial (q : list (list string * status)) :
  forallb is_pending q = true -> serial_queue q = true.
Proof.
  destruct q as [| [cs []] r]; cbn; try reflexivity; try discriminate.
  now intros ->.
Qed.

Lemma forallb_pending (q : list (list string * status)) :
  forallb is_pending q = true <-> Forall (fun t => t.2 = Pending) q.
Proof.
  rewrite forallb_forall, Forall_forall. unfold is_pending.
  split; intros H t Ht.
  - apply list_elem_of_In, H in Ht. now destruct (t.2).
  - apply list_elem_of_In, H in Ht. now rewrite Ht.
Qed.

Lemma serial_snoc (q : list (list string * status)) (cs : list string) :
  serial_queue q = true -> serial_queue (q ++ [(cs, Pending)]) = true.
Proof.
  induction q as [| [cs0 st0] r IH]; [reflexivity |]. cbn.
  destruct st0; try assumption; rewrite forallb_app; cbn; now intros ->.
Qed.

Lemma serial_begin (q : list (list string * status)) (n : nat) (cs : list string) :
  serial_queue q = true ->
  q !! n = Some (cs, Pending) ->
  predecessor_settled n q = true ->
  Forall (fun t => t.2 = Settled) (take n q)
  /\ Forall (fun t => t.2 = Pending) (drop (S n) q).
Proof.
  revert n. induction q as [| [cs0 st0] r IH]; intros n Hs Hl Hp; [discriminate |].
  destruct n as [| k].
  - injection Hl as -> ->. cbn in *. split; [constructor | now apply forallb_pending].
  - cbn in Hl.
    destruct st0;
      try (exfalso; cbn in Hs; apply forallb_pending in Hs; cbn in Hp;
           destruct k as [| j]; cbn in Hp; [discriminate |];
           destruct (r !! j) as [[cs1 st1] |] eqn:Ej; [| discriminate];
           apply (Forall_lookup_1 _ _ _ _ Hs) in Ej; cbn in Ej; subst; discriminate).
    cbn in Hs. destruct (IH k Hs Hl) as [Ht Hd].
    { destruct k as [| j]; [reflexivity |]. exact Hp. }
    split; [| exact Hd]. cbn. now constructor.
Qed.

Lemma serial_in_progress (q : list (list string * status)) (n : nat)
      (cs : list string) (st : status) :
  serial_queue q = true ->
  q !! n = Some (cs, st) ->
  st <> Pending -> st <> Settled ->
  Forall (fun t => t.2 = Settled) (take n q)
  /\ Forall (fun t => t.2 = Pending) (drop (S n) q).
Proof.
  revert n. induction q as [| [cs0 st0] r IH]; intros n Hs Hl Hp Hns; [discriminate |].
  destruct n as [| k].
  - injection Hl as -> ->. split; [constructor |]. apply forallb_pending.
    cbn in Hs. now destruct st.
  - cbn in Hl.
    destruct st0;
      try (exfalso; cbn in Hs; apply forallb_pending in Hs;
           apply (Forall_lookup_1 _ _ _ _ Hs) in Hl; cbn in Hl; congruence).
    cbn in Hs. destruct (IH k Hs Hl Hp Hns) as [Ht Hd].
    split; [| exact Hd]. cbn. now constructor.
Qed.

Lemma serial_insert (q : list (list string * status)) (n : nat)
      (t : list string * status) :
  Forall (fun t => t.2 = Settled) (take n q) ->
  Forall (fun t => t.2 = Pending) (drop (S n) q) ->
  serial_queue (<[n := t]> q) = true.
Proof.
  revert n. induction q as [| [cs0 st0] r IH]; intros n Ht Hd; [reflexivity |].
  destruct n as [| k]; cbn in *.
  - apply forallb_pending in Hd. destruct t as [cs []]; try assumption.
    now apply pending_serial.
  - apply Forall_cons in Ht as [Hst0 Ht]. cbn in Hst0. subst st0. now apply IH.
Qed.

Lemma progress_snoc (q : list (list string * status)) (cs : list string) :
  progress (q ++ [(cs, Pending)]) = progress q.
Proof.
  unfold progress. destruct (first_unsettled q) as [[n st] |] eqn:E.
  - apply first_unsettled_Some in E as ([cs0 Hl] & Hs & Ht).
    erewrite first_unsettled_intro; [reflexivity | | exact Hs |].
    + apply lookup_app_l_Some, Hl.
    + rewrite take_app_le; [exact Ht |]. apply lookup_lt_Some in Hl. lia.
  - apply first_unsettled_None in E.
    erewrite (first_unsettled_intro _ (length q) cs Pending); [reflexivity | | discriminate |].
    + rewrite lookup_app_r by lia. now rewrite Nat.sub_diag.
    + now rewrite take_app_length.
Qed.

Lemma progress_at (q : list (list string * status)) (n : nat)
      (cs : list string) (st : status) :
  q !! n = Some (cs, st) -> st <> Settled ->
  Forall (fun t => t.2 = Settled) (take n q) ->
  progress q = (n, match st with Pending => false | _ => true end).
Proof.
  intros Hl Hst Ht. unfold progress.
  rewrite (first_unsettled_intro _ _ _ _ Hl Hst Ht). now destruct st.
Qed.

Lemma progress_insert (q : list (list string * status)) (n : nat)
      (cs : list string) (st : status) :
  n < length q -> st <> Settled ->
  Forall (fun t => t.2 = Settled) (take n q) ->
  progress (<[n := (cs, st)]> q) = (n, match st with Pending => false | _ => true end).
Proof.
  intros Hn Hst Ht. apply (progress_at _ _ cs); [| exact Hst |].
  - now apply list_lookup_insert_eq.
  - rewrite take_insert_ge by lia. exact Ht.
Qed.

Lemma progress_settled (q : list (list string * status)) (n : nat) (cs : list string) :
  n < length q ->
  Forall (fun t => t.2 = Settled) (take n q) ->
  Forall (fun t => t.2 = Pending) (drop (S n) q) ->
  progress (<[n := (cs, Settled)]> q) = (S n, false).
Proof.
  intros Hn Ht Hd. unfold progress.
  set (q' := <[n := (cs, Settled)]> q).
  assert (Forall (fun t => t.2 = Settled) (take (S n) q')) as Ht'.
  { rewrite (take_S_r q' n (cs, Settled)) by now apply list_lookup_insert_eq.
    unfold q'. rewrite take_insert_ge by lia.
    apply Forall_app. split; [exact Ht | now repeat constructor]. }
  destruct (q' !! S n) as [[cs1 st1] |] eqn:E.
  - assert (st1 = Pending) as ->.
    { unfold q' in E. rewrite list_lookup_insert_ne in E by lia.
      assert (drop (S n) q !! 0 = Some (cs1, st1)) as E0
        by (rewrite lookup_drop, Nat.add_0_r; exact E).
      now apply (Forall_lookup_1 _ _ _ _ Hd) in E0. }
    erewrite (first_unsettled_intro _ (S n) cs1 Pending); [reflexivity | exact E | discriminate | exact Ht'].
  - apply lookup_ge_None in E.
    assert (length q' = S n) as Hlen.
    { unfold q' in *. rewrite length_insert in *. lia. }
    rewrite take_ge in Ht' by lia.
    apply first_unsettled_None in Ht'. now rewrite Ht', Hlen.
Qed.

Lemma scan_app (tr es : list event) :
  scan (tr ++ es) = fold_left scan_step es (scan tr).
Proof. apply fold_left_app. Qed.

Lemma scan_quiet (es : list event) (st : option (nat * bool)) :
  forallb quiet_event es = true -> fold_left scan_step es st = st.
Proof.
  revert st. induction es as [| e r IH]; intros st H; [reflexivity |].
  cbn in H. apply andb_true_iff in H as [He Hr]. cbn. rewrite IH by assumption.
  now destruct st as [[n o] |], e.
Qed.

Lemma scan_inner (es : list event) (n : nat) :
  forallb inner_event es = true ->
  fold_left scan_step es (Some (n, true)) = Some (n, true).
Proof.
  induction es as [| e r IH]; intros H; [reflexivity |].
  cbn in H. apply andb_true_iff in H as [He Hr]. cbn [fold_left].
  replace (scan_step (Some (n, true)) e) with (Some (n, true)) by now destruct e.
  now apply IH.
Qed.

(** What [process_new] adds to the trace. *)
Lemma process_new_trace (classNames : list string) (s : store) :
  exists es, trace (process_new classNames s).1 = trace s ++ es
             /\ forallb inner_event es = true.
Proof.
  unfold process_new.
  destruct (new_names classNames (processedClasses s)) as [| x l] eqn:E.
  { exists []. cbn. now rewrite app_nil_r. }
  cbn [length Nat.eqb]. cbn -[fold_left].
  destruct (compiler s) as [c |].
  2:{ now exists [IStart "Process new classes"]. }
  destruct (engine_build c _) as [c' [css | e]]; cbn -[fold_left].
  - destruct (sheet s); cbn -[fold_left]; rewrite <- ?app_assoc; eexists; split;
      reflexivity.
  - rewrite <- ?app_assoc; eexists; split; reflexivity.
Qed.

Lemma initializeCompiler_settle_trace (css : option string) (s : store) :
  trace (initializeCompiler_settle css s).1
  = trace s ++ compile_hits (default default_css css)
            ++ [IEnd "Compile CSS"; IEnd "Initialize compiler"].
Proof.
  pose proof (initializeCompiler_settle_cases css s) as H. cbn zeta in H.
  destruct (tailwind_compile _); now rewrite H.
Qed.

Lemma settle_events_quiet (css : string) :
  forallb quiet_event (compile_hits css ++ [IEnd "Compile CSS"; IEnd "Initialize compiler"])
  = true.
Proof. rewrite forallb_app, compile_hits_quiet. reflexivity. Qed.

Lemma finish_task_scan (n : nat) (r : store * outcome unit) (tr0 es : list event) :
  trace r.1 = tr0 ++ es ->
  forallb inner_event es = true ->
  scan tr0 = Some (n, true) ->
  scan (trace (finish_task n r)) = Some (S n, false).
Proof.
  intros Htr Hes Hscan.
  destruct r as [s [[] | e]]; unfold finish_task, catch, I_error, record; cbn [trace fst] in *.
  - rewrite Htr, !scan_app, Hscan, scan_inner by assumption. cbn.
    now rewrite Nat.eqb_refl.
  - rewrite Htr, !scan_app, Hscan, scan_inner by assumption. cbn.
    now rewrite Nat.eqb_refl.
Qed.

Lemma serialized_initial : serialized initial.
Proof. now split. Qed.

(** A link in progress in a serialized state: the links before it are
    settled, those after it have not begun, and the trace is inside its
    task. *)
Lemma serialized_in_progress (m : machine) (n : nat) (cs : list string) (st : status) :
  serialized m ->
  buildQueue m !! n = Some (cs, st) -> st <> Pending -> st <> Settled ->
  n < length (buildQueue m)
  /\ Forall (fun t => t.2 = Settled) (take n (buildQueue m))
  /\ Forall (fun t => t.2 = Pending) (drop (S n) (buildQueue m))
  /\ scan (trace (mem m)) = Some (n, true).
Proof.
  intros [Hq Hscan] El Hp Hs.
  destruct (serial_in_progress _ _ _ _ Hq El Hp Hs) as [Ht Hd].
  split; [eapply lookup_lt_Some, El |]. split; [exact Ht |]. split; [exact Hd |].
  rewrite Hscan, (progress_at _ _ _ _ El Hs Ht). now destruct st.
Qed.

Lemma serialized_perform (a : action) (m m' : machine) :
  no_rejected (buildQueue m) -> serialized m -> perform a m = Some m' -> serialized m'.
Proof.
  intros Hnr Hm. pose proof Hm as [Hq Hscan]. unfold serialized.
  destruct a as [inputs | css | i | n | n | n | n]; cbn [perform].
  - intros [= <-]. unfold tw, queueClassProcessing. cbn [snd mem buildQueue].
    split; [now apply serial_snoc |]. now rewrite progress_snoc.
  - intros [= <-]. unfold call_initializeCompiler, initializeCompiler_call, record.
    cbn [mem buildQueue trace]. split; [assumption |].
    now rewrite scan_app, scan_quiet.
  - unfold settle_initializeCompiler. destruct (inits m !! i) as [css |]; [| discriminate].
    intros [= <-]. cbn [mem buildQueue]. split; [assumption |].
    now rewrite initializeCompiler_settle_trace, scan_app,
      (scan_quiet _ _ (settle_events_quiet _)).
  - unfold begin_task.
    destruct (buildQueue m !! n) as [[cs []] |] eqn:El; try discriminate.
    destruct (predecessor_settled n (buildQueue m)) eqn:Ep;
      [| now rewrite predecessor_not_rejected].
    destruct (serial_begin _ _ _ Hq El Ep) as [Ht Hd].
    assert (n < length (buildQueue m)) as Hn by (eapply lookup_lt_Some, El).
    assert (scan (trace (record [TaskBegin n] (mem m))) = Some (n, true)) as Hopen.
    { rewrite (progress_at _ _ _ _ El) in Hscan by (discriminate || assumption).
      unfold record. cbn [trace]. rewrite scan_app, Hscan. cbn.
      now rewrite Nat.eqb_refl. }
    destruct (compiler _); intros [= <-]; cbn [mem buildQueue].
    + split; [now apply serial_insert |].
      rewrite progress_insert by (discriminate || assumption).
      destruct (process_new_trace cs (record [TaskBegin n] (mem m))) as (es & Hes & Hin).
      now rewrite Hes, scan_app, Hopen, scan_inner.
    + split; [now apply serial_insert |].
      rewrite progress_insert by (discriminate || assumption).
      unfold initializeCompiler_call. unfold record at 1. cbn [trace].
      now rewrite scan_app, Hopen.
  - unfold initialize_task.
    destruct (buildQueue m !! n) as [[cs []] |] eqn:El; try discriminate.
    destruct (serialized_in_progress m n cs _ Hm El) as (Hn & Ht & Hd & Hopen);
      [discriminate | discriminate |].
    intros [= <-]; cbn [mem buildQueue].
    split; [now apply serial_insert |].
    rewrite initializeCompiler_settle_trace, scan_app, Hopen.
    rewrite (scan_quiet _ _ (settle_events_quiet _)).
    destruct (initializeCompiler_settle None (mem m)).2;
      now rewrite progress_insert by (discriminate || assumption).
  - unfold continue_task.
    destruct (buildQueue m !! n) as [[cs []] |] eqn:El; try discriminate.
    destruct (serialized_in_progress m n cs _ Hm El) as (Hn & Ht & Hd & Hopen);
      [discriminate | discriminate |].
    intros [= <-]; cbn [mem buildQueue].
    split; [now apply serial_insert |].
    rewrite progress_insert by (discriminate || assumption).
    destruct (process_new_trace cs (mem m)) as (es & Hes & Hin).
    now rewrite Hes, scan_app, Hopen, scan_inner.
  - rewrite settle_task_eq.
    destruct (buildQueue m !! n) as [[cs []] |] eqn:El; try discriminate.
    destruct (serialized_in_progress m n cs _ Hm El) as (Hn & Ht & Hd & Hopen);
      [discriminate | discriminate |].
    intros [= <-]; cbn [mem buildQueue].
    split; [now apply serial_insert |].
    rewrite progress_settled by assumption.
    apply (finish_task_scan n (mem m, r) (trace (mem m)) []);
      [cbn; now rewrite app_nil_r | reflexivity | exact Hopen].
Qed.

Lemma serialized_reachable (m : machine) : reachable m -> serialized m.
Proof.
  intros H.
  apply (rtc_ind_r (R := step) serialized initial); [apply serialized_initial | | exact H].
  intros m1 m2 Hm1 [a Ha] IH.
  eapply serialized_perform; [apply reachable_no_rejected | |]; eassumption.
Qed.

(** In a queue of the serial shape a link has begun only when the link
    before it is settled. *)
Lemma serial_queue_order (q : list (list string * status)) (n : nat)
      (cs : list string) (st : status) :
  serial_queue q = true ->
  q !! S n = Some (cs, st) -> st <> Pending ->
  exists cs', q !! n = Some (cs', Settled).
Proof.
  revert n. induction q as [| [cs0 st0] r IH]; intros n Hs Hl Hst; [discriminate |].
  cbn in Hl.
  destruct st0;
    try (cbn in Hs; apply forallb_pending in Hs;
         apply (Forall_lookup_1 _ _ _ _ Hs) in Hl; cbn in Hl; congruence).
  destruct n as [| k]; [now exists cs0 |].
  cbn in Hs. cbn. eapply IH; eassumption.
Qed.

(** ** The queue always runs to its end *)








(** ** Failures stay inside their task *)

Lemma process_new_reported (classNames : list string) (s : store) :
  reported (trace (process_new classNames s).1) = reported (trace s).
Proof.
  unfold process_new.
  destruct (new_names classNames (processedClasses s)) as [| x l] eqn:E; [reflexivity |].
  cbn [length Nat.eqb]. cbn -[fold_left].
  destruct (compiler s) as [c |].
  2:{ cbn. rewrite reported_app. cbn. now rewrite app_nil_r. }
  destruct (engine_build c _) as [c' [css | e]]; cbn -[fold_left].
  - destruct (sheet s); cbn -[fold_left];
      rewrite ?reported_app; cbn -[fold_left]; now rewrite ?app_nil_r.
  - rewrite ?reported_app; cbn -[fold_left]; now rewrite ?app_nil_r.
Qed.




(** ** Initialization on demand *)

Lemma finish_task_reported (n : nat) (r : store * outcome unit) :
  reported (trace (finish_task n r))
  = reported (trace r.1) ++ match r.2 with Throw e => [e] | Return _ => [] end.
Proof.
  destruct r as [s [[] | e]]; unfold finish_task, catch, I_error, record; cbn [trace fst snd];
    rewrite ?reported_app; cbn; now rewrite ?app_nil_r.
Qed.

(** With a compiler and a style element in place, [process_new] throws
    only what [build] throws. *)
Lemma process_new_throw (classNames : list string) (s : store) (c : Engine) (e : exn) :
  compiler s = Some c -> is_Some (sheet s) ->
  (process_new classNames s).2 = Throw e ->
  exists c', engine_build c (fold_left JsSet.add
                               (new_names classNames (processedClasses s))
                               (processedClasses s)) = (c', Throw e).
Proof.
  intros Hc [t Ht]. unfold process_new.
  destruct (new_names classNames (processedClasses s)) as [| x l] eqn:E; [discriminate |].
  cbn [length Nat.eqb]. cbn -[fold_left]. rewrite Hc. unfold JsSet.to_array.
  cbn -[fold_left].
  destruct (engine_build c _) as [c' [css | e']]; cbn -[fold_left].
  - rewrite Ht. discriminate.
  - intros [= ->]. now exists c'.
Qed.

Lemma process_new_sheet (classNames : list string) (s : store) :
  is_Some (sheet s) -> is_Some (sheet (process_new classNames s).1).
Proof.
  intros [t Ht]. unfold process_new.
  destruct (new_names classNames (processedClasses s)) as [| x l] eqn:E; [cbn; eauto |].
  cbn [length Nat.eqb]. cbn -[fold_left].
  destruct (compiler s) as [c |]; [| cbn; eauto].
  destruct (engine_build c _) as [c' [css | e']]; cbn -[fold_left]; rewrite ?Ht; cbn; eauto.
Qed.

Lemma healthy_same (s s' : store) :
  same_state s s' -> reported (trace s') = reported (trace s) ->
  healthy s -> healthy s'.
Proof.
  intros (Hc & Hr & Hs) Hrep (H1 & H2 & H3). unfold healthy.
  now rewrite <- Hc, <- Hr, <- Hs, Hrep.
Qed.

Lemma healthy_process_new (classNames : list string) (s : store) :
  healthy s -> is_Some (compiler s) ->
  healthy (process_new classNames s).1
  /\ is_Some (compiler (process_new classNames s).1)
  /\ (forall e, (process_new classNames s).2 = Throw e -> thrown_by_engine e).
Proof.
  intros (Hsheet & Hreg & Hrep) Hc. pose proof (Hsheet Hc) as Hs.
  pose proof (proj1 (process_new_compiler classNames s) Hc) as Hc'.
  split; [| split; [exact Hc' |]].
  - split; [intros _; now apply process_new_sheet |].
    split; [intros _; exact Hc' |]. now rewrite process_new_reported.
  - intros e He. destruct Hc as [c Hc].
    destruct (process_new_throw classNames s c e Hc Hs He) as [c' Hb].
    right. eauto.
Qed.

Lemma healthy_settle (customCss : option string) (s : store) :
  healthy s ->
  healthy (initializeCompiler_settle customCss s).1
  /\ (is_Some (compiler s) -> is_Some (compiler (initializeCompiler_settle customCss s).1))
  /\ ((initializeCompiler_settle customCss s).2 = Return tt ->
      is_Some (compiler (initializeCompiler_settle customCss s).1))
  /\ (forall e, (initializeCompiler_settle customCss s).2 = Throw e ->
                tailwind_compile (default default_css customCss) = Throw e).
Proof.
  intros (Hsheet & Hreg & Hrep).
  pose proof (initializeCompiler_settle_cases customCss s) as H. cbn zeta in H.
  destruct (tailwind_compile _) as [c | e]; rewrite H; cbn [fst snd].
  - split.
    { split; [cbn; eauto |]. split; [cbn; eauto |]. cbn.
      now rewrite (proj2 (proj2 (settle_events_projections _ _))). }
    split; [cbn; eauto |]. split; [cbn; eauto |]. intros e' [=].
  - split.
    { split; [exact Hsheet |]. split; [exact Hreg |]. cbn.
      now rewrite (proj2 (proj2 (settle_events_projections _ _))). }
    split; [cbn; auto |]. split; [intros [=] |]. now intros e' [= ->].
Qed.

Lemma healthy_finish (n : nat) (s : store) (r : outcome unit) :
  healthy s -> (forall e, r = Throw e -> thrown_by_engine e) ->
  healthy (finish_task n (s, r)).
Proof.
  intros (Hsheet & Hreg & Hrep) Hr.
  destruct (finish_task_frame n (s, r)) as (Ec & Er & Es & _). cbn [fst] in *.
  unfold healthy. rewrite Ec, Er, Es, finish_task_reported. cbn [fst snd].
  split; [exact Hsheet |]. split; [exact Hreg |].
  apply Forall_app. split; [exact Hrep |].
  destruct r as [[] | e]; [constructor |]. apply Forall_singleton. now apply Hr.
Qed.

(** What the invariant asks of the queue, after link [n] has moved. *)
Lemma healthy_queue_insert (q : list (list string * status)) (n : nat)
      (cs : list string) (st : status) (s s' : store) :
  (forall k c, q !! k = Some (c, Initialized) -> is_Some (compiler s)) ->
  (forall k c e, q !! k = Some (c, Finished (Throw e)) -> thrown_by_engine e) ->
  (is_Some (compiler s) -> is_Some (compiler s')) ->
  (st = Initialized -> is_Some (compiler s')) ->
  (forall e, st = Finished (Throw e) -> thrown_by_engine e) ->
  (forall k c, <[n := (cs, st)]> q !! k = Some (c, Initialized) -> is_Some (compiler s'))
  /\ (forall k c e,
        <[n := (cs, st)]> q !! k = Some (c, Finished (Throw e)) -> thrown_by_engine e).
Proof.
  intros Hi Hf Hc Hst Hthrow. split.
  - intros k c Hk. apply list_lookup_insert_Some in Hk as [(_ & [= _ ->] & _) | (_ & Hk)].
    + now apply Hst.
    + eapply Hc, Hi, Hk.
  - intros k c e Hk. apply list_lookup_insert_Some in Hk as [(_ & [= _ ->] & _) | (_ & Hk)].
    + now apply Hthrow.
    + eapply Hf, Hk.
Qed.

Lemma healthy_perform (a : action) (m m' : machine) :
  no_rejected (buildQueue m) ->
  healthy_machine m -> perform a m = Some m' -> healthy_machine m'.
Proof.
  intros Hnr (Hm & Hi & Hf). unfold healthy_machine.
  destruct a as [inputs | css | i | n | n | n | n]; cbn [perform].
  - intros [= <-]. unfold tw, queueClassProcessing. cbn [snd mem buildQueue].
    split; [exact Hm |]. split.
    + intros k c Hk. apply lookup_app_Some in Hk as [Hk | [_ Hk]]; [eapply Hi, Hk |].
      apply list_lookup_singleton_Some in Hk as [_ [=]].
    + intros k c e Hk. apply lookup_app_Some in Hk as [Hk | [_ Hk]]; [eapply Hf, Hk |].
      apply list_lookup_singleton_Some in Hk as [_ [=]].
  - intros [= <-]. cbn [mem buildQueue call_initializeCompiler].
    split; [| split; [exact Hi | exact Hf]].
    apply (healthy_same (mem m)); [now repeat split | | exact Hm].
    cbn. rewrite reported_app. cbn. now rewrite app_nil_r.
  - unfold settle_initializeCompiler. destruct (inits m !! i) as [css |]; [| discriminate].
    intros [= <-]. cbn [mem buildQueue].
    destruct (healthy_settle css (mem m) Hm) as (H1 & H2 & _).
    split; [exact H1 |]. split; [| exact Hf].
    intros k c Hk. eapply H2, Hi, Hk.
  - unfold begin_task.
    destruct (buildQueue m !! n) as [[cs []] |] eqn:El; try discriminate.
    destruct (predecessor_settled n (buildQueue m));
      [| now rewrite predecessor_not_rejected].
    assert (healthy (record [TaskBegin n] (mem m))) as Hm0.
    { apply (healthy_same (mem m)); [now repeat split | | exact Hm].
      cbn. rewrite reported_app. cbn. now rewrite app_nil_r. }
    change (compiler (record [TaskBegin n] (mem m))) with (compiler (mem m)).
    destruct (compiler (mem m)) eqn:Ec; intros [= <-]; cbn [mem buildQueue].
    + destruct (healthy_process_new cs (record [TaskBegin n] (mem m)) Hm0)
        as (H1 & H2 & H3); [cbn; rewrite Ec; eauto |].
      split; [exact H1 |].
      apply (healthy_queue_insert _ _ _ _ (mem m)); auto; try discriminate.
      intros e0 [= He]. now apply H3.
    + split.
      * apply (healthy_same (mem m)); [now repeat split | | exact Hm].
        cbn. rewrite !reported_app. cbn. now rewrite !app_nil_r.
      * apply (healthy_queue_insert _ _ _ _ (mem m)); auto; try discriminate.
        intros k c Hk. rewrite Ec. eapply Hi, Hk.
  - unfold initialize_task.
    destruct (buildQueue m !! n) as [[cs []] |] eqn:El; try discriminate.
    intros [= <-]; cbn [mem buildQueue].
    destruct (healthy_settle None (mem m) Hm) as (H1 & H2 & H3 & H4).
    split; [exact H1 |].
    apply (healthy_queue_insert _ _ _ _ (mem m)); auto.
    + destruct (initializeCompiler_settle None (mem m)).2 as [[] | e] eqn:E;
        [intros _; now apply H3 | discriminate].
    + intros e. destruct (initializeCompiler_settle None (mem m)).2 as [[] | e'] eqn:E;
        [discriminate |].
      intros [= ->]. left. now apply H4.
  - unfold continue_task.
    destruct (buildQueue m !! n) as [[cs []] |] eqn:El; try discriminate.
    intros [= <-]; cbn [mem buildQueue].
    destruct (healthy_process_new cs (mem m) Hm) as (H1 & H2 & H3); [eapply Hi, El |].
    split; [exact H1 |].
    apply (healthy_queue_insert _ _ _ _ (mem m)); auto; try discriminate.
    intros e [= He]. now apply H3.
  - rewrite settle_task_eq.
    destruct (buildQueue m !! n) as [[cs []] |] eqn:El; try discriminate.
    intros [= <-]; cbn [mem buildQueue].
    split.
    + apply healthy_finish; [exact Hm |]. intros e ->. eapply Hf, El.
    + destruct (finish_task_frame n (mem m, r)) as (Ec & _).
      apply (healthy_queue_insert _ _ _ _ (mem m)); auto; try discriminate.
      all: try now rewrite Ec.
Qed.

Lemma healthy_reachable (m : machine) : reachable m -> healthy_machine m.
Proof.
  intros H.
  apply (rtc_ind_r (R := step) healthy_machine initial); [| | exact H].
  - split; [| split; intros ? ? **; discriminate].
    split; [intros [? ?]; discriminate |]. split; [intros []; reflexivity | constructor].
  - intros m1 m2 Hm1 [a Ha] IH.
    eapply healthy_perform; [apply reachable_no_rejected | |]; eassumption.
Qed.

Lemma process_new_compiles (classNames : list string) (s : store) :
  compiles (trace (process_new classNames s).1) = compiles (trace s).
Proof.
  unfold process_new.
  destruct (new_names classNames (processedClasses s)) as [| x l] eqn:E; [reflexivity |].
  cbn [length Nat.eqb]. cbn -[fold_left].
  destruct (compiler s) as [c |].
  2:{ cbn. rewrite compiles_app. cbn. now rewrite app_nil_r. }
  destruct (engine_build c _) as [c' [css | e]]; cbn -[fold_left].
  - destruct (sheet s); cbn -[fold_left];
      rewrite ?compiles_app; cbn -[fold_left]; now rewrite ?app_nil_r.
  - rewrite ?compiles_app; cbn -[fold_left]; now rewrite ?app_nil_r.
Qed.

(** ** A failed initialization *)

(** What a task does depends on the compiler, the registry and the
    style element only, not on the trace. *)
Lemma process_new_same (classNames : list string) (s s' : store) :
  same_state s s' ->
  (process_new classNames s).2 = (process_new classNames s').2
  /\ same_state (process_new classNames s).1 (process_new classNames s').1
  /\ exists es, trace (process_new classNames s).1 = trace s ++ es
                /\ trace (process_new classNames s').1 = trace s' ++ es.
Proof.
  destruct s as [c r t tr], s' as [c0 r0 t0 tr0]. intros (Hc & Hr & Hs).
  cbn in Hc, Hr, Hs. subst c0 r0 t0. unfold process_new, same_state.
  cbn [processedClasses].
  destruct (new_names classNames r) as [| x l] eqn:E.
  { cbn. repeat split. exists []. now rewrite !app_nil_r. }
  cbn [length Nat.eqb]. cbn -[fold_left].
  destruct c as [c |].
  2:{ cbn. repeat split. eexists. split; reflexivity. }
  destruct (engine_build c _) as [c' [css | e]]; cbn -[fold_left].
  - destruct t; cbn -[fold_left]; repeat split; rewrite <- ?app_assoc;
      eexists; split; reflexivity.
  - repeat split. rewrite <- ?app_assoc. eexists; split; reflexivity.
Qed.

Lemma processClasses_same (classNames : list string) (s s' : store) :
  same_state s s' ->
  (processClasses classNames s).2 = (processClasses classNames s').2
  /\ same_state (processClasses classNames s).1 (processClasses classNames s').1
  /\ exists es, trace (processClasses classNames s).1 = trace s ++ es
                /\ trace (processClasses classNames s').1 = trace s' ++ es.
Proof.
  intros Hsame. pose proof Hsame as (Hc & Hr & Hs).
  pose proof (processClasses_cases classNames s) as H.
  pose proof (processClasses_cases classNames s') as H'.
  rewrite <- Hc in H'. destruct (compiler s).
  - rewrite H, H'. now apply process_new_same.
  - cbn zeta in H, H'. destruct (tailwind_compile default_css) as [c | e]; rewrite H, H'.
    + rewrite <- Hr, <- Hs.
      destruct (process_new_same classNames
                  (Store (Some c) (processedClasses s) (Some (default "" (sheet s)))
                     (trace s ++ init_events default_css))
                  (Store (Some c) (processedClasses s) (Some (default "" (sheet s)))
                     (trace s' ++ init_events default_css)))
        as (Ho & Hst & es & He & He'); [repeat split |].
      split; [exact Ho |]. split; [exact Hst |].
      exists (init_events default_css ++ es). cbn [trace] in He, He'.
      now rewrite He, He', !app_assoc.
    + cbn [fst snd trace]. split; [reflexivity |].
      split; [now repeat split |]. now exists (init_events default_css).
Qed.

(** ** A failed build *)

(** A task that throws after its initialization had a new name. *)
Lemma processClasses_throw_new (classNames : list string) (s : store) (e : exn) :
  (processClasses classNames s).2 = Throw e ->
  is_Some (compiler (processClasses classNames s).1) ->
  new_names classNames (processedClasses s) <> [].
Proof.
  intros He Hc Hnil. apply new_names_nil in Hnil.
  pose proof (processClasses_cases classNames s) as H.
  destruct (compiler s) eqn:Ec.
  - rewrite H, process_new_skip in He by assumption. discriminate.
  - cbn zeta in H. destruct (tailwind_compile default_css) as [c | e']; rewrite H in *.
    + rewrite process_new_skip in He by assumption. discriminate.
    + cbn in Hc. destruct Hc; discriminate.
Qed.

Lemma run_actions_steps (l : list action) (m m' : machine) :
  run_actions l m = Some m' -> rtc step m m'.
Proof.
  revert m. induction l as [| a r IH]; intros m; cbn.
  - now intros [= <-].
  - destruct (perform a m) as [m1 |] eqn:E; [| discriminate].
    intros H. eapply rtc_l; [exists a; exact E | now apply IH].
Qed.

(** ** From a call to the registry *)

(** A link of the queue after a move: it is as it was, or the move was
    its own and took it one stage on. *)
Lemma perform_link (a : action) (m m' : machine) (n : nat) (cs : list string) (st : status) :
  no_rejected (buildQueue m) ->
  perform a m = Some m' ->
  buildQueue m' !! n = Some (cs, st) ->
  buildQueue m !! n = Some (cs, st)
  \/ st = Pending \/ st = Initializing
  \/ (st = Initialized /\ exists c, tailwind_compile default_css = Return c)
  \/ (exists e, st = Finished (Throw e) /\ tailwind_compile default_css = Throw e)
  \/ (exists r, st = Finished r
                /\ Forall (fun cls => cls ∈ processedClasses (mem m')) cs)
  \/ (st = Settled /\ exists r, buildQueue m !! n = Some (cs, Finished r)).
Proof.
  assert (forall k (q : list (list string * status)) t,
             <[k := t]> q !! n = Some (cs, st) ->
             q !! n = Some (cs, st) \/ (n = k /\ t = (cs, st))) as Hins.
  { intros k q t H. destruct (decide (n = k)) as [-> | Hne].
    - right. apply list_lookup_insert_Some in H as [(_ & <- & _) | [Hk _]]; [auto | congruence].
    - left. now rewrite list_lookup_insert_ne in H by congruence. }
  intros Hnr.
  destruct a as [inputs | css | i | k | k | k | k]; cbn [perform].
  - intros [= <-] H. cbn [tw snd queueClassProcessing buildQueue] in H.
    apply lookup_app_Some in H as [H | [_ H]]; [now left |].
    destruct (n - length (buildQueue m)) as [| j]; [| discriminate].
    injection H as _ <-. now right; left.
  - intros [= <-] H. now left.
  - unfold settle_initializeCompiler. destruct (inits m !! i); [| discriminate].
    intros [= <-] H. now left.
  - unfold begin_task.
    destruct (buildQueue m !! k) as [[cs0 []] |] eqn:El; try discriminate.
    destruct (predecessor_settled k (buildQueue m));
      [| now rewrite predecessor_not_rejected].
    destruct (compiler _); intros [= <-] H; cbn [buildQueue mem] in *;
      apply Hins in H as [H | [-> [= <- <-]]]; auto.
    do 5 right; left. eexists. split; [reflexivity |]. apply process_new_registered.
  - unfold initialize_task.
    destruct (buildQueue m !! k) as [[cs0 []] |] eqn:El; try discriminate.
    intros [= <-] H; cbn [buildQueue mem] in *.
    apply Hins in H as [H | [-> [= <- <-]]]; [now left |].
    pose proof (initializeCompiler_settle_cases None (mem m)) as Hc. cbn zeta in Hc.
    change (default default_css None) with default_css in Hc.
    destruct (tailwind_compile default_css) as [c | e]; rewrite Hc; cbn [snd].
    + do 3 right; left. eauto.
    + do 4 right; left. eauto.
  - unfold continue_task.
    destruct (buildQueue m !! k) as [[cs0 []] |] eqn:El; try discriminate.
    intros [= <-] H; cbn [buildQueue mem] in *.
    apply Hins in H as [H | [-> [= <- <-]]]; [now left |].
    do 5 right; left. eexists. split; [reflexivity |]. apply process_new_registered.
  - rewrite settle_task_eq.
    destruct (buildQueue m !! k) as [[cs0 []] |] eqn:El; try discriminate.
    intros [= <-] H; cbn [buildQueue mem] in *.
    apply Hins in H as [H | [-> [= <- <-]]]; [now left |].
    do 6 right. eauto.
Qed.

Lemma process_new_grows (classNames : list string) (s : store) :
  let s' := (process_new classNames s).1 in
  builds (trace s') = builds (trace s)
  \/ (builds (trace s') = builds (trace s) ++ [processedClasses s']
      /\ length (processedClasses s) < length (processedClasses s')).
Proof.
  cbn zeta. rewrite process_new_builds.
  destruct (new_names classNames (processedClasses s)) as [| x l] eqn:E.
  { left. rewrite bool_decide_eq_true_2 by reflexivity. apply app_nil_r. }
  rewrite bool_decide_eq_false_2 by discriminate.
  destruct (compiler s); [right | left; apply app_nil_r].
  split; [reflexivity |].
  assert (x ∈ new_names classNames (processedClasses s)) as Hx by (rewrite E; left).
  apply elem_of_new_names in Hx as [Hin Hx].
  destruct (process_new_prefix classNames s) as [k Hk].
  rewrite Hk, length_app. destruct k as [| y k]; [| cbn; lia].
  exfalso. apply Hx. rewrite app_nil_r in Hk.
  pose proof (process_new_registered classNames s) as Hall.
  rewrite Forall_forall in Hall. rewrite <- Hk. now apply Hall.
Qed.

(** A move of the event loop that calls [build] has added a name. *)
Lemma perform_grows (a : action) (m m' : machine) :
  perform a m = Some m' ->
  builds (trace (mem m')) = builds (trace (mem m))
  \/ (builds (trace (mem m')) = builds (trace (mem m)) ++ [processedClasses (mem m')]
      /\ length (processedClasses (mem m)) < length (processedClasses (mem m'))).
Proof.
  intros Hstep.
  destruct (perform_mem a m m' Hstep)
    as [-> | [[css ->] | [[css ->] | [[n ->] | [(n & cs & -> & _) | [(n & cs & -> & _) | (n & cs & r & -> & _)]]]]]].
  - now left.
  - left. apply initializeCompiler_call_frame.
  - left. apply initializeCompiler_settle_frame.
  - left. cbn. rewrite !builds_app. cbn. now rewrite !app_nil_r.
  - assert (builds (trace (record [TaskBegin n] (mem m))) = builds (trace (mem m))) as Hb
      by (cbn; rewrite builds_app; cbn; now rewrite app_nil_r).
    rewrite <- Hb. apply (process_new_grows cs (record [TaskBegin n] (mem m))).
  - apply process_new_grows.
  - left. now destruct (finish_task_frame n (mem m, r)) as (_ & _ & _ & -> & _).
Qed.

(** When compiling the default CSS returns, every name of a task that
    has run to its end is in the registry. *)
Lemma finished_registered (m : machine) (c : Engine) :
  tailwind_compile default_css = Return c ->
  reachable m ->
  forall (n : nat) (classNames : list string) (st : status),
    buildQueue m !! n = Some (classNames, st) ->
    st = Settled \/ (exists r, st = Finished r) ->
    Forall (fun cls => cls ∈ processedClasses (mem m)) classNames.
Proof.
  intros Hc H.
  apply (rtc_ind_r (R := step)
           (fun m => forall n classNames st,
                buildQueue m !! n = Some (classNames, st) ->
                st = Settled \/ (exists r, st = Finished r) ->
                Forall (fun cls => cls ∈ processedClasses (mem m)) classNames)
           initial); [| | exact H].
  { intros n classNames st Hl. discriminate. }
  intros m1 m2 Hm1 [a Ha] IH n cs st Hl Hst.
  apply reachable_no_rejected in Hm1.
  assert (forall l, Forall (fun cls => cls ∈ processedClasses (mem m1)) l ->
                    Forall (fun cls => cls ∈ processedClasses (mem m2)) l) as Hmono.
  { destruct (perform_prefix a m1 m2 Ha) as [k Hk]. intros l Hl1.
    eapply Forall_impl; [exact Hl1 |]. intros x Hx. cbn in Hx. rewrite Hk.
    apply elem_of_app. now left. }
  destruct (perform_link a m1 m2 n cs st Hm1 Ha Hl)
    as [Hold | [-> | [-> | [[-> _] | [(e & -> & He) | [(r & -> & Hreg) | [-> [r Hold]]]]]]]].
  - apply Hmono. now apply (IH n cs st).
  - destruct Hst as [? | [? ?]]; discriminate.
  - destruct Hst as [? | [? ?]]; discriminate.
  - destruct Hst as [? | [? ?]]; discriminate.
  - congruence.
  - exact Hreg.
  - apply Hmono. apply (IH n cs (Finished r) Hold). eauto.
Qed.

(** A move that calls [build] finds a compiler installed. *)
Lemma build_on_installed (a : action) (m m' : machine) :
  healthy_machine m ->
  perform a m = Some m' ->
  builds (trace (mem m')) <> builds (trace (mem m)) ->
  is_Some (compiler (mem m)).
Proof.
  intros (_ & Hi & _) Hstep Hne.
  destruct (perform_mem a m m' Hstep)
    as [H | [[css H] | [[css H] | [[n H] | [(n & cs & H & Hc) | [(n & cs & H & El) | (n & cs & r & H & _)]]]]]];
    rewrite H in Hne.
  - now contradiction Hne.
  - contradiction Hne. apply initializeCompiler_call_frame.
  - contradiction Hne. apply initializeCompiler_settle_frame.
  - contradiction Hne. cbn. rewrite !builds_app. cbn. now rewrite !app_nil_r.
  - exact Hc.
  - eapply Hi, El.
  - contradiction Hne. now destruct (finish_task_frame n (mem m, r)) as (_ & _ & _ & -> & _).
Qed.



(** ** The claims of the specification *)

(** A move of a task all of whose names are registered. *)
Lemma skip_move (m m' : machine) (n : nat) (cs : list string) (st : status) (a : action) :
  buildQueue m !! n = Some (cs, st) ->
  Forall (fun cls => cls ∈ processedClasses (mem m)) cs ->
  task_move n a ->
  perform a m = Some m' ->
  builds (trace (mem m')) = builds (trace (mem m))
  /\ processedClasses (mem m') = processedClasses (mem m)
  /\ (forall text, sheet (mem m) = Some text -> sheet (mem m') = Some text)
  /\ (sheet (mem m) = None -> sheet (mem m') = None \/ sheet (mem m') = Some "").
Proof.
  intros El Hall [-> | [-> | [-> | ->]]]; cbn [perform].
  - unfold begin_task. rewrite El. destruct st; try discriminate.
    destruct (predecessor_settled n (buildQueue m));
      [| rejected_predecessor ltac:(auto)].
    change (compiler (record [TaskBegin n] (mem m))) with (compiler (mem m)).
    destruct (compiler (mem m)); intros [= <-]; cbn [mem].
    + rewrite (process_new_skip cs (record [TaskBegin n] (mem m))) by exact Hall.
      cbn. rewrite builds_app. cbn. rewrite app_nil_r. auto.
    + cbn. rewrite !builds_app. cbn. rewrite !app_nil_r. auto.
  - unfold initialize_task. rewrite El. destruct st; try discriminate.
    intros [= <-]; cbn [mem].
    pose proof (initializeCompiler_settle_cases None (mem m)) as H. cbn zeta in H.
    destruct (tailwind_compile _) as [c | e]; rewrite H; cbn;
      rewrite (proj1 (settle_events_projections _ _)).
    + repeat split; [now intros text -> | intros ->; now right].
    + auto.
  - unfold continue_task. rewrite El. destruct st; try discriminate.
    intros [= <-]; cbn [mem]. rewrite process_new_skip by exact Hall. cbn. auto.
  - rewrite settle_task_eq. rewrite El. destruct st; try discriminate.
    intros [= <-]; cbn [mem].
    destruct (finish_task_frame n (mem m, r)) as (_ & -> & -> & -> & _). cbn. auto.
Qed.

(** C1.  A build task all of whose class names are in the registry calls
    [build] not at all and leaves the registry and the text of the style
    element as they are (a style element that did not exist can only
    have been created, empty, by the automatic initialization); with a
    compiler installed it changes nothing at all.  This holds for the
    task run in one go and for each of its moves in the event loop,
    whatever else runs in between; and in a state the event loop can
    reach a task with at least one name, all of them registered, finds a
    compiler and changes nothing.  When [tw] is called with the same
    inputs a second time after the task of the first call has run to its
    end, the second task calls [build] not at all and leaves registry and
    style element untouched. *)
Theorem skip_if_all_processed :
  (forall (classNames : list string) (s : store),
      Forall (fun cls => cls ∈ processedClasses s) classNames ->
      let s' := (processClasses classNames s).1 in
      builds (trace s') = builds (trace s)
      /\ processedClasses s' = processedClasses s
      /\ (forall text, sheet s = Some text -> sheet s' = Some text)
      /\ (sheet s = None -> sheet s' = None \/ sheet s' = Some "")
      /\ (is_Some (compiler s) -> processClasses classNames s = (s, Return tt)))
  /\
  (forall (m m' : machine) (n : nat) (classNames : list string) (st : status) (a : action),
      buildQueue m !! n = Some (classNames, st) ->
      Forall (fun cls => cls ∈ processedClasses (mem m)) classNames ->
      task_move n a ->
      perform a m = Some m' ->
      builds (trace (mem m')) = builds (trace (mem m))
      /\ processedClasses (mem m') = processedClasses (mem m)
      /\ (forall text, sheet (mem m) = Some text -> sheet (mem m') = Some text)
      /\ (sheet (mem m) = None -> sheet (mem m') = None \/ sheet (mem m') = Some ""))
  /\
  (forall (m : machine) (classNames : list string),
      reachable m ->
      classNames <> [] ->
      Forall (fun cls => cls ∈ processedClasses (mem m)) classNames ->
      processClasses classNames (mem m) = (mem m, Return tt))
  /\
  (forall (inputs : list input) (m : machine),
      all_settled m ->
      let m1 := run_tasks 4 (tw inputs m).2 in
      let m2 := run_tasks 4 (tw inputs m1).2 in
      all_settled m1 /\ all_settled m2
      /\ builds (trace (mem m2)) = builds (trace (mem m1))
      /\ processedClasses (mem m2) = processedClasses (mem m1)
      /\ sheet (mem m2) = sheet (mem m1)).
Proof.
  split; [exact skip_frame |]. split; [exact skip_move |]. split.
  { intros m classNames Hm Hne Hall.
    destruct (skip_frame classNames (mem m) Hall) as (_ & _ & _ & _ & Hskip).
    apply Hskip. destruct (healthy_reachable m Hm) as ((_ & Hreg & _) & _).
    apply Hreg. destruct classNames as [| x l]; [congruence |].
    apply Forall_cons in Hall as [Hx _]. intros Hnil. rewrite Hnil in Hx.
    now apply elem_of_nil in Hx. }
  intros inputs m Hm. cbn zeta. unfold tw. cbn [snd].
  set (cs := allClassesToProcess (tw_collect inputs)).
  rewrite (run_single cs m Hm).
  set (m1 := Machine _ _ _).
  assert (all_settled m1) as Hm1.
  { unfold all_settled, m1. cbn. apply Forall_app. split; [exact Hm |].
    now repeat constructor. }
  rewrite (run_single cs m1 Hm1).
  set (n := length (buildQueue m)). set (n1 := length (buildQueue m1)).
  destruct (finish_task_frame n1 (processClasses cs (record [TaskBegin n1] (mem m1))))
    as (_ & Hr1 & Hs1 & Hb1 & _).
  destruct (finish_task_frame n (processClasses cs (record [TaskBegin n] (mem m))))
    as (Hc & Hr & Hs & _).
  destruct (second_run_frame cs (record [TaskBegin n] (mem m))
              (record [TaskBegin n1] (mem m1)) Hc Hr Hs) as (Hb2 & Hr2 & Hs2).
  split; [exact Hm1 |]. split.
  { unfold all_settled. cbn. rewrite !Forall_app. repeat split; try exact Hm;
      now repeat constructor. }
  cbn [mem].
  change (task_alone n1 cs (mem m1))
    with (finish_task n1 (processClasses cs (record [TaskBegin n1] (mem m1)))).
  rewrite Hb1, Hr1, Hs1, Hb2, Hr2, Hs2. cbn [record trace processedClasses sheet].
  rewrite builds_app. cbn. now rewrite app_nil_r.
Qed.



(** C3.  [tw] returns, joined by single spaces and in the order met, the
    tokens of its strings and of the mapping keys whose value is truthy,
    and queues one task with the tokens of its strings and of all
    mapping keys; falsy inputs contribute nothing.  Queueing is adding
    one link, not begun, at the end of the chain: the links that were
    there, the module state and the calls in flight stay as they are.
    The tokens of a string are its maximal runs of code units that are
    not whitespace.  [tw] is a total function of its inputs and the
    string it returns does not depend on the state.  The two examples of
    the specification evaluate as it says: the first returns a, b, c and
    queues a task with a, b, c, d.  The task that was queued runs
    [processClasses] on these names: on a settled queue it leaves what
    [processClasses] leaves, and after the first example on the module
    as loaded, when the default CSS compiles, the registry is a, b, c, d
    and [build] was called once, with a, b, c, d. *)
Theorem tw_active_and_candidates :
  (forall (inputs : list input) (m : machine),
      tw inputs m
      = (JsString.join " " (flat_map active_tokens inputs),
         queueClassProcessing (flat_map candidate_tokens inputs) m))
  /\
  (forall s : string, parseClassString s = tokens s)
  /\
  (forall m : machine,
      tw [InString "a b"; InObject [("c", true); ("d", false)]] m
      = ("a b c", queueClassProcessing ["a"; "b"; "c"; "d"] m))
  /\
  (forall m : machine,
      tw [InNull; InBoolean false; InUndefined; InString "x"] m
      = ("x", queueClassProcessing ["x"] m))
  /\
  (forall (inputs : list input) (m : machine),
      buildQueue (tw inputs m).2
      = buildQueue m ++ [(flat_map candidate_tokens inputs, Pending)]
      /\ mem (tw inputs m).2 = mem m
      /\ inits (tw inputs m).2 = inits m)
  /\
  (forall m : machine,
      buildQueue (tw [InString "a b"; InObject [("c", true); ("d", false)]] m).2
      = buildQueue m ++ [(["a"; "b"; "c"; "d"], Pending)]
      /\ buildQueue (tw [InNull; InBoolean false; InUndefined; InString "x"] m).2
         = buildQueue m ++ [(["x"], Pending)])
  /\
  (forall (inputs : list input) (m : machine),
      all_settled m ->
      let n := length (buildQueue m) in
      let names := flat_map candidate_tokens inputs in
      run_tasks 4 (tw inputs m).2
      = Machine (finish_task n (processClasses names (record [TaskBegin n] (mem m))))
          (buildQueue m ++ [(names, Settled)]) (inits m))
  /\
  (forall c : Engine,
      tailwind_compile default_css = Return c ->
      let m := run_tasks 4
                 (tw [InString "a b"; InObject [("c", true); ("d", false)]] initial).2 in
      processedClasses (mem m) = ["a"; "b"; "c"; "d"]
      /\ builds (trace (mem m)) = [["a"; "b"; "c"; "d"]]).
Proof.
  assert (forall inputs m,
             tw inputs m
             = (JsString.join " " (flat_map active_tokens inputs),
                queueClassProcessing (flat_map candidate_tokens inputs) m)) as Htw
    by (intros inputs m; unfold tw, tw_collect; now rewrite tw_collect_spec).
  split; [exact Htw |].
  split; [exact parseClassString_tokens |].
  split; [reflexivity |]. split; [reflexivity |].
  split; [intros inputs m; now rewrite Htw |].
  split; [intros m; split; reflexivity |]. split.
  - intros inputs m Hm. cbn zeta. rewrite Htw. cbn [snd].
    now rewrite (run_single _ m Hm).
  - intros c Hc. cbn zeta.
    assert (all_settled initial) as Hinit by constructor.
    rewrite Htw. cbn [snd flat_map candidate_tokens].
    rewrite (run_single _ initial Hinit). cbn [mem]. unfold task_alone.
    set (names := parseClassString "a b" ++ _).
    assert (names = ["a"; "b"; "c"; "d"]) as -> by reflexivity.
    set (s := record [TaskBegin (length (buildQueue initial))] (mem initial)).
    destruct (finish_task_frame (length (buildQueue initial))
                (processClasses ["a"; "b"; "c"; "d"] s)) as (_ & -> & _ & -> & _).
    pose proof (processClasses_cases ["a"; "b"; "c"; "d"] s) as H.
    cbn [compiler s record] in H. cbn zeta in H. rewrite Hc in H.
    assert (processedClasses (processClasses ["a"; "b"; "c"; "d"] s).1
            = ["a"; "b"; "c"; "d"]) as Hreg
      by (rewrite H, process_new_registry; reflexivity).
    split; [exact Hreg |].
    destruct (processClasses_build ["a"; "b"; "c"; "d"] s) as (_ & _ & Hb).
    rewrite Hb, Hreg; [reflexivity | | discriminate].
    rewrite H. apply process_new_compiler. cbn. eauto.
Qed.

(** The registry holds each name once. *)
Lemma registry_NoDup (m : machine) : reachable m -> NoDup (processedClasses (mem m)).
Proof.
  intros H.
  apply (rtc_ind_r (R := step) (fun m => NoDup (processedClasses (mem m))) initial);
    [apply NoDup_nil_2 | | exact H].
  intros m1 m2 _ [a Ha] IH.
  destruct (perform_mem a m1 m2 Ha)
    as [-> | [[css ->] | [[css ->] | [[n ->] | [(n & cs & -> & _) | [(n & cs & -> & _) | (n & cs & r & -> & _)]]]]]].
  - exact IH.
  - exact IH.
  - pose proof (initializeCompiler_settle_frame css (mem m1)) as [Hr _]. now rewrite Hr.
  - exact IH.
  - rewrite process_new_registry. now apply fold_add_NoDup.
  - rewrite process_new_registry. now apply fold_add_NoDup.
  - now destruct (finish_task_frame n (mem m1, r)) as (_ & -> & _).
Qed.

(** C4.  Along every run of the event loop (calls of [tw], calls of
    [initializeCompiler], and the moves of the tasks they queue, in any
    order) the registry only grows: a later registry starts with every
    earlier one, so as a set it contains it; no move removes a name.
    So does a task run in one go.  Adding a name that is present changes
    nothing, and the registry never holds a name twice. *)
Theorem registry_only_grows :
  (forall m m' : machine,
      rtc step m m' ->
      processedClasses (mem m) `prefix_of` processedClasses (mem m')
      /\ JsSet.members (processedClasses (mem m))
           ⊆ JsSet.members (processedClasses (mem m')))
  /\
  (forall (classNames : list string) (s : store),
      JsSet.members (processedClasses s)
        ⊆ JsSet.members (processedClasses (processClasses classNames s).1))
  /\
  (forall (registry : list string) (cls : string),
      cls ∈ registry -> JsSet.add registry cls = registry)
  /\
  (forall m : machine, reachable m -> NoDup (processedClasses (mem m))).
Proof.
  split; [| split; [| split]].
  - intros m m' Hrun. pose proof (run_prefix m m' Hrun) as H.
    split; [exact H | now apply prefix_members].
  - intros classNames s. apply prefix_members, processClasses_prefix.
  - exact add_present.
  - exact registry_NoDup.
Qed.

(** Only the task in progress writes to the registry, and it does so in
    the move that runs the part of [processClasses] after its [await]. *)
Lemma registry_writer (a : action) (m m' : machine) :
  serialized m ->
  perform a m = Some m' ->
  processedClasses (mem m') <> processedClasses (mem m) ->
  exists n cs st,
    (a = BeginTask n \/ a = ContinueTask n)
    /\ buildQueue m !! n = Some (cs, st)
    /\ Forall (fun t => t.2 = Settled) (take n (buildQueue m))
    /\ Forall (fun t => t.2 = Pending) (drop (S n) (buildQueue m)).
Proof.
  intros Hm Hstep Hne. pose proof Hm as [Hq _].
  destruct a as [inputs | css | i | n | n | n | n]; cbn [perform] in Hstep.
  - injection Hstep as <-. now contradiction Hne.
  - injection Hstep as <-. now contradiction Hne.
  - unfold settle_initializeCompiler in Hstep.
    destruct (inits m !! i) as [css |]; [| discriminate]. injection Hstep as <-.
    contradiction Hne. apply initializeCompiler_settle_frame.
  - unfold begin_task in Hstep.
    destruct (buildQueue m !! n) as [[cs []] |] eqn:El; try discriminate.
    destruct (predecessor_settled n (buildQueue m)) eqn:Ep;
      [| destruct (predecessor_rejected _ _);
         [injection Hstep as <-; now contradiction Hne | discriminate]].
    destruct (serial_begin _ _ _ Hq El Ep) as [Ht Hd].
    exists n, cs, Pending. auto.
  - unfold initialize_task in Hstep.
    destruct (buildQueue m !! n) as [[cs []] |] eqn:El; try discriminate.
    injection Hstep as <-. contradiction Hne. apply initializeCompiler_settle_frame.
  - unfold continue_task in Hstep.
    destruct (buildQueue m !! n) as [[cs []] |] eqn:El; try discriminate.
    destruct (serialized_in_progress m n cs _ Hm El) as (_ & Ht & Hd & _);
      [discriminate | discriminate |].
    exists n, cs, Initialized. auto.
  - rewrite settle_task_eq in Hstep.
    destruct (buildQueue m !! n) as [[cs []] |] eqn:El; try discriminate.
    injection Hstep as <-. contradiction Hne. cbn [mem].
    now destruct (finish_task_frame n (mem m, r)) as (_ & -> & _).
Qed.

(** C5.  In every state the event loop can reach, whatever the order of
    the calls of [tw] and [initializeCompiler] and of the moves of the
    tasks: the queue is a run of settled links, then at most one link in
    progress, then links that have not begun; the trace reads as task
    [0] from begin to end, then task [1], and so on in the order of
    queueing, with every [build] call inside the task that is open; and
    a link has begun only when the link before it is settled.  A move
    that changes the registry is a move of the one task in progress,
    made when every task queued before it is settled, and it adds to
    what is there.  When tasks are queued back to back and the queue
    then runs, the store it leaves is the one the tasks leave when run
    one after the other in that order, each on the store the one before
    it left. *)
Theorem tasks_run_one_at_a_time :
  (forall m : machine,
      reachable m ->
      serial_queue (buildQueue m) = true
      /\ scan (trace (mem m)) = Some (progress (buildQueue m))
      /\ (forall n cs st,
            buildQueue m !! S n = Some (cs, st) -> st <> Pending ->
            exists cs', buildQueue m !! n = Some (cs', Settled)))
  /\
  (forall (a : action) (m m' : machine),
      reachable m ->
      perform a m = Some m' ->
      processedClasses (mem m') <> processedClasses (mem m) ->
      processedClasses (mem m) `prefix_of` processedClasses (mem m')
      /\ exists n cs st,
           (a = BeginTask n \/ a = ContinueTask n)
           /\ buildQueue m !! n = Some (cs, st)
           /\ Forall (fun t => t.2 = Settled) (take n (buildQueue m))
           /\ Forall (fun t => t.2 = Pending) (drop (S n) (buildQueue m)))
  /\
  (forall (m : machine) (tasks : list (list string)) (fuel : nat),
      all_settled m ->
      4 * length tasks <= fuel ->
      run_tasks fuel (queue_all tasks m)
      = Machine (run_in_order (length (buildQueue m)) tasks (mem m))
          (buildQueue m ++ map (fun cs => (cs, Settled)) tasks) (inits m)).
Proof.
  split; [| split].
  - intros m Hm. destruct (serialized_reachable m Hm) as [Hq Hscan].
    repeat split; [exact Hq | exact Hscan |].
    intros n cs st. now apply serial_queue_order.
  - intros a m m' Hm Hstep Hne. split; [eapply perform_prefix, Hstep |].
    eapply registry_writer; [apply serialized_reachable |..]; eassumption.
  - intros m tasks fuel Hm Hfuel. rewrite queue_all_spec.
    now apply run_tasks_in_order.
Qed.



(** C8.  The default CSS is the text [@import "tailwindcss";], and one
    whole initialization records the two starts, the compile call, the
    events of the [loadStylesheet] calls the compile makes and the two
    ends.  A task that finds no compiler installed first compiles the
    default CSS, once.  When that succeeds the task goes on exactly as
    [processClasses] does from its filter on with the new engine
    installed and a style element in place, so it ends with a compiler
    installed, it can throw only what a [build] call of that engine
    throws, and it returns when that engine's [build] does not throw;
    when the compile fails the task ends with that error and [build] is
    not called.  So in every state the event loop can reach, a compiler
    is never installed without its style element, every error that was
    reported was thrown by the engine (none came from using a compiler
    or a style element that was not there), and every move that calls
    [build] finds a compiler installed. *)
Theorem task_initializes_on_demand :
  (forall (classNames : list string) (s : store),
      compiler s = None ->
      let r := processClasses classNames s in
      compiles (trace r.1) = compiles (trace s) ++ [default_css]
      /\ match tailwind_compile default_css with
         | Return c =>
             r = process_new classNames
                   (Store (Some c) (processedClasses s) (Some (default "" (sheet s)))
                      (trace s ++ init_events default_css))
             /\ is_Some (compiler r.1)
             /\ (forall e, r.2 = Throw e ->
                   exists classes c', engine_build c classes = (c', Throw e))
             /\ ((forall classes c' e, engine_build c classes <> (c', Throw e)) ->
                 r.2 = Return tt)
         | Throw e =>
             r = (Store None (processedClasses s) (sheet s)
                    (trace s ++ init_events default_css), Throw e)
             /\ builds (trace r.1) = builds (trace s)
         end)
  /\
  (forall m : machine,
      reachable m ->
      (is_Some (compiler (mem m)) -> is_Some (sheet (mem m)))
      /\ Forall thrown_by_engine (reported (trace (mem m))))
  /\
  (default_css
   = ("@import " ++ String (ascii_of_nat 34) ("tailwindcss" ++ String (ascii_of_nat 34) ";"))
   /\ map nat_of_ascii (list_ascii_of_string default_css)
      = [64; 105; 109; 112; 111; 114; 116; 32; 34; 116; 97; 105; 108; 119; 105; 110;
         100; 99; 115; 115; 34; 59])%string
  /\
  (forall css : string,
      init_events css
      = [IStart "Initialize compiler"; IStart "Compile CSS"; CallCompile css]
          ++ compile_hits css ++ [IEnd "Compile CSS"; IEnd "Initialize compiler"])
  /\
  (forall (a : action) (m m' : machine),
      reachable m ->
      perform a m = Some m' ->
      builds (trace (mem m')) <> builds (trace (mem m)) ->
      is_Some (compiler (mem m))).
Proof.
  split; [| split; [intros m Hm; destruct (healthy_reachable m Hm) as ((H1 & _ & H3) & _);
                    now split |
            split; [split; reflexivity | split; [reflexivity |]]]].
  2:{ intros a m m' Hm. apply build_on_installed. now apply healthy_reachable. }
  intros classNames s Hc. cbn zeta.
  pose proof (processClasses_cases classNames s) as H. rewrite Hc in H. cbn zeta in H.
  destruct (tailwind_compile default_css) as [c | e]; rewrite H.
  - set (s1 := Store _ _ _ _).
    assert (forall e, (process_new classNames s1).2 = Throw e ->
              exists classes c', engine_build c classes = (c', Throw e)) as Hthrow.
    { intros e He.
      destruct (process_new_throw classNames s1 c e eq_refl) as [c' Hb];
        [cbn; eauto | exact He | eauto]. }
    split; [| split; [reflexivity | split; [| split; [exact Hthrow |]]]].
    + rewrite process_new_compiles. unfold s1. cbn [trace].
      now rewrite compiles_init.
    + apply process_new_compiler. cbn. eauto.
    + intros Hnever. destruct (process_new classNames s1).2 as [[] | e] eqn:E;
        [reflexivity |].
      destruct (Hthrow e eq_refl) as (classes & c' & Hb). now apply Hnever in Hb.
  - cbn [fst trace]. rewrite compiles_init, builds_init.
    repeat split.
Qed.

(** C9.  When compiling the CSS source throws, [initializeCompiler]
    throws the same error and leaves [compiler], the registry and the
    style element exactly as they were, whether it runs in one go or
    settles after other calls have run during its [await].  So a
    compiler that was installed stays installed, and a task that runs
    afterwards ends as it would have without the failed call and leaves
    the same compiler, registry and style element, adding the same
    events to the trace. *)
Theorem failed_initialize_installs_nothing
        (customCss : option string) (s : store) (e : exn) :
  tailwind_compile (default default_css customCss) = Throw e ->
  let r := initializeCompiler customCss s in
  r.2 = Throw e
  /\ compiler r.1 = compiler s
  /\ processedClasses r.1 = processedClasses s
  /\ sheet r.1 = sheet s
  /\ (forall s0 : store,
        (initializeCompiler_settle customCss s0).2 = Throw e
        /\ same_state (initializeCompiler_settle customCss s0).1 s0)
  /\ (forall classNames : list string,
        (processClasses classNames r.1).2 = (processClasses classNames s).2
        /\ same_state (processClasses classNames r.1).1 (processClasses classNames s).1
        /\ exists es,
             trace (processClasses classNames r.1).1 = trace r.1 ++ es
             /\ trace (processClasses classNames s).1 = trace s ++ es).
Proof.
  intros He. cbn zeta.
  pose proof (initializeCompiler_cases customCss s) as H. cbn zeta in H.
  rewrite He in H. rewrite H. cbn [fst snd compiler processedClasses sheet].
  do 4 (split; [reflexivity |]). split.
  - intros s0.
    pose proof (initializeCompiler_settle_cases customCss s0) as H0. cbn zeta in H0.
    rewrite He in H0. rewrite H0. split; [reflexivity | now repeat split].
  - intros classNames. apply processClasses_same. now repeat split.
Qed.

(** C10.  When a task throws after its initialization, that is in
    [build] or when the style element is written, the names it brought
    are in the registry all the same: they were added before [build] was
    called, which received the registry with them in it, and nothing
    takes them out.  A later task that brings only names of the failed
    task finds none of them new and changes nothing: it calls [build]
    not at all.  This holds for the part of [processClasses] after its
    [await], which runs in one move of the event loop, and for
    [processClasses] as a whole. *)
Theorem failed_build_keeps_names :
  (forall (classNames : list string) (s : store) (e : exn),
      (process_new classNames s).2 = Throw e ->
      let s' := (process_new classNames s).1 in
      Forall (fun cls => cls ∈ processedClasses s') classNames
      /\ JsSet.members (processedClasses s')
         = JsSet.members (processedClasses s) ∪ list_to_set classNames
      /\ (forall later : list string,
            Forall (fun cls => cls ∈ classNames) later ->
            process_new later s' = (s', Return tt)))
  /\
  (forall (classNames : list string) (s : store) (e : exn),
      (processClasses classNames s).2 = Throw e ->
      is_Some (compiler (processClasses classNames s).1) ->
      let s' := (processClasses classNames s).1 in
      Forall (fun cls => cls ∈ processedClasses s') classNames
      /\ JsSet.members (processedClasses s')
         = JsSet.members (processedClasses s) ∪ list_to_set classNames
      /\ builds (trace s') = builds (trace s) ++ [JsSet.to_array (processedClasses s')]
      /\ (forall later : list string,
            Forall (fun cls => cls ∈ classNames) later ->
            processClasses later s' = (s', Return tt))).
Proof.
  split.
  - intros classNames s e He. cbn zeta.
    pose proof (process_new_registered classNames s) as Hreg.
    split; [exact Hreg |]. split; [apply process_new_members |].
    intros later Hlater. apply process_new_skip.
    rewrite Forall_forall in *. intros x Hx. now apply Hreg, Hlater.
  - intros classNames s e He Hc. cbn zeta.
    pose proof (processClasses_registered classNames s Hc) as Hreg.
    destruct (processClasses_build classNames s) as (_ & Hmem & Hbuild).
    split; [exact Hreg |]. split; [now apply Hmem |]. split.
    + apply Hbuild; [exact Hc |]. eapply processClasses_throw_new; eassumption.
    + intros later Hlater.
      assert (Forall (fun cls => cls ∈ processedClasses (processClasses classNames s).1)
                later) as Hall.
      { rewrite Forall_forall in *. intros x Hx. now apply Hreg, Hlater. }
      destruct (skip_frame later _ Hall) as (_ & _ & _ & _ & Hskip). now apply Hskip.
Qed.

(** ** Further properties of the code *)

(** *** Class strings *)

Lemma append_String (c : ascii) (r s : string) :
  (String c r ++ s)%string = String c (r ++ s)%string.
Proof. reflexivity. Qed.

Lemma append_Empty (s : string) : (EmptyString ++ s)%string = s.
Proof. reflexivity. Qed.

Lemma append_Empty_r (s : string) : (s ++ EmptyString)%string = s.
Proof. induction s as [| c r IH]; [reflexivity |]. now rewrite append_String, IH. Qed.

Lemma tokens_cons (c : ascii) (r : string) :
  tokens (String c r)
  = if JsString.is_whitespace c then tokens r
    else match r with
         | EmptyString => [String c EmptyString]
         | String c' _ =>
             if JsString.is_whitespace c' then String c EmptyString :: tokens r
             else match tokens r with
                  | w :: ws => String c w :: ws
                  | [] => [String c EmptyString]
                  end
         end.
Proof. reflexivity. Qed.

(** A string that starts with a code unit that is not whitespace has a
    first token. *)
Lemma tokens_head (c : ascii) (r : string) :
  JsString.is_whitespace c = false ->
  exists w ws, tokens (String c r) = String c w :: ws.
Proof.
  intros Ec. rewrite tokens_cons, Ec. destruct r as [| c' r']; [eauto |].
  destruct (JsString.is_whitespace c'); [eauto |].
  destruct (tokens (String c' r')); eauto.
Qed.

Lemma solid_cons (c : ascii) (w : string) :
  JsString.is_whitespace c = false -> solid w = true -> solid (String c w) = true.
Proof.
  unfold solid. intros Ec [_ Hw]%andb_prop. cbn. now rewrite Ec, Hw.
Qed.

Lemma solid_unit (c : ascii) :
  JsString.is_whitespace c = false -> solid (String c EmptyString) = true.
Proof. intros Ec. unfold solid. cbn. now rewrite Ec. Qed.

Lemma tokens_solid (s : string) : Forall (fun t => solid t = true) (tokens s).
Proof.
  induction s as [| c r IH]; [constructor |]. rewrite tokens_cons.
  destruct (JsString.is_whitespace c) eqn:Ec; [exact IH |].
  destruct r as [| c' r']; [repeat constructor; now apply solid_unit |].
  destruct (JsString.is_whitespace c') eqn:Ec'.
  - constructor; [now apply solid_unit | exact IH].
  - destruct (tokens (String c' r')) as [| w ws].
    + repeat constructor. now apply solid_unit.
    + apply Forall_cons in IH as [Hw Hws]. constructor; [| exact Hws].
      now apply solid_cons.
Qed.

Lemma glue_cons (x : string) (l : list string) : glue (x :: l) = (x ++ glue l)%string.
Proof. reflexivity. Qed.

Lemma tokens_glue (s : string) : glue (tokens s) = strip s.
Proof.
  induction s as [| c r IH]; [reflexivity |]. rewrite tokens_cons. cbn [strip].
  destruct (JsString.is_whitespace c) eqn:Ec; [exact IH |].
  destruct r as [| c' r']; [reflexivity |].
  destruct (JsString.is_whitespace c') eqn:Ec'.
  - rewrite glue_cons, IH. reflexivity.
  - destruct (tokens_head c' r' Ec') as (w & ws & Hw). rewrite Hw in *.
    rewrite glue_cons in *. rewrite <- IH. reflexivity.
Qed.

(** The tokens of a class name: the name itself. *)
Lemma tokens_of_solid (s : string) : solid s = true -> tokens s = [s].
Proof.
  induction s as [| c r IH]; [discriminate |].
  intros H. unfold solid in H. cbn in H. apply andb_prop in H as [Ec Hr].
  apply negb_true_iff in Ec.
  rewrite tokens_cons, Ec. destruct r as [| c' r']; [reflexivity |].
  assert (solid (String c' r') = true) as Hs by exact Hr.
  cbn in Hr. apply andb_prop in Hr as [Ec' _].
  apply negb_true_iff in Ec'. rewrite Ec'. now rewrite (IH Hs).
Qed.

Lemma tokens_blank (s : string) : tokens s = [] <-> blank s = true.
Proof.
  induction s as [| c r IH]; [now split |]. rewrite tokens_cons.
  unfold blank in *. cbn [all_units].
  destruct (JsString.is_whitespace c) eqn:Ec; [exact IH |].
  cbn [andb]. split; [| discriminate].
  destruct (tokens_head c r Ec) as (w & ws & Hw).
  rewrite tokens_cons, Ec in Hw. rewrite Hw. discriminate.
Qed.

Lemma tokens_skip_blank (b s : string) : blank b = true -> tokens (b ++ s) = tokens s.
Proof.
  induction b as [| c r IH]; [reflexivity |].
  unfold blank. cbn [all_units]. intros [Ec Hr]%andb_prop.
  rewrite ?append_String, ?append_Empty. rewrite tokens_cons, Ec. now apply IH.
Qed.

(** Whitespace between two strings keeps their tokens apart. *)
Lemma tokens_app_ws (s1 s2 : string) (c : ascii) :
  JsString.is_whitespace c = true ->
  tokens (s1 ++ String c s2) = tokens s1 ++ tokens s2.
Proof.
  intros Ec. induction s1 as [| a r IH].
  - rewrite ?append_String, ?append_Empty. rewrite tokens_cons, Ec. reflexivity.
  - rewrite ?append_String, ?append_Empty. rewrite !tokens_cons.
    destruct (JsString.is_whitespace a) eqn:Ea; [exact IH |].
    destruct r as [| c' r'].
    + rewrite ?append_String, ?append_Empty in *. rewrite Ec, IH. reflexivity.
    + rewrite ?append_String, ?append_Empty in *.
      destruct (JsString.is_whitespace c') eqn:Ec'; [now rewrite IH |].
      rewrite IH. destruct (tokens_head c' r' Ec') as (w & ws & Hw).
      rewrite Hw. reflexivity.
Qed.

Lemma tokens_join (l : list string) :
  Forall (fun t => solid t = true) l -> tokens (JsString.join " " l) = l.
Proof.
  induction l as [| x r IH]; [reflexivity |].
  intros [Hx Hr]%Forall_cons. destruct r as [| y r'].
  - cbn. now apply tokens_of_solid.
  - change (JsString.join " " (x :: y :: r'))
      with (x ++ String " " (JsString.join " " (y :: r')))%string.
    rewrite tokens_app_ws by reflexivity.
    rewrite IH by exact Hr. now rewrite tokens_of_solid.
Qed.

(** X1.  Every name [parseClassString] returns is a class name: it is not
    empty and holds no whitespace.  The names are cut out of the input
    and nothing else: put together again they are the input without its
    whitespace, so no code unit is lost, added or moved. *)
Theorem parsed_names_are_solid (input : string) :
  Forall (fun name => solid name = true) (parseClassString input)
  /\ glue (parseClassString input) = strip input.
Proof.
  rewrite parseClassString_tokens. split; [apply tokens_solid | apply tokens_glue].
Qed.

(** X2.  Joining class names with single spaces and parsing the result
    gives the names back.  So parsing, joining and parsing again gives
    what parsing once gives. *)
Theorem parse_join_round_trip :
  (forall names : list string,
      Forall (fun name => solid name = true) names ->
      parseClassString (JsString.join " " names) = names)
  /\
  (forall input : string,
      parseClassString (JsString.join " " (parseClassString input))
      = parseClassString input).
Proof.
  split.
  - intros names H. rewrite parseClassString_tokens. now apply tokens_join.
  - intros input. rewrite !parseClassString_tokens. apply tokens_join, tokens_solid.
Qed.

(** X3.  [parseClassString] returns no name exactly when its input is
    whitespace only, the empty string included: the one empty piece that
    splitting such an input leaves is filtered out. *)
Theorem parse_blank (input : string) :
  parseClassString input = [] <-> blank input = true.
Proof. rewrite parseClassString_tokens. apply tokens_blank. Qed.

(** X4.  Parsing two strings with whitespace between them gives the names
    of the first followed by the names of the second, however long the
    whitespace is; whitespace at either end of the input adds nothing. *)
Theorem parse_append :
  (forall (s1 gap s2 : string),
      blank gap = true -> gap <> EmptyString ->
      parseClassString (s1 ++ gap ++ s2) = parseClassString s1 ++ parseClassString s2)
  /\
  (forall (before input after : string),
      blank before = true -> blank after = true ->
      parseClassString (before ++ input ++ after) = parseClassString input).
Proof.
  split.
  - intros s1 gap s2 Hgap Hne. rewrite !parseClassString_tokens.
    destruct gap as [| c g]; [congruence |].
    unfold blank in Hgap. cbn [all_units] in Hgap.
    apply andb_prop in Hgap as [Ec Hg]. rewrite ?append_String, ?append_Empty.
    rewrite tokens_app_ws by exact Ec. now rewrite tokens_skip_blank.
  - intros before input after Hb Ha. rewrite !parseClassString_tokens.
    rewrite tokens_skip_blank by exact Hb.
    destruct after as [| c g]; [now rewrite append_Empty_r |].
    unfold blank in Ha. cbn [all_units] in Ha. apply andb_prop in Ha as [Ec Hg].
    rewrite tokens_app_ws by exact Ec.
    replace g with (g ++ EmptyString)%string by apply append_Empty_r.
    rewrite tokens_skip_blank by exact Hg. cbn. apply app_nil_r.
Qed.

(** *** The entry point *)

Lemma active_tokens_solid (inputs : list input) :
  Forall (fun name => solid name = true) (flat_map active_tokens inputs).
Proof.
  induction inputs as [| i r IH]; [constructor |]. cbn [flat_map].
  apply Forall_app. split; [| exact IH].
  destruct i as [s | b | | | entries]; cbn [active_tokens]; try constructor.
  - rewrite parseClassString_tokens. apply tokens_solid.
  - induction (List.filter snd entries) as [| e es IHe]; [constructor |].
    cbn [flat_map]. apply Forall_app. split; [| exact IHe].
    rewrite parseClassString_tokens. apply tokens_solid.
Qed.

Lemma active_sublist (i : input) : active_tokens i `sublist_of` candidate_tokens i.
Proof.
  destruct i as [s | b | | | entries]; cbn [active_tokens candidate_tokens];
    try reflexivity.
  induction entries as [| [k v] r IH]; [constructor |].
  cbn [List.filter flat_map snd]. destruct v; cbn [flat_map fst].
  - apply sublist_app; [reflexivity | exact IH].
  - now apply sublist_inserts_l.
Qed.

Lemma active_candidates_sublist (inputs : list input) :
  flat_map active_tokens inputs `sublist_of` flat_map candidate_tokens inputs.
Proof.
  induction inputs as [| i r IH]; [constructor |]. cbn [flat_map].
  apply sublist_app; [apply active_sublist | exact IH].
Qed.

Lemma tw_spec (inputs : list input) (m : machine) :
  tw inputs m
  = (JsString.join " " (flat_map active_tokens inputs),
     queueClassProcessing (flat_map candidate_tokens inputs) m).
Proof. unfold tw, tw_collect. now rewrite tw_collect_spec. Qed.

(** X5.  The string [tw] returns parses back into exactly the class names
    it was made of.  So [tw] applied to its own result returns the same
    string; the task that call queues holds the names of the string
    only, not the names of mapping keys whose value was falsy. *)
Theorem tw_result_parses_back (inputs : list input) (m m' : machine) :
  parseClassString (tw inputs m).1 = resultClasses (tw_collect inputs)
  /\ tw [InString (tw inputs m).1] m'
     = ((tw inputs m).1, queueClassProcessing (resultClasses (tw_collect inputs)) m').
Proof.
  assert (parseClassString (tw inputs m).1 = flat_map active_tokens inputs) as Hparse.
  { rewrite tw_spec. cbn [fst]. rewrite parseClassString_tokens.
    apply tokens_join, active_tokens_solid. }
  assert (resultClasses (tw_collect inputs) = flat_map active_tokens inputs) as Hres.
  { unfold tw_collect. now rewrite tw_collect_spec. }
  rewrite Hres. split; [exact Hparse |].
  rewrite (tw_spec [InString _]). cbn [flat_map active_tokens candidate_tokens].
  rewrite !app_nil_r, Hparse. now rewrite (tw_spec inputs).
Qed.

(** X6.  The names in the string [tw] returns are among the names it
    queues, in the same order: every class the caller puts on an element
    is handed to the compiler.  The two lists are equal when no mapping
    has a falsy value. *)
Theorem tw_result_is_queued (inputs : list input) :
  resultClasses (tw_collect inputs) `sublist_of` allClassesToProcess (tw_collect inputs)
  /\ (forall (m : machine) (name : string),
        name ∈ parseClassString (tw inputs m).1 ->
        name ∈ allClassesToProcess (tw_collect inputs))
  /\ ((forall entries, InObject entries ∈ inputs -> Forall (fun e => e.2 = true) entries) ->
      resultClasses (tw_collect inputs) = allClassesToProcess (tw_collect inputs)).
Proof.
  assert (tw_collect inputs
          = TwAcc (flat_map active_tokens inputs) (flat_map candidate_tokens inputs)) as H
    by (unfold tw_collect; now rewrite tw_collect_spec).
  rewrite H. cbn [resultClasses allClassesToProcess].
  split; [apply active_candidates_sublist |]. split.
  - intros m name Hin. eapply elem_of_sublist; [| apply active_candidates_sublist].
    rewrite tw_spec in Hin. cbn [fst] in Hin.
    rewrite parseClassString_tokens, tokens_join in Hin by apply active_tokens_solid.
    exact Hin.
  - intros Hall. clear H. induction inputs as [| i r IH]; [reflexivity |].
    cbn [flat_map]. rewrite IH by (intros entries Hin; apply Hall; now right).
    f_equal. destruct i as [s | b | | | entries]; try reflexivity.
    cbn [active_tokens candidate_tokens].
    assert (Forall (fun e : string * bool => e.2 = true) entries) as He
      by (apply Hall; now left).
    clear -He. induction He as [| [k v] es Hv _ IHe]; [reflexivity |].
    cbn in Hv. subst v. cbn [List.filter snd flat_map]. now rewrite IHe.
Qed.

(** *** A build task, case by case *)

(** Filtering out the registered names before adding the rest gives the
    registry that adding every name gives. *)
Lemma fold_add_filter (l registry r : list string) :
  (forall x, x ∈ registry -> x ∈ r) ->
  fold_left JsSet.add (new_names l registry) r = fold_left JsSet.add l r.
Proof.
  revert r. induction l as [| x l IH]; intros r Hsub; [reflexivity |].
  unfold new_names in *. cbn [List.filter fold_left].
  destruct (JsSet.has x registry) eqn:E; cbn [negb fold_left].
  - apply has_true in E. rewrite (add_present r x) by now apply Hsub.
    now apply IH.
  - apply IH. intros y Hy. apply elem_of_add. left. now apply Hsub.
Qed.

Lemma fold_add_new_names (l registry : list string) :
  fold_left JsSet.add (new_names l registry) registry = fold_left JsSet.add l registry.
Proof. now apply fold_add_filter. Qed.

Lemma fold_add_length_le (l r : list string) :
  length (fold_left JsSet.add l r) <= length r + length l.
Proof.
  revert r. induction l as [| x l IH]; intros r; cbn [fold_left length]; [lia |].
  specialize (IH (JsSet.add r x)). unfold JsSet.add in *.
  destruct (JsSet.has x r); [lia |]. rewrite length_app in IH. cbn in IH. lia.
Qed.

Lemma fold_add_length_eq (l r : list string) :
  length (fold_left JsSet.add l r) = length r + length l
  <-> NoDup l /\ forall x, x ∈ l -> x ∉ r.
Proof.
  revert r. induction l as [| x l IH]; intros r; cbn [fold_left length].
  - split; [intros _ | lia]. split; [constructor | intros x Hx; now apply elem_of_nil in Hx].
  - specialize (IH (JsSet.add r x)). pose proof (fold_add_length_le l (JsSet.add r x)) as Hle.
    unfold JsSet.add in *. destruct (JsSet.has x r) eqn:E.
    + apply has_true in E. split; [lia |]. intros [_ H]. exfalso. apply (H x); [left | exact E].
    + apply has_false in E. rewrite length_app in *. cbn [length] in *.
      rewrite NoDup_cons. split.
      * intros H. destruct IH as [IH _]. destruct IH as [Hnd Hdis]; [lia |].
        split; [split; [| exact Hnd] |].
        -- intros Hx. apply (Hdis x Hx). apply elem_of_app. right. left.
        -- intros y [-> | Hy]%elem_of_cons; [exact E |].
           intros Hr. apply (Hdis y Hy). apply elem_of_app. now left.
      * intros [[Hx Hnd] Hdis]. destruct IH as [_ IH]. rewrite IH; [lia |].
        split; [exact Hnd |]. intros y Hy [Hr | ->%list_elem_of_singleton]%elem_of_app.
        -- apply (Hdis y); [now right | exact Hr].
        -- contradiction.
Qed.

(** What [process_new] returns and leaves, in each of its cases. *)
Lemma process_new_cases (classNames : list string) (s : store) :
  let new := new_names classNames (processedClasses s) in
  let registry := fold_left JsSet.add new (processedClasses s) in
  process_new classNames s
  = match new with
    | [] => (s, Return tt)
    | _ :: _ =>
        match compiler s with
        | None =>
            (Store None registry (sheet s) (trace s ++ [IStart "Process new classes"]),
             Throw (TypeError "build"))
        | Some c =>
            match engine_build c registry with
            | (c', Throw e) =>
                (Store (Some c') registry (sheet s)
                   (trace s ++ [IStart "Process new classes"; CallBuild registry]),
                 Throw e)
            | (c', Return compiledCss) =>
                match sheet s with
                | None =>
                    (Store (Some c') registry None
                       (trace s ++ [IStart "Process new classes"; CallBuild registry]),
                     Throw (TypeError "textContent"))
                | Some _ =>
                    (Store (Some c') registry (Some compiledCss)
                       (trace s ++ [IStart "Process new classes"; CallBuild registry;
                                    IEndProcess (length new) (length registry)]),
                     Return tt)
                end
            end
        end
    end.
Proof.
  cbn zeta. unfold process_new, JsSet.to_array.
  destruct (new_names classNames (processedClasses s)) as [| x l] eqn:E; [reflexivity |].
  cbn [length Nat.eqb]. cbn -[fold_left].
  destruct (compiler s) as [c |] eqn:Ec; [| unfold set_processedClasses; cbn; now rewrite Ec].
  destruct (engine_build c _) as [c' [css | e]]; cbn -[fold_left].
  - destruct (sheet s) eqn:Es;
      unfold record, set_sheet, set_compiler, set_processedClasses; cbn -[fold_left];
      now rewrite ?Es, <- ?app_assoc.
  - unfold record, set_sheet, set_compiler, set_processedClasses; cbn -[fold_left].
    now rewrite <- ?app_assoc.
Qed.

(** X7.  The filter of [processClasses] saves work and nothing else: the
    registry a task leaves is the one that adding each of its names in
    turn gives, however the task ends.  So the registry does not depend
    on how the names were spread over calls: a task with the names of
    two tasks leaves the registry those two leave one after the other,
    and when the compiler is installed or can be, the tasks of a list
    leave the registry that adding all their names in order gives. *)
Theorem registry_is_independent_of_batching :
  (forall (classNames : list string) (s : store),
      processedClasses (process_new classNames s).1
      = fold_left JsSet.add classNames (processedClasses s))
  /\
  (forall (first second : list string) (s : store),
      processedClasses (process_new (first ++ second) s).1
      = processedClasses (process_new second (process_new first s).1).1)
  /\
  (forall (tasks : list (list string)) (n : nat) (s : store),
      is_Some (compiler s) \/ (exists c, tailwind_compile default_css = Return c) ->
      processedClasses (run_in_order n tasks s)
      = fold_left JsSet.add (concat tasks) (processedClasses s)).
Proof.
  assert (forall classNames s,
             processedClasses (process_new classNames s).1
             = fold_left JsSet.add classNames (processedClasses s)) as Hone
    by (intros; now rewrite process_new_registry, fold_add_new_names).
  split; [exact Hone |]. split.
  - intros first second s. now rewrite !Hone, fold_left_app.
  - intros tasks. induction tasks as [| cs r IH]; intros n s Hc; [reflexivity |].
    cbn [run_in_order concat]. rewrite fold_left_app.
    assert (processedClasses (task_alone n cs s) = fold_left JsSet.add cs (processedClasses s)
            /\ is_Some (compiler (task_alone n cs s))) as [Hr Hc'].
    { unfold task_alone.
      destruct (finish_task_frame n (processClasses cs (record [TaskBegin n] s)))
        as (-> & -> & _).
      pose proof (processClasses_cases cs (record [TaskBegin n] s)) as H.
      change (compiler (record [TaskBegin n] s)) with (compiler s) in H.
      destruct (compiler s) as [c0 |] eqn:Ec.
      - rewrite H, Hone. split; [reflexivity |].
        apply process_new_compiler. cbn. rewrite Ec. eauto.
      - destruct Hc as [[c0 Hc0] | [c Hc]]; [discriminate |].
        cbn zeta in H. rewrite Hc in H. rewrite H, Hone. split; [reflexivity |].
        apply process_new_compiler. cbn. eauto. }
    rewrite IH by (now left). now rewrite Hr.
Qed.

(** X8.  [initializeCompiler] closes the two spans it opens whether the
    compile succeeds or throws: its events are the two starts, the
    compile call, one [I.hit] event for each [loadStylesheet] call the
    compile made, in the order of the calls, and the two ends, either
    way.  [processClasses] does not: from its filter on it records
    nothing when no name is new; it opens its span, calls [build] and
    closes the span with the two numbers when it returns after a build;
    and when it throws, in [build] or at the style element, the span it
    opened stays open. *)
Theorem spans_of_a_task :
  (forall (customCss : option string) (s : store),
      let css := default default_css customCss in
      trace (initializeCompiler customCss s).1
      = trace s
          ++ [IStart "Initialize compiler"; IStart "Compile CSS"; CallCompile css]
          ++ compile_hits css
          ++ [IEnd "Compile CSS"; IEnd "Initialize compiler"]
      /\ compile_hits css
         = flat_map (fun call =>
                       (loadStylesheet (asset_index assets) (asset_preflight assets)
                          (asset_theme assets) (asset_utilities assets) call.1 call.2).1)
             (compile_loads css)
      /\ length (compile_hits css) = length (compile_loads css))
  /\
  (forall (classNames : list string) (s : store),
      let r := process_new classNames s in
      let new := new_names classNames (processedClasses s) in
      match r.2 with
      | Return _ =>
          (new = [] /\ trace r.1 = trace s)
          \/ (new <> []
              /\ trace r.1
                 = trace s ++ [IStart "Process new classes";
                               CallBuild (processedClasses r.1);
                               IEndProcess (length new) (length (processedClasses r.1))])
      | Throw _ =>
          new <> []
          /\ (trace r.1 = trace s ++ [IStart "Process new classes"]
              \/ trace r.1 = trace s ++ [IStart "Process new classes";
                                         CallBuild (processedClasses r.1)])
      end).
Proof.
  split.
  - intros customCss s. cbn zeta.
    pose proof (initializeCompiler_cases customCss s) as H. cbn zeta in H.
    split; [destruct (tailwind_compile _); rewrite H; reflexivity |].
    split; [reflexivity |].
    unfold compile_hits. induction (compile_loads _) as [| call r IH]; [reflexivity |].
    cbn [flat_map]. rewrite length_app, IH. unfold loadStylesheet.
    now destruct (load _ _ _ _ _ _).
  - intros classNames s. cbn zeta. rewrite process_new_cases. cbn zeta.
    destruct (new_names classNames (processedClasses s)) as [| x l]; [now left |].
    destruct (compiler s) as [c |]; [| split; [discriminate | now left]].
    destruct (engine_build c _) as [c' [css | e]].
    + destruct (sheet s).
      * right. split; [discriminate | reflexivity].
      * split; [discriminate | now right].
    + split; [discriminate | now right].
Qed.

(** X9.  The numbers [processClasses] passes to [I.end] when it returns
    after a build: [count] is the number of entries of [classNames] that
    were not registered, each counted as often as it occurs, and [total]
    is the size of the registry.  The registry has grown by at least one
    name and by at most [count]; it has grown by [count] exactly when
    the new entries are pairwise different. *)
Theorem count_and_total (classNames : list string) (s : store) :
  (process_new classNames s).2 = Return tt ->
  new_names classNames (processedClasses s) <> [] ->
  let s' := (process_new classNames s).1 in
  let count := length (new_names classNames (processedClasses s)) in
  let total := length (processedClasses s') in
  last (trace s') = Some (IEndProcess count total)
  /\ length (processedClasses s) < total <= length (processedClasses s) + count
  /\ (total = length (processedClasses s) + count
      <-> NoDup (new_names classNames (processedClasses s))).
Proof.
  intros Hret Hnew. cbn zeta.
  assert (processedClasses (process_new classNames s).1
          = fold_left JsSet.add (new_names classNames (processedClasses s))
              (processedClasses s)) as Hreg by apply process_new_registry.
  split; [| split; [split |]].
  - revert Hret. rewrite process_new_cases. cbn zeta.
    destruct (new_names classNames (processedClasses s)) as [| x l]; [congruence |].
    destruct (compiler s) as [c |]; [| discriminate].
    destruct (engine_build c _) as [c' [css | e]]; [| discriminate].
    destruct (sheet s); [| discriminate]. intros _. cbn [fst trace processedClasses].
    now rewrite last_app.
  - rewrite Hreg.
    destruct (new_names classNames (processedClasses s)) as [| x l] eqn:E; [congruence |].
    assert (x ∈ new_names classNames (processedClasses s)) as Hx by (rewrite E; left).
    apply elem_of_new_names in Hx as [_ Hx].
    destruct (fold_add_prefix (x :: l) (processedClasses s)) as [k Hk].
    rewrite Hk, length_app. destruct k as [| y k]; [| cbn; lia].
    exfalso. apply Hx. rewrite app_nil_r in Hk. rewrite <- Hk.
    apply elem_of_fold_add. right. left.
  - rewrite Hreg. apply fold_add_length_le.
  - rewrite Hreg, fold_add_length_eq. split; [tauto |]. intros Hnd.
    split; [exact Hnd |]. intros x Hx. now apply elem_of_new_names in Hx.
Qed.

(** *** The style element *)

Lemma process_new_sheet_cases (classNames : list string) (s : store) :
  let s' := (process_new classNames s).1 in
  sheet s' = sheet s
  \/ exists c c' css old,
       compiler s = Some c /\ sheet s = Some old
       /\ engine_build c (processedClasses s') = (c', Return css)
       /\ sheet s' = Some css.
Proof.
  cbn zeta. rewrite process_new_cases. cbn zeta.
  destruct (new_names classNames (processedClasses s)) as [| x l]; [now left |].
  destruct (compiler s) as [c |]; [| now left].
  destruct (engine_build c _) as [c' [css | e]] eqn:Eb; [| now left].
  destruct (sheet s) as [old |]; [| now left].
  right. exists c, c', css, old. cbn [fst processedClasses sheet]. auto.
Qed.

(** What one move of the event loop does to the style element. *)
Lemma perform_sheet (a : action) (m m' : machine) :
  perform a m = Some m' ->
  sheet (mem m') = sheet (mem m)
  \/ (sheet (mem m) = None /\ sheet (mem m') = Some "" /\ is_Some (compiler (mem m')))
  \/ exists c c' css old,
       compiler (mem m) = Some c /\ sheet (mem m) = Some old
       /\ engine_build c (processedClasses (mem m')) = (c', Return css)
       /\ sheet (mem m') = Some css.
Proof.
  intros Hstep.
  destruct (perform_mem a m m' Hstep)
    as [-> | [[css ->] | [[css ->] | [[n ->] | [(n & cs & -> & _) | [(n & cs & -> & _) | (n & cs & r & -> & _)]]]]]].
  - now left.
  - now left.
  - pose proof (initializeCompiler_settle_cases css (mem m)) as H. cbn zeta in H.
    destruct (tailwind_compile _) as [c | e]; rewrite H; cbn; [| now left].
    destruct (sheet (mem m)); [now left | right; left; eauto].
  - now left.
  - destruct (process_new_sheet_cases cs (record [TaskBegin n] (mem m))) as [H | H];
      [now left | now right; right].
  - destruct (process_new_sheet_cases cs (mem m)) as [H | H]; [now left | now right; right].
  - left. now destruct (finish_task_frame n (mem m, r)) as (_ & _ & -> & _).
Qed.

(** X10.  Who writes the style element.  A move of the event loop leaves
    it as it is, or creates it, empty, at the end of an initialization
    that succeeded, or replaces its text by what a [build] call that
    returned gave for the whole registry; a [build] call that throws
    leaves the text it had.  Once there, the element is never taken
    away. *)
Theorem style_element_writers :
  (forall (a : action) (m m' : machine),
      perform a m = Some m' ->
      sheet (mem m') = sheet (mem m)
      \/ (sheet (mem m) = None /\ sheet (mem m') = Some "" /\ is_Some (compiler (mem m')))
      \/ exists c c' css old,
           compiler (mem m) = Some c /\ sheet (mem m) = Some old
           /\ engine_build c (JsSet.to_array (processedClasses (mem m'))) = (c', Return css)
           /\ sheet (mem m') = Some css)
  /\
  (forall (classNames : list string) (s : store) (e : exn),
      (process_new classNames s).2 = Throw e ->
      sheet (process_new classNames s).1 = sheet s)
  /\
  (forall m m' : machine,
      rtc step m m' -> is_Some (sheet (mem m)) -> is_Some (sheet (mem m'))).
Proof.
  split; [exact perform_sheet |]. split.
  - intros classNames s e. rewrite process_new_cases. cbn zeta.
    destruct (new_names classNames (processedClasses s)) as [| x l]; [discriminate |].
    destruct (compiler s) as [c |]; [| reflexivity].
    destruct (engine_build c _) as [c' [css | e']]; [| reflexivity].
    destruct (sheet s); [discriminate | reflexivity].
  - intros m m' Hrun. induction Hrun as [| m1 m2 m3 [a Ha] _ IH]; [tauto |].
    intros Hs. apply IH.
    destruct (perform_sheet a m1 m2 Ha) as [-> | [(_ & -> & _) | (c & c' & css & old & _ & _ & _ & ->)]];
      eauto.
Qed.

(** *** What the engine is given *)

Lemma candidate_tokens_solid (inputs : list input) :
  Forall (fun name => solid name = true) (flat_map candidate_tokens inputs).
Proof.
  induction inputs as [| i r IH]; [constructor |]. cbn [flat_map].
  apply Forall_app. split; [| exact IH].
  destruct i as [s | b | | | entries]; cbn [candidate_tokens]; try constructor.
  - rewrite parseClassString_tokens. apply tokens_solid.
  - induction entries as [| e es IHe]; [constructor |].
    cbn [flat_map]. apply Forall_app. split; [| exact IHe].
    rewrite parseClassString_tokens. apply tokens_solid.
Qed.

(** What one move of the event loop does to the queue: a call of [tw]
    appends a link; every other move leaves the queue or changes how far
    one link has got. *)
Lemma perform_queue (a : action) (m m' : machine) :
  perform a m = Some m' ->
  (exists inputs,
      buildQueue m' = buildQueue m ++ [(flat_map candidate_tokens inputs, Pending)])
  \/ buildQueue m' = buildQueue m
  \/ exists n cs st st',
       buildQueue m !! n = Some (cs, st)
       /\ buildQueue m' = <[n := (cs, st')]> (buildQueue m).
Proof.
  destruct a as [inputs | css | i | n | n | n | n]; cbn [perform].
  - intros [= <-]. left. exists inputs. unfold tw, tw_collect.
    now rewrite tw_collect_spec.
  - intros [= <-]. now right; left.
  - unfold settle_initializeCompiler. destruct (inits m !! i); [| discriminate].
    intros [= <-]. now right; left.
  - unfold begin_task.
    destruct (buildQueue m !! n) as [[cs []] |] eqn:El; try discriminate.
    destruct (predecessor_settled n (buildQueue m));
      [| rejected_predecessor ltac:(right; right; eauto 10)].
    destruct (compiler _); intros [= <-]; right; right; cbn [buildQueue]; eauto 10.
  - unfold initialize_task.
    destruct (buildQueue m !! n) as [[cs []] |] eqn:El; try discriminate.
    intros [= <-]. right; right; cbn [buildQueue]; eauto 10.
  - unfold continue_task.
    destruct (buildQueue m !! n) as [[cs []] |] eqn:El; try discriminate.
    intros [= <-]. right; right; cbn [buildQueue]; eauto 10.
  - rewrite settle_task_eq.
    destruct (buildQueue m !! n) as [[cs []] |] eqn:El; try discriminate.
    intros [= <-]. right; right; cbn [buildQueue]; eauto 10.
Qed.

(** What one move of the event loop does to the registry: nothing, or it
    adds the names of a link of the queue. *)
Lemma perform_names (a : action) (m m' : machine) :
  perform a m = Some m' ->
  processedClasses (mem m') = processedClasses (mem m)
  \/ exists n cs st,
       buildQueue m !! n = Some (cs, st)
       /\ processedClasses (mem m') = fold_left JsSet.add cs (processedClasses (mem m)).
Proof.
  destruct a as [inputs | css | i | n | n | n | n]; cbn [perform].
  - intros [= <-]. now left.
  - intros [= <-]. now left.
  - unfold settle_initializeCompiler. destruct (inits m !! i) as [css |]; [| discriminate].
    intros [= <-]. left. apply initializeCompiler_settle_frame.
  - unfold begin_task.
    destruct (buildQueue m !! n) as [[cs []] |] eqn:El; try discriminate.
    destruct (predecessor_settled n (buildQueue m));
      [| rejected_predecessor ltac:(now left)].
    destruct (compiler _); intros [= <-]; cbn [mem]; [| now left].
    right. exists n, cs, Pending. split; [exact El |].
    now rewrite process_new_registry, fold_add_new_names.
  - unfold initialize_task.
    destruct (buildQueue m !! n) as [[cs []] |] eqn:El; try discriminate.
    intros [= <-]. left. apply initializeCompiler_settle_frame.
  - unfold continue_task.
    destruct (buildQueue m !! n) as [[cs []] |] eqn:El; try discriminate.
    intros [= <-]; cbn [mem]. right. exists n, cs, Initialized. split; [exact El |].
    now rewrite process_new_registry, fold_add_new_names.
  - rewrite settle_task_eq.
    destruct (buildQueue m !! n) as [[cs []] |] eqn:El; try discriminate.
    intros [= <-]; cbn [mem]. left.
    now destruct (finish_task_frame n (mem m, r)) as (_ & -> & _).
Qed.

(** Every name in the queue and in the registry is a class name. *)
Lemma solid_reachable (m : machine) :
  reachable m ->
  Forall (fun t => Forall (fun name => solid name = true) t.1) (buildQueue m)
  /\ Forall (fun name => solid name = true) (processedClasses (mem m)).
Proof.
  intros H.
  apply (rtc_ind_r (R := step)
           (fun m => Forall (fun t => Forall (fun name => solid name = true) t.1) (buildQueue m)
                     /\ Forall (fun name => solid name = true) (processedClasses (mem m)))
           initial); [split; constructor | | exact H].
  intros m1 m2 _ [a Ha] [Hq Hr]. split.
  - destruct (perform_queue a m1 m2 Ha) as [[inputs ->] | [-> | (n & cs & st & st' & El & ->)]].
    + apply Forall_app. split; [exact Hq |]. constructor; [| constructor].
      apply candidate_tokens_solid.
    + exact Hq.
    + apply Forall_insert; [exact Hq |].
      apply (Forall_lookup_1 _ _ _ _ Hq) in El. exact El.
  - destruct (perform_names a m1 m2 Ha) as [-> | (n & cs & st & El & ->)]; [exact Hr |].
    apply (Forall_lookup_1 _ _ _ _ Hq) in El. cbn in El.
    rewrite Forall_forall in *. intros x [Hx | Hx]%elem_of_fold_add; auto.
Qed.

(** The arguments of the [build] calls so far: each starts the registry,
    and each is longer than the ones before it. *)
Lemma builds_reachable (m : machine) :
  reachable m ->
  Forall (fun b => b <> [] /\ b `prefix_of` processedClasses (mem m))
    (builds (trace (mem m)))
  /\ (forall i j b1 b2,
        i < j ->
        builds (trace (mem m)) !! i = Some b1 ->
        builds (trace (mem m)) !! j = Some b2 ->
        length b1 < length b2).
Proof.
  intros H.
  apply (rtc_ind_r (R := step)
           (fun m =>
              Forall (fun b => b <> [] /\ b `prefix_of` processedClasses (mem m))
                (builds (trace (mem m)))
              /\ (forall i j b1 b2,
                    i < j ->
                    builds (trace (mem m)) !! i = Some b1 ->
                    builds (trace (mem m)) !! j = Some b2 ->
                    length b1 < length b2))
           initial); [| | exact H].
  { split; [constructor |]. intros i j b1 b2 _ Hi. discriminate. }
  intros m1 m2 _ [a Ha] [Hp Hs].
  pose proof (perform_prefix a m1 m2 Ha) as Hpre.
  assert (Forall (fun b => b <> [] /\ b `prefix_of` processedClasses (mem m2))
            (builds (trace (mem m1)))) as Hp'.
  { eapply Forall_impl; [exact Hp |]. intros b [Hne Hb]. split; [exact Hne |].
    etransitivity; [exact Hb | exact Hpre]. }
  destruct (perform_grows a m1 m2 Ha) as [-> | [-> Hlt]]; [now split |]. split.
  - apply Forall_app. split; [exact Hp' |]. constructor; [| constructor].
    split; [| reflexivity]. intros Hnil. rewrite Hnil in Hlt. cbn in Hlt. lia.
  - intros i j b1 b2 Hij H1 H2.
    assert (j < length (builds (trace (mem m1))) \/ j = length (builds (trace (mem m1))))
      as [Hj | ->].
    { apply lookup_lt_Some in H2. rewrite length_app in H2. cbn in H2. lia. }
    + rewrite lookup_app_l in H1, H2 by lia. eauto.
    + rewrite list_lookup_middle in H2 by reflexivity. injection H2 as <-.
      rewrite lookup_app_l in H1 by lia.
      apply (Forall_lookup_1 _ _ _ _ Hp) in H1 as [_ H1]. apply prefix_length in H1. lia.
Qed.

(** X11.  Every name that reaches the queue, the registry or the engine
    is a class name: not empty and free of whitespace.  This holds in
    every state the event loop can reach, since [tw] is the only way
    into the queue and it parses all it is given. *)
Theorem only_class_names_are_processed (m : machine) :
  reachable m ->
  Forall (fun t => Forall (fun name => solid name = true) t.1) (buildQueue m)
  /\ Forall (fun name => solid name = true) (processedClasses (mem m))
  /\ Forall (Forall (fun name => solid name = true)) (builds (trace (mem m))).
Proof.
  intros Hm. destruct (solid_reachable m Hm) as [Hq Hr].
  split; [exact Hq |]. split; [exact Hr |].
  destruct (builds_reachable m Hm) as [Hp _].
  eapply Forall_impl; [exact Hp |]. intros b [_ [k Hk]].
  rewrite Hk in Hr. now apply Forall_app in Hr as [Hb _].
Qed.


(** *** Initialization, again and again *)

(** X13.  Initializing again, say with custom CSS, when the compile
    succeeds: the new engine replaces the old one, and that is all.  The
    registry and the text of the style element stay (an element is
    created, empty, only when there was none) and [build] is not called,
    whether the call runs in one go or settles after other calls.  So
    nothing is rebuilt with the new engine: a task that brings only
    registered names afterwards changes nothing, and the style element
    keeps the text the engine before built until a new name comes. *)
Theorem reinitialize_keeps_styles (customCss : option string) (s : store) (c : Engine) :
  tailwind_compile (default default_css customCss) = Return c ->
  let r := initializeCompiler customCss s in
  r.2 = Return tt
  /\ compiler r.1 = Some c
  /\ processedClasses r.1 = processedClasses s
  /\ sheet r.1 = Some (default "" (sheet s))
  /\ builds (trace r.1) = builds (trace s)
  /\ compiles (trace r.1) = compiles (trace s) ++ [default default_css customCss]
  /\ (forall s0 : store,
        let r0 := initializeCompiler_settle customCss s0 in
        compiler r0.1 = Some c /\ processedClasses r0.1 = processedClasses s0
        /\ sheet r0.1 = Some (default "" (sheet s0))
        /\ builds (trace r0.1) = builds (trace s0))
  /\ (forall classNames : list string,
        Forall (fun cls => cls ∈ processedClasses s) classNames ->
        processClasses classNames r.1 = (r.1, Return tt)).
Proof.
  intros Hc. cbn zeta.
  pose proof (initializeCompiler_cases customCss s) as H. cbn zeta in H.
  rewrite Hc in H. rewrite H. cbn [fst snd compiler processedClasses sheet trace].
  do 4 (split; [reflexivity |]).
  split; [apply builds_init |].
  split; [apply compiles_init |]. split.
  - intros s0. pose proof (initializeCompiler_settle_cases customCss s0) as H0.
    cbn zeta in H0. rewrite Hc in H0. rewrite H0.
    cbn [fst compiler processedClasses sheet trace].
    do 3 (split; [reflexivity |]). apply (settle_events_projections _ _).
  - intros classNames Hall.
    set (s1 := Store _ _ _ _).
    destruct (skip_frame classNames s1 Hall) as (_ & _ & _ & _ & Hskip).
    apply Hskip. cbn. eauto.
Qed.

Lemma task_alone_installed (n : nat) (classNames : list string) (s : store) :
  is_Some (compiler s) ->
  is_Some (compiler (task_alone n classNames s))
  /\ compiles (trace (task_alone n classNames s)) = compiles (trace s).
Proof.
  intros [c0 Hc]. unfold task_alone.
  destruct (finish_task_frame n (processClasses classNames (record [TaskBegin n] s)))
    as (-> & _ & _ & _ & ->).
  pose proof (processClasses_cases classNames (record [TaskBegin n] s)) as H.
  change (compiler (record [TaskBegin n] s)) with (compiler s) in H.
  rewrite Hc in H. rewrite H. split.
  - apply process_new_compiler. cbn. rewrite Hc. eauto.
  - rewrite process_new_compiles. cbn. rewrite compiles_app. cbn. apply app_nil_r.
Qed.

Lemma run_in_order_installed (tasks : list (list string)) (n : nat) (s : store) :
  is_Some (compiler s) ->
  compiles (trace (run_in_order n tasks s)) = compiles (trace s).
Proof.
  revert n s. induction tasks as [| cs r IH]; intros n s Hc; [reflexivity |].
  cbn [run_in_order]. destruct (task_alone_installed n cs s Hc) as [Hc' Hcomp].
  now rewrite IH, Hcomp.
Qed.

(** X14.  How often tasks compile the default CSS.  With a compiler
    installed, never.  Without one, when the compile succeeds: once, in
    the first task, however many tasks follow.  When it throws: once in
    every task, since a failed initialization is not remembered; each
    task reports the error and leaves compiler, registry and style
    element as they were, and [build] is never called. *)
Theorem compile_once_or_every_time :
  (forall (tasks : list (list string)) (n : nat) (s : store),
      is_Some (compiler s) ->
      compiles (trace (run_in_order n tasks s)) = compiles (trace s))
  /\
  (forall (tasks : list (list string)) (n : nat) (s : store) (c : Engine),
      compiler s = None ->
      tailwind_compile default_css = Return c ->
      tasks <> [] ->
      compiles (trace (run_in_order n tasks s)) = compiles (trace s) ++ [default_css])
  /\
  (forall (tasks : list (list string)) (n : nat) (s : store) (e : exn),
      compiler s = None ->
      tailwind_compile default_css = Throw e ->
      let s' := run_in_order n tasks s in
      compiles (trace s') = compiles (trace s) ++ repeat default_css (length tasks)
      /\ reported (trace s') = reported (trace s) ++ repeat e (length tasks)
      /\ builds (trace s') = builds (trace s)
      /\ same_state s' s).
Proof.
  split; [exact run_in_order_installed |]. split.
  - intros tasks n s c Hc Hcomp Hne. destruct tasks as [| cs r]; [congruence |].
    cbn [run_in_order].
    assert (is_Some (compiler (task_alone n cs s))
            /\ compiles (trace (task_alone n cs s)) = compiles (trace s) ++ [default_css])
      as [Hc' Hone].
    { unfold task_alone.
      destruct (finish_task_frame n (processClasses cs (record [TaskBegin n] s)))
        as (-> & _ & _ & _ & ->).
      pose proof (processClasses_cases cs (record [TaskBegin n] s)) as H.
      change (compiler (record [TaskBegin n] s)) with (compiler s) in H.
      rewrite Hc in H. cbn zeta in H. rewrite Hcomp in H. rewrite H. split.
      - apply process_new_compiler. cbn. eauto.
      - rewrite process_new_compiles. cbn. rewrite compiles_init, compiles_app. cbn.
        now rewrite app_nil_r. }
    now rewrite run_in_order_installed, Hone.
  - intros tasks n s e Hc He. cbn zeta. revert n s Hc.
    induction tasks as [| cs r IH]; intros n s Hc.
    { cbn. rewrite !app_nil_r. now repeat split. }
    cbn [run_in_order length repeat].
    assert (task_alone n cs s
            = Store None (processedClasses s) (sheet s)
                (trace s ++ [TaskBegin n] ++ init_events default_css
                   ++ [IError e; TaskEnd n])) as Hone.
    { unfold task_alone.
      pose proof (processClasses_cases cs (record [TaskBegin n] s)) as H.
      change (compiler (record [TaskBegin n] s)) with (compiler s) in H.
      rewrite Hc in H. cbn zeta in H. rewrite He in H. rewrite H.
      unfold finish_task, catch, I_error, record. cbn. now rewrite <- !app_assoc. }
    assert (compiler (task_alone n cs s) = None
            /\ processedClasses (task_alone n cs s) = processedClasses s
            /\ sheet (task_alone n cs s) = sheet s
            /\ compiles (trace (task_alone n cs s)) = compiles (trace s) ++ [default_css]
            /\ reported (trace (task_alone n cs s)) = reported (trace s) ++ [e]
            /\ builds (trace (task_alone n cs s)) = builds (trace s))
      as (Hc1 & Hr1 & Hs1 & Hcomp1 & Hrep1 & Hb1).
    { rewrite Hone. cbn [compiler processedClasses sheet trace].
      rewrite !app_assoc, compiles_app, reported_app, builds_app.
      rewrite compiles_init, reported_init, builds_init.
      rewrite compiles_app, reported_app, builds_app. cbn. rewrite !app_nil_r.
      now repeat split. }
    destruct (IH (S n) (task_alone n cs s) Hc1) as (H1 & H2 & H3 & H4 & H5 & H6).
    rewrite H1, H2, H3, Hcomp1, Hrep1, Hb1, <- !app_assoc.
    repeat split; congruence.
Qed.

(** *** The first call *)

Lemma new_names_empty (classNames : list string) : new_names classNames [] = classNames.
Proof.
  unfold new_names. induction classNames as [| x l IH]; [reflexivity |].
  cbn [List.filter]. rewrite (proj2 (has_false x [])) by apply not_elem_of_nil.
  cbn [negb]. now rewrite IH.
Qed.

(** X15.  The first call of [tw] on a page, from the call to the style
    element.  When the engine compiles the default CSS and builds the
    names of the call, then once the queue has run the engine is
    installed, the registry holds the names of the call, each once and
    in the order they first occurred, falsy mapping keys included, the
    style element holds the CSS [build] returned for them, and nothing
    was reported.  A call that brings no name at all still installs the
    engine and creates the style element, empty, without a [build]
    call. *)
Theorem first_call_paints :
  (forall (inputs : list input) (c c' : Engine) (css : string),
      let names := allClassesToProcess (tw_collect inputs) in
      tailwind_compile default_css = Return c ->
      names <> [] ->
      engine_build c (fold_left JsSet.add names []) = (c', Return css) ->
      let m := run_tasks 4 (tw inputs initial).2 in
      all_settled m
      /\ compiler (mem m) = Some c'
      /\ processedClasses (mem m) = fold_left JsSet.add names []
      /\ sheet (mem m) = Some css
      /\ compiles (trace (mem m)) = [default_css]
      /\ builds (trace (mem m)) = [fold_left JsSet.add names []]
      /\ reported (trace (mem m)) = [])
  /\
  (forall (inputs : list input) (c : Engine),
      tailwind_compile default_css = Return c ->
      allClassesToProcess (tw_collect inputs) = [] ->
      let m := run_tasks 4 (tw inputs initial).2 in
      all_settled m
      /\ compiler (mem m) = Some c
      /\ processedClasses (mem m) = []
      /\ sheet (mem m) = Some ""
      /\ compiles (trace (mem m)) = [default_css]
      /\ builds (trace (mem m)) = []
      /\ reported (trace (mem m)) = []).
Proof.
  assert (all_settled initial) as Hinit by constructor.
  split.
  - intros inputs c c' css names Hc Hne Hb. cbn zeta. unfold tw. cbn [snd].
    fold names. rewrite (run_single names initial Hinit).
    split; [unfold all_settled; cbn; now repeat constructor |].
    cbn [mem]. unfold task_alone.
    pose proof (processClasses_cases names (record [TaskBegin 0] (mem initial))) as H.
    cbn in H. rewrite Hc in H. cbn. rewrite H, process_new_cases. cbn zeta.
    cbn [processedClasses compiler sheet trace]. rewrite new_names_empty.
    destruct names as [| x l] eqn:En; [congruence |]. rewrite Hb. cbn -[fold_left].
    destruct (init_events_projections default_css) as (Hib & Hic & Hir).
    unfold builds, compiles, reported in Hib, Hic, Hir.
    repeat split; rewrite !omap_app; rewrite ?Hib, ?Hic, ?Hir; reflexivity.
  - intros inputs c Hc Hnil. cbn zeta. unfold tw. cbn [snd]. rewrite Hnil.
    rewrite (run_single [] initial Hinit).
    split; [unfold all_settled; cbn; now repeat constructor |].
    cbn [mem]. unfold task_alone.
    pose proof (processClasses_cases [] (record [TaskBegin 0] (mem initial))) as H.
    cbn in H. rewrite Hc in H. cbn. rewrite H. cbn.
    destruct (init_events_projections default_css) as (Hib & Hic & Hir).
    unfold builds, compiles, reported in Hib, Hic, Hir.
    repeat split; rewrite !omap_app; rewrite ?Hib, ?Hic, ?Hir; reflexivity.
Qed.

(** *** From the call to the registry *)

(** X17.  When compiling the default CSS does not throw, no class that
    was given to [tw] is forgotten, whatever the order in which calls
    and tasks run and whatever else calls [initializeCompiler]
    meanwhile: in every state the event loop can reach, every name of a
    task that has run, settled or not yet, is in the registry, even when
    its [build] call threw. *)
Theorem finished_tasks_are_registered (m : machine) (c : Engine) :
  tailwind_compile default_css = Return c ->
  reachable m ->
  forall (n : nat) (classNames : list string) (st : status),
    buildQueue m !! n = Some (classNames, st) ->
    st = Settled \/ (exists r, st = Finished r) ->
    Forall (fun cls => cls ∈ processedClasses (mem m)) classNames.
Proof.
  intros Hc Hm n classNames st Hl Hst.
  eapply finished_registered; eassumption.
Qed.

End Browser.

Arguments Store {Engine}.
Arguments compiler {Engine}.
Arguments processedClasses {Engine}.
Arguments sheet {Engine}.
Arguments trace {Engine}.
Arguments record {Engine}.
Arguments I_error {Engine}.
Arguments catch {Engine}.
Arguments finish_task {Engine}.
Arguments initializeCompiler {Engine}.
Arguments initializeCompiler_call {Engine}.
Arguments initializeCompiler_settle {Engine}.
Arguments process_new {Engine}.
Arguments processClasses {Engine}.
Arguments task_alone {Engine}.
Arguments run_in_order {Engine}.
Arguments Machine {Engine}.
Arguments mem {Engine}.
Arguments buildQueue {Engine}.
Arguments inits {Engine}.
Arguments queueClassProcessing {Engine}.
Arguments queue_all {Engine}.
Arguments tw {Engine}.
Arguments perform {Engine}.
Arguments step {Engine}.
Arguments reachable {Engine}.
Arguments run_actions {Engine}.
Arguments run_tasks {Engine}.
Arguments all_settled {Engine}.
Arguments same_state {Engine}.
Arguments thrown_by_engine {Engine}.

(** ** The stylesheet resolver *)

Section ResolverProperties.

Variables css_index css_preflight css_theme css_utilities : string.

Local Abbreviation table := (alias_table css_index css_preflight css_theme css_utilities).
Local Abbreviation names := (alias_names css_index css_preflight css_theme css_utilities).

Lemma alias_lookup_None (id : string) (t : list (string * (string * string))) :
  alias_lookup id t = None <-> id ∉ t.*1.
Proof.
  induction t as [| [k v] r IH]; cbn.
  - split; [intros _; apply not_elem_of_nil | reflexivity].
  - rewrite not_elem_of_cons, <- IH. destruct (String.eqb_spec id k).
    + split; [discriminate | intros [Hne _]; contradiction].
    + tauto.
Qed.

Lemma load_table (id base : string) :
  load css_index css_preflight css_theme css_utilities id base
  = match alias_lookup id table with
    | Some (path, content) => Return (Stylesheet path base content)
    | None => Throw (Error (unsupported_import id))
    end.
Proof.
  unfold load, alias_table. cbn [alias_lookup].
  repeat (match goal with
          | |- context [String.eqb id ?k] => destruct (String.eqb id k)
          end; cbn [orb]; try reflexivity).
Qed.

(** C7.  [loadStylesheet] settles as its inner [load] does, and [load]
    is the lookup in the alias table: for an identifier of the table it
    returns the virtual path and the content the table gives, with the
    base it was called with; for every other identifier it throws an
    error whose message contains the identifier.  [loadModule] throws,
    whatever it is called with. *)
Theorem resolver_follows_alias_table (id base : string) :
  (loadStylesheet css_index css_preflight css_theme css_utilities id base).2
  = match alias_lookup id table with
    | Some (path, content) => Return (Stylesheet path base content)
    | None => Throw (Error (unsupported_import id))
    end
  /\ (id ∈ names <->
      exists sheet,
        (loadStylesheet css_index css_preflight css_theme css_utilities id base).2
        = Return sheet)
  /\ (id ∉ names <->
      (loadStylesheet css_index css_preflight css_theme css_utilities id base).2
      = Throw (Error (unsupported_import id)))
  /\ (exists before after, unsupported_import id = before ++ id ++ after)%string
  /\ (exists e, loadModule = Throw e).
Proof.
  assert ((loadStylesheet css_index css_preflight css_theme css_utilities id base).2
          = load css_index css_preflight css_theme css_utilities id base) as Hsettle.
  { unfold loadStylesheet. now destruct (load _ _ _ _ _ _). }
  rewrite Hsettle, load_table.
  pose proof (alias_lookup_None id table) as Hnone.
  change (table.*1) with names in Hnone.
  split; [reflexivity |]. split; [| split; [| split]].
  - destruct (alias_lookup id table) as [[path content] |].
    + split; [eauto |]. intros _.
      destruct (decide (id ∈ names)) as [| Hn]; [assumption |].
      apply Hnone in Hn. discriminate.
    + split; [| intros [? ?]; discriminate].
      intros Hin. now apply (proj1 Hnone) in Hin.
  - rewrite <- Hnone. destruct (alias_lookup id table) as [[path content] |].
    + split; discriminate.
    + split; reflexivity.
  - exists ("The browser build does not support @import for " ++ JsString.dquote)%string,
      JsString.dquote.
    reflexivity.
  - now eexists.
Qed.

(** X16.  Every call of [loadStylesheet] records exactly one event and
    settles as the event says.  When it returns, the event carries the
    length of the content it returns, the stylesheet has the base the
    caller gave and a path under [virtual:tailwindcss/], and neither
    path nor content depends on the base.  When it throws, the event
    carries the message of the very error it throws: the failure is
    recorded and passed on, not swallowed. *)
Theorem resolver_records_every_call (id base_dir : string) :
  let r := loadStylesheet css_index css_preflight css_theme css_utilities id base_dir in
  match r.2 with
  | Return sheet =>
      r.1 = [IHitLoaded id base_dir (String.length (content sheet))]
      /\ base sheet = base_dir
      /\ (exists name, path sheet = ("virtual:tailwindcss/" ++ name ++ ".css")%string)
      /\ (forall base',
            exists sheet',
              (loadStylesheet css_index css_preflight css_theme css_utilities id base').2
              = Return sheet'
              /\ path sheet' = path sheet /\ content sheet' = content sheet)
  | Throw err =>
      r.1 = [IHitFailed id base_dir (error_message err)]
      /\ err = Error (unsupported_import id)
      /\ (forall base',
            (loadStylesheet css_index css_preflight css_theme css_utilities id base').2
            = Throw err)
  end.
Proof.
  cbn zeta.
  assert (forall b,
             loadStylesheet css_index css_preflight css_theme css_utilities id b
             = match load css_index css_preflight css_theme css_utilities id b with
               | Return sheet => ([IHitLoaded id b (String.length (content sheet))], Return sheet)
               | Throw err => ([IHitFailed id b (error_message err)], Throw err)
               end) as Hdef by reflexivity.
  rewrite !Hdef.
  assert (forall b,
             load css_index css_preflight css_theme css_utilities id b
             = match alias_lookup id table with
               | Some (path, content) => Return (Stylesheet path b content)
               | None => Throw (Error (unsupported_import id))
               end) as Hload by (intros b; apply load_table).
  rewrite Hload.
  assert (forall p c, alias_lookup id table = Some (p, c) ->
            exists name, p = ("virtual:tailwindcss/" ++ name ++ ".css")%string) as Hpath.
  { unfold alias_table. cbn [alias_lookup]. intros p c.
    repeat (match goal with
            | |- context [String.eqb id ?k] => destruct (String.eqb id k)
            end;
            [ intros [= <- <-];
              first [ now exists "index" | now exists "preflight"
                    | now exists "theme" | now exists "utilities" ] |]).
    discriminate. }
  destruct (alias_lookup id table) as [[p c] |] eqn:E; cbn [fst snd content path].
  - split; [reflexivity |]. split; [reflexivity |]. split; [now apply (Hpath p c) |].
    intros base'. rewrite Hdef, Hload. eexists. cbn [snd]. now repeat split.
  - split; [reflexivity |]. split; [reflexivity |].
    intros base'. now rewrite Hdef, Hload.
Qed.

End ResolverProperties.

(** ** The theorems at work on the example engines *)

Lemma skip_if_all_processed_witness :
  (let s := Store (Some tt) ["a"; "b"] (Some "a b") [] in
   Forall (fun cls => cls ∈ processedClasses s) ["b"; "a"]
   /\ processClasses echo_compile echo_build demo_assets demo_loads ["b"; "a"] s = (s, Return tt))
  /\
  (let m := Machine (Store (Some tt) ["a"; "b"] (Some "a b") []) [(["b"], Pending)] [] in
   exists m',
     buildQueue m !! 0 = Some (["b"], Pending)
     /\ Forall (fun cls => cls ∈ processedClasses (mem m)) ["b"]
     /\ task_move 0 (BeginTask 0)
     /\ perform echo_compile echo_build demo_assets demo_loads (BeginTask 0) m = Some m'
     /\ builds (trace (mem m')) = builds (trace (mem m))
     /\ sheet (mem m') = Some "a b")
  /\
  (exists m,
      run_actions echo_compile echo_build demo_assets demo_loads
        [CallTw [InString "a b"]; BeginTask 0; InitializeTask 0; ContinueTask 0;
         SettleTask 0] (initial unit) = Some m
      /\ ["b"] <> []
      /\ Forall (fun cls => cls ∈ processedClasses (mem m)) ["b"]
      /\ processClasses echo_compile echo_build demo_assets demo_loads ["b"] (mem m) = (mem m, Return tt))
  /\
  (let m := initial unit in
   let inputs := [InString "a b"; InObject [("c", true); ("d", false)]] in
   let m1 := run_tasks echo_compile echo_build demo_assets demo_loads 4 (tw inputs m).2 in
   let m2 := run_tasks echo_compile echo_build demo_assets demo_loads 4 (tw inputs m1).2 in
   all_settled m
   /\ builds (trace (mem m1)) = [["a"; "b"; "c"; "d"]]
   /\ builds (trace (mem m2)) = builds (trace (mem m1))
   /\ sheet (mem m2) = sheet (mem m1)).
Proof.
  split; [| split; [| split]]; cbn zeta.
  - assert (Forall (fun cls => cls ∈ ["a"; "b"]) ["b"; "a"]) as H
      by (apply (bool_decide_unpack _); vm_compute; exact I).
    split; [exact H |].
    apply (proj1 (skip_if_all_processed unit echo_compile echo_build demo_assets demo_loads) ["b"; "a"]
             (Store (Some tt) ["a"; "b"] (Some "a b") []) H).
    cbn. eauto.
  - eexists.
    assert (Forall (fun cls => cls ∈ ["a"; "b"]) ["b"]) as H
      by (apply (bool_decide_unpack _); vm_compute; exact I).
    assert (task_move 0 (BeginTask 0)) as Hmove by now left.
    split; [reflexivity |]. split; [exact H |]. split; [exact Hmove |].
    split; [vm_compute; reflexivity |].
    refine (let R := proj1 (proj2 (skip_if_all_processed unit echo_compile echo_build demo_assets demo_loads))
                       (Machine (Store (Some tt) ["a"; "b"] (Some "a b") [])
                          [(["b"], Pending)] [])
                       _ 0 ["b"] Pending (BeginTask 0) eq_refl H Hmove _ in
            conj (proj1 R) (proj1 (proj2 (proj2 R)) "a b" eq_refl)).
    vm_compute. reflexivity.
  - eexists. split; [vm_compute; reflexivity |].
    assert (["b"] <> @nil string) as Hne by discriminate.
    match goal with
    | |- context [processClasses _ _ _ _ _ (mem ?m)] =>
        assert (reachable echo_compile echo_build demo_assets demo_loads m) as Hm
          by (apply (run_actions_steps unit echo_compile echo_build demo_assets demo_loads
                       [CallTw [InString "a b"]; BeginTask 0; InitializeTask 0;
                        ContinueTask 0; SettleTask 0]);
              vm_compute; reflexivity);
        assert (Forall (fun cls => cls ∈ processedClasses (mem m)) ["b"]) as H
          by (apply (bool_decide_unpack _); vm_compute; exact I);
        exact (conj Hne (conj H
                 (proj1 (proj2 (proj2
                    (skip_if_all_processed unit echo_compile echo_build demo_assets demo_loads)))
                    m ["b"] Hm Hne H)))
    end.
  - assert (all_settled (initial unit)) as H by constructor.
    split; [exact H |]. split; [vm_compute; reflexivity |].
    pose proof (proj2 (proj2 (proj2 (skip_if_all_processed unit echo_compile echo_build demo_assets demo_loads)))
                  [InString "a b"; InObject [("c", true); ("d", false)]]
                  (initial unit) H) as (_ & _ & Hb & _ & Hs).
    split; [exact Hb | exact Hs].
Defined.


Lemma registry_only_grows_witness :
  (exists m m',
      run_actions echo_compile echo_build demo_assets demo_loads
        [CallTw [InString "a b"]; BeginTask 0; InitializeTask 0; ContinueTask 0;
         SettleTask 0] (initial unit) = Some m
      /\ run_actions echo_compile echo_build demo_assets demo_loads
           [CallTw [InString "b c"]; CallInit None; BeginTask 1; SettleTask 1] m = Some m'
      /\ processedClasses (mem m) = ["a"; "b"]
      /\ processedClasses (mem m') = ["a"; "b"; "c"]
      /\ processedClasses (mem m) `prefix_of` processedClasses (mem m'))
  /\
  ("a" ∈ ["a"; "b"] /\ JsSet.add ["a"; "b"] "a" = ["a"; "b"]).
Proof.
  split.
  - eexists. eexists. split; [vm_compute; reflexivity |].
    split; [vm_compute; reflexivity |].
    split; [reflexivity |]. split; [vm_compute; reflexivity |].
    apply (proj1 (registry_only_grows unit echo_compile echo_build demo_assets demo_loads)).
    apply (run_actions_steps unit echo_compile echo_build demo_assets demo_loads
             [CallTw [InString "b c"]; CallInit None; BeginTask 1; SettleTask 1]).
    vm_compute. reflexivity.
  - assert ("a" ∈ ["a"; "b"]) as H by (apply (bool_decide_unpack _); vm_compute; exact I).
    split; [exact H |].
    exact (proj1 (proj2 (proj2 (registry_only_grows unit echo_compile echo_build demo_assets demo_loads)))
             ["a"; "b"] "a" H).
Defined.

Lemma tasks_run_one_at_a_time_witness :
  (exists m,
      run_actions echo_compile echo_build demo_assets demo_loads
        [CallTw [InString "a"]; CallTw [InString "b"]; BeginTask 0;
         CallTw [InString "c"]; InitializeTask 0; ContinueTask 0; SettleTask 0;
         BeginTask 1; SettleTask 1] (initial unit) = Some m
      /\ buildQueue m = [(["a"], Settled); (["b"], Settled); (["c"], Pending)]
      /\ serial_queue (buildQueue m) = true
      /\ scan (trace (mem m)) = Some (2, false))
  /\
  (exists m m',
      run_actions echo_compile echo_build demo_assets demo_loads
        [CallTw [InString "a"]; CallTw [InString "b"]; BeginTask 0; InitializeTask 0]
        (initial unit) = Some m
      /\ perform echo_compile echo_build demo_assets demo_loads (ContinueTask 0) m = Some m'
      /\ processedClasses (mem m') <> processedClasses (mem m)
      /\ processedClasses (mem m) `prefix_of` processedClasses (mem m')
      /\ processedClasses (mem m') = ["a"])
  /\
  (all_settled (initial unit)
   /\ 4 * length [["a"]; ["b"]] <= 8
   /\ run_tasks echo_compile echo_build demo_assets demo_loads 8 (queue_all [["a"]; ["b"]] (initial unit))
      = Machine (run_in_order echo_compile echo_build demo_assets demo_loads 0 [["a"]; ["b"]]
                   (mem (initial unit)))
          [(["a"], Settled); (["b"], Settled)] []).
Proof.
  split; [| split].
  - eexists. split; [vm_compute; reflexivity |]. split; [reflexivity |].
    refine (let H := proj1 (tasks_run_one_at_a_time unit echo_compile echo_build demo_assets demo_loads) _ _ in
            conj (proj1 H) (proj1 (proj2 H))).
    apply (run_actions_steps unit echo_compile echo_build demo_assets demo_loads
             [CallTw [InString "a"]; CallTw [InString "b"]; BeginTask 0;
              CallTw [InString "c"]; InitializeTask 0; ContinueTask 0; SettleTask 0;
              BeginTask 1; SettleTask 1]).
    vm_compute. reflexivity.
  - eexists. eexists. split; [vm_compute; reflexivity |].
    split; [vm_compute; reflexivity |].
    match goal with
    | |- ?new <> processedClasses (mem ?m) /\ _ =>
        assert (reachable echo_compile echo_build demo_assets demo_loads m) as Hm
          by (apply (run_actions_steps unit echo_compile echo_build demo_assets demo_loads
                       [CallTw [InString "a"]; CallTw [InString "b"]; BeginTask 0;
                        InitializeTask 0]);
              vm_compute; reflexivity);
        assert (new <> processedClasses (mem m)) as Hne by (vm_compute; discriminate);
        split; [exact Hne |];
        split; [| vm_compute; reflexivity];
        exact (proj1 (proj1 (proj2 (tasks_run_one_at_a_time unit echo_compile echo_build demo_assets demo_loads))
                        (ContinueTask 0) m _ Hm eq_refl Hne))
    end.
  - assert (all_settled (initial unit)) as H by constructor.
    assert (4 * length [["a"]; ["b"]] <= 8) as Hfuel by (cbn; lia).
    split; [exact H |]. split; [exact Hfuel |].
    exact (proj2 (proj2 (tasks_run_one_at_a_time unit echo_compile echo_build demo_assets demo_loads))
             (initial unit) [["a"]; ["b"]] 8 H Hfuel).
Defined.


Lemma task_initializes_on_demand_witness :
  (let s := initial_store unit in
   let r := processClasses echo_compile echo_build demo_assets demo_loads ["a"] s in
   compiler s = None
   /\ compiles (trace r.1) = compiles (trace s) ++ [default_css]
   /\ r.2 = Return tt
   /\ builds (trace r.1) = [["a"]]
   /\ trace r.1
      = [IStart "Initialize compiler"; IStart "Compile CSS"; CallCompile default_css;
         IHitLoaded "tailwindcss" "/" 22; IHitLoaded "./theme.css" "/" 7;
         IHitLoaded "./preflight.css" "/" 11; IHitLoaded "./utilities.css" "/" 20;
         IEnd "Compile CSS"; IEnd "Initialize compiler";
         IStart "Process new classes"; CallBuild ["a"]; IEndProcess 1 1])
  /\
  (exists m,
      run_actions echo_compile picky_build demo_assets demo_loads
        [CallTw [InString "bad"]; BeginTask 0; CallInit None; InitializeTask 0;
         SettleInit 0; ContinueTask 0; SettleTask 0]
        (initial unit) = Some m
      /\ reported (trace (mem m)) = [Error "cannot build"]
      /\ (is_Some (compiler (mem m)) -> is_Some (sheet (mem m)))
      /\ Forall (thrown_by_engine echo_compile picky_build) (reported (trace (mem m))))
  /\
  (exists m m',
      run_actions echo_compile echo_build demo_assets demo_loads
        [CallTw [InString "a"]; BeginTask 0; InitializeTask 0] (initial unit) = Some m
      /\ perform echo_compile echo_build demo_assets demo_loads (ContinueTask 0) m = Some m'
      /\ builds (trace (mem m')) <> builds (trace (mem m))
      /\ is_Some (compiler (mem m))).
Proof.
  split; [| split]; cbn zeta.
  - assert (compiler (initial_store unit) = None) as Hc by reflexivity.
    split; [exact Hc |]. split; [| repeat split; vm_compute; reflexivity].
    exact (proj1 (proj1 (task_initializes_on_demand unit echo_compile echo_build
                           demo_assets demo_loads)
                    ["a"] (initial_store unit) Hc)).
  - eexists. split; [vm_compute; reflexivity |]. split; [vm_compute; reflexivity |].
    apply (proj1 (proj2 (task_initializes_on_demand unit echo_compile picky_build
                           demo_assets demo_loads))).
    apply (run_actions_steps unit echo_compile picky_build demo_assets demo_loads
             [CallTw [InString "bad"]; BeginTask 0; CallInit None; InitializeTask 0;
              SettleInit 0; ContinueTask 0; SettleTask 0]).
    vm_compute. reflexivity.
  - eexists. eexists. split; [vm_compute; reflexivity |].
    match goal with
    | |- perform _ _ _ _ _ ?m = _ /\ _ =>
        assert (reachable echo_compile echo_build demo_assets demo_loads m) as Hm
          by (apply (run_actions_steps unit echo_compile echo_build demo_assets demo_loads
                       [CallTw [InString "a"]; BeginTask 0; InitializeTask 0]);
              vm_compute; reflexivity);
        split; [vm_compute; reflexivity |]
    end.
    match goal with
    | |- builds (trace (mem ?m2)) <> builds (trace (mem ?m1)) /\ _ =>
        assert (perform echo_compile echo_build demo_assets demo_loads (ContinueTask 0) m1
                = Some m2) as Hstep by (vm_compute; reflexivity);
        assert (builds (trace (mem m2)) <> builds (trace (mem m1))) as Hne
          by (vm_compute; intros H; discriminate H);
        split; [exact Hne |];
        exact (proj2 (proj2 (proj2 (proj2
                 (task_initializes_on_demand unit echo_compile echo_build
                    demo_assets demo_loads))))
                 (ContinueTask 0) m1 m2 Hm Hstep Hne)
    end.
Defined.

Lemma tw_active_and_candidates_witness :
  let inputs := [InString "a b"; InObject [("c", true); ("d", false)]] in
  let m := run_tasks echo_compile echo_build demo_assets demo_loads 4
             (tw inputs (initial unit)).2 in
  all_settled (initial unit)
  /\ echo_compile default_css = Return tt
  /\ (tw inputs (initial unit)).1 = "a b c"
  /\ buildQueue (tw inputs (initial unit)).2 = [(["a"; "b"; "c"; "d"], Pending)]
  /\ m = Machine
           (finish_task 0
              (processClasses echo_compile echo_build demo_assets demo_loads
                 ["a"; "b"; "c"; "d"] (record [TaskBegin 0] (initial_store unit))))
           [(["a"; "b"; "c"; "d"], Settled)] []
  /\ processedClasses (mem m) = ["a"; "b"; "c"; "d"]
  /\ builds (trace (mem m)) = [["a"; "b"; "c"; "d"]]
  /\ sheet (mem m) = Some "a b c d".
Proof.
  cbn zeta.
  assert (all_settled (initial unit)) as Hall by constructor.
  assert (echo_compile default_css = Return tt) as Hc by reflexivity.
  destruct (tw_active_and_candidates unit echo_compile echo_build demo_assets demo_loads)
    as (_ & _ & _ & _ & _ & _ & T7 & T8).
  pose proof (T7 [InString "a b"; InObject [("c", true); ("d", false)]] (initial unit) Hall)
    as H7.
  pose proof (T8 tt Hc) as H8. cbn zeta in H7, H8. destruct H8 as [Hr Hb].
  split; [exact Hall |]. split; [exact Hc |]. split; [reflexivity |].
  split; [reflexivity |]. split; [exact H7 |]. split; [exact Hr |].
  split; [exact Hb |]. vm_compute. reflexivity.
Defined.

Lemma failed_initialize_installs_nothing_witness :
  let s := Store (Some tt) ["a"] (Some "a") [] in
  let r := initializeCompiler broken_compile demo_assets broken_loads (Some "@import 'missing';") s in
  broken_compile (default default_css (Some "@import 'missing';"))
  = Throw (Error "cannot compile")
  /\ r.2 = Throw (Error "cannot compile")
  /\ compiler r.1 = Some tt
  /\ processedClasses r.1 = ["a"]
  /\ sheet r.1 = Some "a"
  /\ builds (trace (processClasses broken_compile echo_build demo_assets broken_loads ["b"] r.1).1) = [["a"; "b"]].
Proof.
  cbn zeta.
  assert (broken_compile (default default_css (Some "@import 'missing';"))
          = Throw (Error "cannot compile")) as He by reflexivity.
  split; [exact He |].
  refine (let H := failed_initialize_installs_nothing unit broken_compile echo_build demo_assets broken_loads
                     (Some "@import 'missing';") (Store (Some tt) ["a"] (Some "a") [])
                     _ He in
          conj (proj1 H)
            (conj (proj1 (proj2 H))
               (conj (proj1 (proj2 (proj2 H)))
                  (conj (proj1 (proj2 (proj2 (proj2 H)))) _)))).
  vm_compute. reflexivity.
Defined.

Lemma failed_build_keeps_names_witness :
  let s := Store (Some tt) ["a"] (Some "a") [] in
  let s' := (processClasses echo_compile picky_build demo_assets demo_loads ["bad"; "b"] s).1 in
  (process_new picky_build ["bad"; "b"] s).2 = Throw (Error "cannot build")
  /\ Forall (fun cls => cls ∈ processedClasses (process_new picky_build ["bad"; "b"] s).1)
       ["bad"; "b"]
  /\ (processClasses echo_compile picky_build demo_assets demo_loads ["bad"; "b"] s).2
     = Throw (Error "cannot build")
  /\ is_Some (compiler s')
  /\ processedClasses s' = ["a"; "bad"; "b"]
  /\ sheet s' = Some "a"
  /\ Forall (fun cls => cls ∈ processedClasses s') ["bad"; "b"]
  /\ builds (trace s') = builds (trace s) ++ [processedClasses s']
  /\ Forall (fun cls => cls ∈ ["bad"; "b"]) ["b"; "bad"]
  /\ processClasses echo_compile picky_build demo_assets demo_loads ["b"; "bad"] s' = (s', Return tt).
Proof.
  cbn zeta.
  assert ((processClasses echo_compile picky_build demo_assets demo_loads ["bad"; "b"]
             (Store (Some tt) ["a"] (Some "a") [])).2 = Throw (Error "cannot build")) as He
    by (vm_compute; reflexivity).
  assert (is_Some (compiler (processClasses echo_compile picky_build demo_assets demo_loads ["bad"; "b"]
                               (Store (Some tt) ["a"] (Some "a") [])).1)) as Hc
    by (vm_compute; eauto).
  assert (Forall (fun cls => cls ∈ ["bad"; "b"]) ["b"; "bad"]) as Hlater
    by (apply (bool_decide_unpack _); vm_compute; exact I).
  assert ((process_new picky_build ["bad"; "b"]
             (Store (Some tt) ["a"] (Some "a") [])).2 = Throw (Error "cannot build")) as He0
    by (vm_compute; reflexivity).
  split; [exact He0 |].
  split; [exact (proj1 (proj1 (failed_build_keeps_names unit echo_compile picky_build demo_assets demo_loads)
                          ["bad"; "b"] (Store (Some tt) ["a"] (Some "a") []) _ He0)) |].
  split; [exact He |]. split; [exact Hc |].
  split; [vm_compute; reflexivity |]. split; [vm_compute; reflexivity |].
  refine (let H := proj2 (failed_build_keeps_names unit echo_compile picky_build demo_assets demo_loads)
                     ["bad"; "b"] (Store (Some tt) ["a"] (Some "a") []) _ He Hc in
          conj (proj1 H)
            (conj (proj1 (proj2 (proj2 H)))
               (conj Hlater (proj2 (proj2 (proj2 H)) ["b"; "bad"] Hlater)))).
Defined.

Lemma parse_join_round_trip_witness :
  Forall (fun name => solid name = true) ["p-5"; "text-white"]
  /\ parseClassString (JsString.join " " ["p-5"; "text-white"]) = ["p-5"; "text-white"].
Proof.
  assert (Forall (fun name => solid name = true) ["p-5"; "text-white"]) as H
    by (repeat constructor).
  exact (conj H (proj1 parse_join_round_trip ["p-5"; "text-white"] H)).
Defined.

Lemma parse_append_witness :
  let gap := String (ascii_of_nat 9) " " in
  blank gap = true
  /\ gap <> EmptyString
  /\ parseClassString ("p-5 m-1" ++ gap ++ "flex")%string = ["p-5"; "m-1"; "flex"]
  /\ parseClassString (gap ++ "flex" ++ gap)%string = ["flex"].
Proof.
  cbn zeta.
  assert (blank (String (ascii_of_nat 9) " ") = true) as Hb by reflexivity.
  assert (String (ascii_of_nat 9) " " <> EmptyString) as Hne by discriminate.
  split; [exact Hb |]. split; [exact Hne |]. split.
  - exact (proj1 parse_append "p-5 m-1" (String (ascii_of_nat 9) " ") "flex" Hb Hne).
  - exact (proj2 parse_append (String (ascii_of_nat 9) " ") "flex"
             (String (ascii_of_nat 9) " ") Hb Hb).
Defined.

Lemma tw_result_is_queued_witness :
  let inputs := [InString "a b"; InObject [("c", true)]] in
  "b" ∈ parseClassString (tw inputs (initial unit)).1
  /\ "b" ∈ allClassesToProcess (tw_collect inputs)
  /\ (forall entries, InObject entries ∈ inputs -> Forall (fun e => e.2 = true) entries)
  /\ resultClasses (tw_collect inputs) = allClassesToProcess (tw_collect inputs).
Proof.
  cbn zeta.
  assert ("b" ∈ parseClassString
                  (tw [InString "a b"; InObject [("c", true)]] (initial unit)).1) as Hin
    by (apply (bool_decide_unpack _); vm_compute; exact I).
  assert (forall entries,
             InObject entries ∈ [InString "a b"; InObject [("c", true)]] ->
             Forall (fun e : string * bool => e.2 = true) entries) as Hall.
  { intros entries H.
    apply elem_of_cons in H as [H | H]; [discriminate |].
    apply elem_of_cons in H as [H | H]; [injection H as ->; now repeat constructor |].
    now apply elem_of_nil in H. }
  split; [exact Hin |].
  split; [exact (proj1 (proj2 (tw_result_is_queued unit
                                 [InString "a b"; InObject [("c", true)]]))
                   (initial unit) "b" Hin) |].
  split; [exact Hall |].
  exact (proj2 (proj2 (tw_result_is_queued unit
                         [InString "a b"; InObject [("c", true)]])) Hall).
Defined.

Lemma registry_is_independent_of_batching_witness :
  (is_Some (compiler (initial_store unit)) \/ exists c, echo_compile default_css = Return c)
  /\ processedClasses
       (run_in_order echo_compile echo_build demo_assets demo_loads 0 [["a"; "b"]; ["b"; "c"]] (initial_store unit))
     = ["a"; "b"; "c"].
Proof.
  assert (is_Some (compiler (initial_store unit))
          \/ exists c, echo_compile default_css = Return c) as H
    by (right; exists tt; reflexivity).
  split; [exact H |].
  exact (proj2 (proj2 (registry_is_independent_of_batching unit echo_compile echo_build demo_assets demo_loads))
           [["a"; "b"]; ["b"; "c"]] 0 (initial_store unit) H).
Defined.

Lemma count_and_total_witness :
  let s := Store (Some tt) ["a"] (Some "a") [] in
  let s' := (process_new echo_build ["b"; "b"; "a"] s).1 in
  (process_new echo_build ["b"; "b"; "a"] s).2 = Return tt
  /\ new_names ["b"; "b"; "a"] (processedClasses s) <> []
  /\ last (trace s') = Some (IEndProcess 2 2)
  /\ 1 < 2 <= 1 + 2
  /\ (2 = 1 + 2 <-> NoDup ["b"; "b"]).
Proof.
  cbn zeta.
  assert ((process_new echo_build ["b"; "b"; "a"] (Store (Some tt) ["a"] (Some "a") [])).2
          = Return tt) as Hret by (vm_compute; reflexivity).
  assert (new_names ["b"; "b"; "a"] (processedClasses (Store (Some tt) ["a"] (Some "a") []))
          <> []) as Hnew by (vm_compute; intros H; discriminate H).
  split; [exact Hret |]. split; [exact Hnew |].
  exact (count_and_total unit echo_compile echo_build demo_loads ["b"; "b"; "a"]
           (Store (Some tt) ["a"] (Some "a") []) Hret Hnew).
Defined.

Lemma style_element_writers_witness :
  (let s := Store (Some tt) ["a"] (Some "a") [] in
   (process_new picky_build ["bad"] s).2 = Throw (Error "cannot build")
   /\ sheet (process_new picky_build ["bad"] s).1 = Some "a")
  /\
  (exists m m',
      run_actions echo_compile echo_build demo_assets demo_loads
        [CallTw [InBoolean false]; BeginTask 0; InitializeTask 0] (initial unit) = Some m
      /\ run_actions echo_compile echo_build demo_assets demo_loads
           [ContinueTask 0; SettleTask 0; CallTw [InString "a"]; BeginTask 1] m = Some m'
      /\ sheet (mem m) = Some ""
      /\ sheet (mem m') = Some "a"
      /\ is_Some (sheet (mem m'))).
Proof.
  split; cbn zeta.
  - assert ((process_new picky_build ["bad"] (Store (Some tt) ["a"] (Some "a") [])).2
            = Throw (Error "cannot build")) as He by (vm_compute; reflexivity).
    split; [exact He |].
    exact (proj1 (proj2 (style_element_writers unit echo_compile picky_build demo_assets demo_loads))
             ["bad"] (Store (Some tt) ["a"] (Some "a") []) _ He).
  - eexists. eexists. split; [vm_compute; reflexivity |].
    split; [vm_compute; reflexivity |].
    match goal with
    | |- sheet (mem ?m1) = _ /\ _ =>
        assert (is_Some (sheet (mem m1))) as Hs by (vm_compute; eauto);
        split; [reflexivity |]; split; [vm_compute; reflexivity |];
        refine (proj2 (proj2 (style_element_writers unit echo_compile echo_build demo_assets demo_loads))
                  m1 _ _ Hs)
    end.
    apply (run_actions_steps unit echo_compile echo_build demo_assets demo_loads
             [ContinueTask 0; SettleTask 0; CallTw [InString "a"]; BeginTask 1]).
    vm_compute. reflexivity.
Defined.

Lemma only_class_names_are_processed_witness :
  exists m,
    run_actions echo_compile echo_build demo_assets demo_loads
      [CallTw [InString "  a   b "; InObject [("c d", false)]];
       BeginTask 0; InitializeTask 0; ContinueTask 0; SettleTask 0;
       CallTw [InString "e"]]
      (initial unit) = Some m
    /\ processedClasses (mem m) = ["a"; "b"; "c"; "d"]
    /\ Forall (fun t => Forall (fun name => solid name = true) t.1) (buildQueue m)
    /\ Forall (fun name => solid name = true) (processedClasses (mem m))
    /\ Forall (Forall (fun name => solid name = true)) (builds (trace (mem m))).
Proof.
  eexists. split; [vm_compute; reflexivity |]. split; [vm_compute; reflexivity |].
  apply (only_class_names_are_processed unit echo_compile echo_build demo_assets demo_loads).
  apply (run_actions_steps unit echo_compile echo_build demo_assets demo_loads
           [CallTw [InString "  a   b "; InObject [("c d", false)]];
            BeginTask 0; InitializeTask 0; ContinueTask 0; SettleTask 0;
            CallTw [InString "e"]]).
  vm_compute. reflexivity.
Defined.


Lemma reinitialize_keeps_styles_witness :
  let s := Store (Some tt) ["a"] (Some "a") [] in
  let r := initializeCompiler echo_compile demo_assets demo_loads (Some "body{}") s in
  echo_compile (default default_css (Some "body{}")) = Return tt
  /\ r.2 = Return tt
  /\ processedClasses r.1 = ["a"]
  /\ sheet r.1 = Some "a"
  /\ builds (trace r.1) = []
  /\ compiles (trace r.1) = ["body{}"]
  /\ Forall (fun cls => cls ∈ processedClasses s) ["a"; "a"]
  /\ processClasses echo_compile echo_build demo_assets demo_loads ["a"; "a"] r.1 = (r.1, Return tt).
Proof.
  cbn zeta.
  assert (echo_compile (default default_css (Some "body{}")) = Return tt) as Hc
    by reflexivity.
  assert (Forall (fun cls => cls ∈ processedClasses (Store (Some tt) ["a"] (Some "a") []))
            ["a"; "a"]) as Hall
    by (apply (bool_decide_unpack _); vm_compute; exact I).
  pose proof (reinitialize_keeps_styles unit echo_compile echo_build demo_assets demo_loads (Some "body{}")
                (Store (Some tt) ["a"] (Some "a") []) tt Hc) as H.
  cbn zeta in H. destruct H as (H1 & _ & H3 & H4 & H5 & H6 & _ & H8).
  split; [exact Hc |]. split; [exact H1 |]. split; [exact H3 |]. split; [exact H4 |].
  split; [exact H5 |]. split; [exact H6 |]. split; [exact Hall |].
  exact (H8 ["a"; "a"] Hall).
Defined.

Lemma compile_once_or_every_time_witness :
  (compiler (initial_store unit) = None
   /\ echo_compile default_css = Return tt
   /\ [["a"]; ["b"]; []] <> []
   /\ compiles (trace (run_in_order echo_compile echo_build demo_assets demo_loads 0 [["a"]; ["b"]; []]
                         (initial_store unit)))
      = [default_css])
  /\
  (broken_compile default_css = Throw (Error "cannot compile")
   /\ compiles (trace (run_in_order broken_compile echo_build demo_assets broken_loads 0 [["a"]; ["b"]; []]
                         (initial_store unit)))
      = [default_css; default_css; default_css]
   /\ reported (trace (run_in_order broken_compile echo_build demo_assets broken_loads 0 [["a"]; ["b"]; []]
                         (initial_store unit)))
      = [Error "cannot compile"; Error "cannot compile"; Error "cannot compile"]
   /\ processedClasses (run_in_order broken_compile echo_build demo_assets broken_loads 0 [["a"]; ["b"]; []]
                          (initial_store unit)) = []).
Proof.
  assert (compiler (initial_store unit) = None) as Hn by reflexivity.
  split.
  - assert (echo_compile default_css = Return tt) as Hc by reflexivity.
    assert ([["a"]; ["b"]; []] <> ([] : list (list string))) as Hne by discriminate.
    split; [exact Hn |]. split; [exact Hc |]. split; [exact Hne |].
    exact (proj1 (proj2 (compile_once_or_every_time unit echo_compile echo_build demo_assets demo_loads))
             [["a"]; ["b"]; []] 0 (initial_store unit) tt Hn Hc Hne).
  - assert (broken_compile default_css = Throw (Error "cannot compile")) as He
      by reflexivity.
    pose proof (proj2 (proj2 (compile_once_or_every_time unit broken_compile echo_build demo_assets broken_loads))
                  [["a"]; ["b"]; []] 0 (initial_store unit) _ Hn He) as H.
    cbn zeta in H. destruct H as (H1 & H2 & _ & _ & H4 & _).
    split; [exact He |]. split; [exact H1 |]. split; [exact H2 |]. exact H4.
Defined.

Lemma first_call_paints_witness :
  let inputs := [InString "a b"; InObject [("c", false); ("a", true)]] in
  let m := run_tasks echo_compile echo_build demo_assets demo_loads 4 (tw inputs (initial unit)).2 in
  echo_compile default_css = Return tt
  /\ allClassesToProcess (tw_collect inputs) <> []
  /\ echo_build tt (fold_left JsSet.add (allClassesToProcess (tw_collect inputs)) [])
     = (tt, Return "a b c")
  /\ (tw inputs (initial unit)).1 = "a b a"
  /\ processedClasses (mem m) = ["a"; "b"; "c"]
  /\ sheet (mem m) = Some "a b c"
  /\ builds (trace (mem m)) = [["a"; "b"; "c"]]
  /\ reported (trace (mem m)) = [].
Proof.
  cbn zeta.
  assert (echo_compile default_css = Return tt) as Hc by reflexivity.
  assert (allClassesToProcess
            (tw_collect [InString "a b"; InObject [("c", false); ("a", true)]]) <> [])
    as Hne by (vm_compute; intros H; discriminate H).
  assert (echo_build tt
            (fold_left JsSet.add
               (allClassesToProcess
                  (tw_collect [InString "a b"; InObject [("c", false); ("a", true)]])) [])
          = (tt, Return "a b c")) as Hb by (vm_compute; reflexivity).
  pose proof (proj1 (first_call_paints unit echo_compile echo_build demo_assets demo_loads)
                [InString "a b"; InObject [("c", false); ("a", true)]]
                tt tt "a b c" Hc Hne Hb) as H.
  cbn zeta in H. destruct H as (_ & _ & H3 & H4 & _ & H6 & H7).
  split; [exact Hc |]. split; [exact Hne |]. split; [exact Hb |].
  split; [vm_compute; reflexivity |].
  split; [exact H3 |]. split; [exact H4 |]. split; [exact H6 |]. exact H7.
Defined.

Lemma finished_tasks_are_registered_witness :
  exists m,
    run_actions echo_compile picky_build demo_assets demo_loads
      [CallTw [InString "bad x"]; BeginTask 0; InitializeTask 0; ContinueTask 0]
      (initial unit) = Some m
    /\ echo_compile default_css = Return tt
    /\ buildQueue m !! 0 = Some (["bad"; "x"], Finished (Throw (Error "cannot build")))
    /\ Forall (fun cls => cls ∈ processedClasses (mem m)) ["bad"; "x"].
Proof.
  eexists. split; [vm_compute; reflexivity |]. split; [reflexivity |].
  match goal with
  | |- buildQueue ?m1 !! 0 = _ /\ _ =>
      assert (reachable echo_compile picky_build demo_assets demo_loads m1) as Hm
        by (apply (run_actions_steps unit echo_compile picky_build demo_assets demo_loads
                     [CallTw [InString "bad x"]; BeginTask 0; InitializeTask 0;
                      ContinueTask 0]);
            vm_compute; reflexivity);
      assert (buildQueue m1 !! 0
              = Some (["bad"; "x"], Finished (Throw (Error "cannot build")))) as Hl
        by (vm_compute; reflexivity);
      split; [exact Hl |];
      exact (finished_tasks_are_registered unit echo_compile picky_build demo_assets demo_loads m1 tt eq_refl Hm
               0 ["bad"; "x"] _ Hl (or_intror (ex_intro _ _ eq_refl)))
  end.
Defined.
